(** * Flat File Reader: the data-access layer (fileLoader.ts, extension.ts)

    A shallow embedding of the loaders, the query construction, the result
    normaliser, the save path and the retry helper, followed by the
    properties of the specification that are stated about them. *)

From Stdlib Require Import ZArith NArith List String Ascii Bool Lia.
From stdpp Require Import gmap.
Import ListNotations.

Set Warnings "-register-all".

Local Open Scope N_scope.

(** ** JavaScript strings and values *)

Module JS.

(** A JavaScript string is a sequence of UTF-16 code units. *)
Definition jsstring := list N.

Definition chr (a : ascii) : N := N_of_ascii a.

(** A string literal of the source (all of them are ASCII). *)
Definition lit (s : string) : jsstring := map chr (list_ascii_of_string s).
Arguments lit s%_string.
Arguments chr a%_char.

(** The code units matched by [\s] in a regular expression without the
    unicode flag, which are also the ones [String.prototype.trim] strips:
    WhiteSpace and LineTerminator of ECMAScript. *)
Definition isWhiteSpace (c : N) : bool :=
  ((9 <=? c) && (c <=? 13)) || (c =? 32) || (c =? 160) || (c =? 5760)
  || ((8192 <=? c) && (c <=? 8202)) || (c =? 8232) || (c =? 8233)
  || (c =? 8239) || (c =? 8287) || (c =? 12288) || (c =? 65279).

(** [s.replace(/\s+/g, rep)]: a left-to-right scan; [inRun] tells that the
    code unit before the current one was part of the match being consumed,
    so that a whole run of white space is one match. *)
Fixpoint replaceRunsFrom (rep : jsstring) (inRun : bool) (s : jsstring) : jsstring :=
  match s with
  | [] => []
  | c :: s' =>
      if isWhiteSpace c
      then (if inRun then replaceRunsFrom rep true s'
            else rep ++ replaceRunsFrom rep true s')
      else c :: replaceRunsFrom rep false s'
  end.

Definition replaceWhiteSpaceRuns (rep s : jsstring) : jsstring :=
  replaceRunsFrom rep false s.

Fixpoint trimStart (s : jsstring) : jsstring :=
  match s with
  | [] => []
  | c :: s' => if isWhiteSpace c then trimStart s' else s
  end.

Definition trimEnd (s : jsstring) : jsstring := rev (trimStart (rev s)).

(** [s.trim()] *)
Definition trim (s : jsstring) : jsstring := trimEnd (trimStart s).

(** Strings of white space only and strings without white space; strings
    that do not end, or do not start, with white space. *)
Definition blank (s : jsstring) : Prop := Forall (fun c => isWhiteSpace c = true) s.
Definition solid (s : jsstring) : Prop := Forall (fun c => isWhiteSpace c = false) s.
Definition endsSolid (s : jsstring) : Prop :=
  forall s' c, s = s' ++ [c] -> isWhiteSpace c = false.
Definition startsSolid (s : jsstring) : Prop :=
  forall c s', s = c :: s' -> isWhiteSpace c = false.

(** [s.replace(/'/g, "''")] *)
Definition doubleQuotes (s : jsstring) : jsstring :=
  flat_map (fun c => if c =? chr "'" then [chr "'"; chr "'"] else [c]) s.

(** [s.replace(/\\/g, '/')] *)
Definition slashes (s : jsstring) : jsstring :=
  map (fun c => if c =? chr "\" then chr "/" else c) s.

(** [parts.join(sep)] on an array of strings. *)
Fixpoint join (sep : jsstring) (parts : list jsstring) : jsstring :=
  match parts with
  | [] => []
  | [p] => p
  | p :: rest => p ++ sep ++ join sep rest
  end.

(** An array that may have holes: [None] is an index below the length at
    which the array has no element. *)
Definition sparse (A : Type) : Type := list (option A).

(** An array without holes. *)
Definition dense {A : Type} (l : list A) : sparse A := map Some l.

(** [a.map(f)]: the callback is not called on a hole, and the result has a
    hole where [a] has one. *)
Definition mapSparse {A B : Type} (f : A -> B) (a : sparse A) : sparse B :=
  map (option_map f) a.

(** [a.join(sep)] on an array of strings: a hole prints as nothing. *)
Definition joinSparse (sep : jsstring) (a : sparse jsstring) : jsstring :=
  join sep (map (fun part => match part with Some p => p | None => [] end) a).

(** [s.toLowerCase()] on the ASCII letters.  The only use is the comparison
    of a file extension with ASCII literals that contain no [k]; no other
    code unit lower-cases to one of their letters. *)
Definition toLowerCase (s : jsstring) : jsstring :=
  map (fun c => if (65 <=? c) && (c <=? 90) then c + 32 else c) s.

Definition eqb (a b : jsstring) : bool := bool_decide (a = b).

(** [s.startsWith(p)] *)
Fixpoint startsWith (p s : jsstring) : bool :=
  match p, s with
  | [], _ => true
  | a :: p', b :: s' => (a =? b) && startsWith p' s'
  | _ :: _, [] => false
  end.

(** The number a string of decimal digits stands for. *)
Fixpoint digitsValue (acc : N) (s : jsstring) : option N :=
  match s with
  | [] => Some acc
  | c :: s' =>
      if (48 <=? c) && (c <=? 57) then digitsValue (10 * acc + (c - 48)) s' else None
  end.

(** A property key that is an array index: the canonical decimal text,
    without a leading zero, of an integer from 0 to 2^32 - 2. *)
Definition arrayIndex (key : jsstring) : option N :=
  match key with
  | [] => None
  | [c] => digitsValue 0 [c]
  | c :: _ =>
      if c =? 48 then None
      else match digitsValue 0 key with
           | Some n => if n <=? 4294967294 then Some n else None
           | None => None
           end
  end.

(** Decimal digits of a natural number, and of an integer. *)
Fixpoint digitsOf (d : Decimal.uint) : jsstring :=
  match d with
  | Decimal.Nil => []
  | Decimal.D0 d => chr "0" :: digitsOf d
  | Decimal.D1 d => chr "1" :: digitsOf d
  | Decimal.D2 d => chr "2" :: digitsOf d
  | Decimal.D3 d => chr "3" :: digitsOf d
  | Decimal.D4 d => chr "4" :: digitsOf d
  | Decimal.D5 d => chr "5" :: digitsOf d
  | Decimal.D6 d => chr "6" :: digitsOf d
  | Decimal.D7 d => chr "7" :: digitsOf d
  | Decimal.D8 d => chr "8" :: digitsOf d
  | Decimal.D9 d => chr "9" :: digitsOf d
  end.

Definition decimalN (n : N) : jsstring := digitsOf (N.to_uint n).

Definition decimal (z : Z) : jsstring :=
  if (z <? 0)%Z then chr "-" :: decimalN (Z.abs_N z) else decimalN (Z.abs_N z).

(** A JavaScript number.  The integers are kept as integers; a finite
    number with a fractional part is kept with the text [String] gives for
    it, which is all the loaders ever do with one. *)
Inductive number : Type :=
  | NInt (z : Z)
  | NFrac (text : jsstring)
  | NNaN
  | NInf (negative : bool).

(** [Number(b)] for a BigInt [b]: the nearest double, ties to even. *)
Definition numberOfBigInt (z : Z) : number :=
  let a := Z.abs z in
  if (a <? 2 ^ 53)%Z then NInt z
  else
    let e := (Z.log2 a - 52)%Z in
    let q := Z.shiftr a e in
    let r := (a - Z.shiftl q e)%Z in
    let half := Z.shiftl 1 (e - 1) in
    let q' := if (half <? r)%Z || ((half =? r)%Z && Z.odd q) then (q + 1)%Z else q in
    let m := Z.shiftl q' e in
    if (2 ^ 1024 <=? m)%Z then NInf (z <? 0)%Z else NInt (Z.sgn z * m).

(** Whether the integer [c], read as a number, is the double [a]. *)
Definition readsAs (c a : Z) : bool :=
  match numberOfBigInt c with
  | NInt m => (m =? a)%Z
  | _ => false
  end.

(** The decimal [String] prints for the double [a], an integer of [n]
    digits and of magnitude 2^53 or more: among the integers that are read
    back as [a], one with the fewest significant digits, [k] or more, and of
    those the one closest to [a], the even one when two are as close. *)
Fixpoint shortestDecimal (fuel : nat) (k n a : Z) : Z :=
  match fuel with
  | O => a
  | S fuel' =>
      let p := (10 ^ (n - k))%Z in
      let lo := (a / p * p)%Z in
      let hi := (lo + p)%Z in
      if readsAs lo a && readsAs hi a
      then if (a - lo <? hi - a)%Z then lo
           else if (hi - a <? a - lo)%Z then hi
           else if Z.even (a / p) then lo else hi
      else if readsAs lo a then lo
      else if readsAs hi a then hi
      else shortestDecimal fuel' (k + 1)%Z n a
  end.

Fixpoint dropZeros (s : jsstring) : jsstring :=
  match s with
  | c :: s' => if c =? chr "0" then dropZeros s' else s
  | [] => []
  end.

(** The digits of [c] in full when there are at most 21 of them, else the
    significant ones with a point after the first and the exponent. *)
Definition printDecimal (c : Z) : jsstring :=
  let digits := decimalN (Z.to_N c) in
  let n := Z.of_nat (length digits) in
  if (n <=? 21)%Z then digits
  else
    match rev (dropZeros (rev digits)) with
    | [] => digits
    | d :: rest =>
        [d] ++ match rest with [] => [] | _ :: _ => chr "." :: rest end
            ++ lit "e+" ++ decimal (n - 1)
    end.

(** [String(n)]: an integer below 2^53 in magnitude prints its digits; a
    greater one prints the shortest decimal that reads back as the same
    number, with an exponent from 1e21 on. *)
Definition numberToString (n : number) : jsstring :=
  match n with
  | NInt z =>
      let a := Z.abs z in
      if (a <? 2 ^ 53)%Z then decimal z
      else
        let digits := Z.of_nat (length (decimalN (Z.to_N a))) in
        let c := shortestDecimal (Z.to_nat (Z.min 17 digits)) 1 digits a in
        (if (z <? 0)%Z then lit "-" else []) ++ printDecimal c
  | NFrac text => text
  | NNaN => lit "NaN"
  | NInf false => lit "Infinity"
  | NInf true => lit "-Infinity"
  end.

Definition MAX_SAFE_INTEGER : number := NInt (2 ^ 53 - 1).

(** Values.  An object is the list of its own enumerable properties in
    enumeration order; the keys of one object are pairwise distinct. *)
Inductive jsval : Type :=
  | JUndefined
  | JNull
  | JBool (b : bool)
  | JNumber (n : number)
  | JString (s : jsstring)
  | JBigInt (z : Z)
  | JArray (xs : list jsval)
  | JObject (props : list (jsstring * jsval)).

Definition object := list (jsstring * jsval).


(** [typeof v === 'object'] (which holds of [null]) *)
Definition typeofObject (v : jsval) : bool :=
  match v with JNull | JArray _ | JObject _ => true | _ => false end.

(** [Array.isArray(v)] *)
Definition isArray (v : jsval) : bool :=
  match v with JArray _ => true | _ => false end.

(** ToBoolean *)
Definition truthy (v : jsval) : bool :=
  match v with
  | JUndefined | JNull => false
  | JBool b => b
  | JNumber (NInt z) => negb (z =? 0)%Z
  | JNumber NNaN => false
  | JNumber _ => true
  | JString s => negb (eqb s [])
  | JBigInt z => negb (z =? 0)%Z
  | JArray _ | JObject _ => true
  end.

(** [a || b] *)
Definition or (a b : jsval) : jsval := if truthy a then a else b.

(** [String(v)].  An array prints its elements joined by commas, [null]
    and [undefined] elements as nothing; a plain object prints as
    [[object Object]]. *)
Fixpoint toString (v : jsval) : jsstring :=
  match v with
  | JUndefined => lit "undefined"
  | JNull => lit "null"
  | JBool true => lit "true"
  | JBool false => lit "false"
  | JNumber n => numberToString n
  | JString s => s
  | JBigInt z => decimal z
  | JArray xs =>
      join (lit ",")
        (map (fun x => match x with
                       | JUndefined | JNull => []
                       | _ => toString x
                       end) xs)
  | JObject _ => lit "[object Object]"
  end.

(** [o[key]] on an object: the property, or [undefined]. *)
Fixpoint getProp (o : object) (key : jsstring) : jsval :=
  match o with
  | [] => JUndefined
  | (k, v) :: o' => if eqb k key then v else getProp o' key
  end.

(** [Object.keys(o)] *)
Definition keys (o : object) : list jsstring := map fst o.

(** [o.hasOwnProperty(key)] *)
Definition hasOwn (o : object) (key : jsstring) : bool := existsb (eqb key) (keys o).

(** The value of a property the object has is replaced where it stands. *)
Fixpoint replaceProp (o : object) (key : jsstring) (v : jsval) : object :=
  match o with
  | [] => []
  | (k, w) :: o' => if eqb k key then (k, v) :: o' else (k, w) :: replaceProp o' key v
  end.

(** A new property whose key is the array index [n] is enumerated after the
    array indices below [n] and before every other property. *)
Fixpoint insertIndexed (o : object) (n : N) (key : jsstring) (v : jsval) : object :=
  match o with
  | [] => [(key, v)]
  | (k, w) :: o' =>
      match arrayIndex k with
      | Some m => if m <? n then (k, w) :: insertIndexed o' n key v else (key, v) :: o
      | None => (key, v) :: o
      end
  end.

(** [o[key] = v]: an existing property keeps its place; a new one is
    enumerated last, unless its key is an array index: the array indices come
    first, in ascending order. *)
Definition setProp (o : object) (key : jsstring) (v : jsval) : object :=
  if hasOwn o key then replaceProp o key v
  else match arrayIndex key with
       | Some n => insertIndexed o n key v
       | None => o ++ [(key, v)]
       end.

(** [Object.assign(target, source)] *)
Definition assign (target source : object) : object :=
  fold_left (fun acc kv => setProp acc (fst kv) (snd kv)) source target.

(** An error object: its message and, for file-system errors, its code. *)
Record JsError : Type := mkError { message : jsstring; code : option jsstring }.

Definition Error (msg : jsstring) : JsError := mkError msg None.

(** How a promise built around callbacks ends: resolved, rejected, or
    never settled because a callback threw. *)
Inductive Outcome (A : Type) : Type :=
  | Resolved (a : A)
  | Rejected (e : JsError)
  | Uncaught (e : JsError).
Arguments Resolved {A} a.
Arguments Rejected {A} e.
Arguments Uncaught {A} e.

End JS.

(** ** fileLoader.ts *)

Module FileLoader.
Import JS.

Inductive FileType : Type := csv | tsv | parquet | excel | json | xml.

Record PageData : Type := mkPage {
  columns : list jsstring;
  rows : list (list jsval);
  offset : number;
  limit : number;
  total : jsval
}.

(** What the loaders are given by their host: [path] and [fs] of Node, the
    spreadsheet, markup and delimited-text libraries, [JSON.stringify], and
    the embedded query engine.  [Disk] is the state of the file system;
    [memory d] is a new in-memory database opened while the disk is [d],
    and [diskOf] the disk as the engine left it.  Every operation that can
    change a file is a function on [Disk]. *)
Class Host : Type := {
  Disk : Type;
  extname : jsstring -> jsstring;
  resolve : jsstring -> jsstring;
  readFileSync : Disk -> jsstring -> JsError + jsstring;
  writeFileSync : Disk -> jsstring -> jsstring -> JsError + Disk;
  (** the rows [eachRow] visits in the first worksheet, each one
      [row.values.slice(1)]: a cell without a value is a hole of the row *)
  readWorksheet : Disk -> jsstring -> JsError + list (sparse jsval);
  (** a workbook of one sheet with these rows, written to the path *)
  writeWorkbook : Disk -> jsstring -> list (list jsval) -> JsError + Disk;
  (** [new XMLParser({...}).parse(text)] *)
  xmlParse : jsstring -> JsError + object;
  (** [Papa.unparse(rows, { fields: columns, delimiter: delim })] *)
  unparseRows : list (list jsval) -> list jsstring -> jsstring -> jsstring;
  (** [Papa.unparse({ fields, data })] *)
  unparseTable : list jsstring -> list (list jsval) -> jsstring;
  (** [JSON.stringify(v, null, 2)] *)
  stringify : jsval -> jsstring;
  DB : Type;
  memory : Disk -> DB;
  diskOf : DB -> Disk;
  con_run : DB -> jsstring -> option JsError * DB;
  con_all : DB -> jsstring -> (JsError + list object) * DB
}.

Section Loaders.
Context `{host : Host}.

(** A connection together with the statements issued on it so far. *)
Record Session : Type := mkSession { db : DB; issued : list jsstring }.

(** [new duckdb.Database(':memory:')] and [db.connect()] *)
Definition connect (d : Disk) : Session := mkSession (memory d) [].

(** [con.run(q, callback)]: the error given to the callback, if any. *)
Definition run (s : Session) (q : jsstring) : option JsError * Session :=
  let (r, db') := con_run (db s) q in (r, mkSession db' (issued s ++ [q])).

(** [con.all(q, callback)]: the error or the rows given to the callback. *)
Definition all (s : Session) (q : jsstring) : (JsError + list object) * Session :=
  let (r, db') := con_all (db s) q in (r, mkSession db' (issued s ++ [q])).

Definition detectFileType (filePath : jsstring) : FileType :=
  let ext := toLowerCase (extname filePath) in
  if eqb ext (lit ".csv") then csv
  else if eqb ext (lit ".tsv") then tsv
  else if eqb ext (lit ".parquet") || eqb ext (lit ".pq") then parquet
  else if eqb ext (lit ".xlsx") || eqb ext (lit ".xls") then excel
  else if eqb ext (lit ".json") then json
  else if eqb ext (lit ".xml") then xml
  else csv.

Definition sanitizeColumnName (name : jsstring) : jsstring :=
  replaceWhiteSpaceRuns (lit "_") name.

(** [sanitizeColumnName] applied to an arbitrary value, as [map] does on an
    array that is not known to hold strings: anything but a string has no
    [replace] method. *)
Definition sanitizeValue (v : jsval) : JsError + jsstring :=
  match v with
  | JString s => inr (sanitizeColumnName s)
  | JUndefined => inl (Error (lit "Cannot read properties of undefined (reading 'replace')"))
  | JNull => inl (Error (lit "Cannot read properties of null (reading 'replace')"))
  | _ => inl (Error (lit "name.replace is not a function"))
  end.

Fixpoint sanitizeValues (vs : list jsval) : JsError + list jsstring :=
  match vs with
  | [] => inr []
  | v :: vs' =>
      match sanitizeValue v with
      | inl e => inl e
      | inr c =>
          match sanitizeValues vs' with
          | inl e => inl e
          | inr cs => inr (c :: cs)
          end
      end
  end.

(** [rawColumns.map(sanitizeColumnName)] on a row of a worksheet: the holes
    of the row are skipped and stay holes. *)
Fixpoint sanitizeSparse (vs : sparse jsval) : JsError + sparse jsstring :=
  match vs with
  | [] => inr []
  | None :: vs' =>
      match sanitizeSparse vs' with
      | inl e => inl e
      | inr cs => inr (None :: cs)
      end
  | Some v :: vs' =>
      match sanitizeValue v with
      | inl e => inl e
      | inr c =>
          match sanitizeSparse vs' with
          | inl e => inl e
          | inr cs => inr (Some c :: cs)
          end
      end
  end.

(** The condition [s && s.trim()] on an optional string argument. *)
Definition provided (s : option jsstring) : bool :=
  match s with
  | None => false
  | Some t => truthy (JString t) && truthy (JString (trim t))
  end.

Definition dq : jsstring := [34].

(** [sql.replace(/\s+/g, ' ').trim()] *)
Definition customQuery (sql : jsstring) : jsstring :=
  trim (replaceWhiteSpaceRuns (lit " ") sql).

(** [search.trim().replace(/'/g, "''")] *)
Definition needleOf (search : jsstring) : jsstring := doubleQuotes (trim search).

Definition pageClause (offset limit : number) : jsstring :=
  lit " LIMIT " ++ numberToString limit ++ lit " OFFSET " ++ numberToString offset.

(** [SELECT * FROM data LIMIT ${limit} OFFSET ${offset}] *)
Definition plainQuery (offset limit : number) : jsstring :=
  lit "SELECT * FROM data" ++ pageClause offset limit.

(** [SELECT * FROM data WHERE ${conditions} LIMIT ${limit} OFFSET ${offset}];
    [ident] writes a column in a condition: bare in [loadWithDuckDB],
    between double quotes in the staged loaders.  The conditions are
    [columns.map(col => ...).join(' OR ')]; the columns of a worksheet can
    have holes. *)
Definition searchQuery (ident : jsstring -> jsstring) (columns : sparse jsstring)
    (search : jsstring) (offset limit : number) : jsstring :=
  let needle := needleOf search in
  let conditions :=
    joinSparse (lit " OR ")
      (mapSparse (fun col => ident col ++ lit " LIKE '%" ++ needle ++ lit "%'") columns) in
  lit "SELECT * FROM data WHERE " ++ conditions ++ pageClause offset limit.

Definition bare (col : jsstring) : jsstring := col.
Definition quoted (col : jsstring) : jsstring := dq ++ col ++ dq.

Definition countQuery : jsstring := lit "SELECT COUNT(*) as total FROM data".
Definition describeQuery : jsstring := lit "DESCRIBE data".

(** [typeof countRows[0].total === 'bigint' ? Number(countRows[0].total)
    : countRows[0].total]; [countRows[0]] is [undefined] on an empty array
    and reading a property of it throws. *)
Definition totalOf (countRows : list object) : JsError + jsval :=
  match countRows with
  | [] => inl (Error (lit "Cannot read properties of undefined (reading 'total')"))
  | r :: _ =>
      inr (match getProp r (lit "total") with
           | JBigInt z => JNumber (numberOfBigInt z)
           | v => v
           end)
  end.

(** The value one cell of the page gets. *)
Definition normalizeValue (value : jsval) : jsval :=
  match value with
  | JBigInt z => JString (decimal z)
  | _ => value
  end.

(** [dataRows.map(row => cols.map(col => ...))] of [returnData]. *)
Definition processRows (cols : list jsstring) (dataRows : list object) : list (list jsval) :=
  map (fun row => map (fun col => normalizeValue (getProp row col)) cols) dataRows.

Definition returnData (offset limit : number) (total : jsval)
    (cols : list jsstring) (dataRows : list object) : PageData :=
  mkPage cols (processRows cols dataRows) offset limit total.

(** The part of the three loaders after the data statement has answered
    with [rows]: the columns are the keys of the first row; without a row
    the statement is issued again with [ LIMIT 0] appended. *)
Definition shapeResult (s : Session) (query : jsstring) (offset limit : number)
    (total : jsval) (rows : list object) : Outcome PageData * Session :=
  match rows with
  | first :: _ =>
      (Resolved (returnData offset limit total (map sanitizeColumnName (keys first)) rows), s)
  | [] =>
      match all s (query ++ lit " LIMIT 0") with
      | (inl err, s') => (Rejected err, s')
      | (inr emptyRows, s') =>
          let queryColumns :=
            match emptyRows with
            | e :: _ => map sanitizeColumnName (keys e)
            | [] => []
            end in
          (Resolved (returnData offset limit total queryColumns rows), s')
      end
  end.

(** The columns of the page [p] reached from the answer [rows] to [query]
    in session [s]: with a row, its sanitized keys and no further statement;
    without one, [query] with [ LIMIT 0] appended is issued next and the
    columns are the sanitized keys of its first row, or none. *)
Definition columnsFromAnswer (s : Session) (query : jsstring) (rows : list object)
    (p : PageData) (s' : Session) : Prop :=
  match rows with
  | first :: _ => columns p = map sanitizeColumnName (keys first) /\ s' = s
  | [] =>
      exists emptyRows,
        all s (query ++ lit " LIMIT 0") = (inr emptyRows, s')
        /\ columns p = match emptyRows with
                       | e :: _ => map sanitizeColumnName (keys e)
                       | [] => []
                       end
  end.

(** *** loadWithDuckDB *)

Definition registerQuery (filePath : jsstring) : jsstring :=
  let absPath := doubleQuotes (slashes (resolve filePath)) in
  let ext := toLowerCase (extname filePath) in
  if eqb ext (lit ".csv")
  then lit "CREATE TABLE data AS SELECT * FROM read_csv('" ++ absPath ++ lit "', delim = ',')"
  else if eqb ext (lit ".tsv")
  then lit "CREATE TABLE data AS SELECT * FROM read_csv('" ++ absPath
         ++ lit "', delim = '" ++ [9] ++ lit "')"
  else if eqb ext (lit ".parquet") || eqb ext (lit ".pq")
  then lit "CREATE TABLE data AS SELECT * FROM parquet_scan('" ++ absPath ++ lit "')"
  else if eqb ext (lit ".json")
  then lit "CREATE TABLE data AS SELECT * FROM read_json('" ++ absPath ++ lit "')"
  else lit "CREATE TABLE data AS SELECT * FROM read_csv_auto('" ++ absPath ++ lit "')".

(** [colRows.map(row => row.column_name).map(sanitizeColumnName)] *)
Definition describedColumns (colRows : list object) : JsError + list jsstring :=
  sanitizeValues (map (fun row => getProp row (lit "column_name")) colRows).

(** [executeQuery] of [loadWithDuckDB]. *)
Definition executeQuery (s : Session) (query : jsstring) (offset limit : number)
    : Outcome PageData * Session :=
  match all s countQuery with
  | (inl err, s1) => (Rejected err, s1)
  | (inr countRows, s1) =>
      match totalOf countRows with
      | inl e => (Uncaught e, s1)
      | inr total =>
          match all s1 describeQuery with
          | (inl err, s2) => (Rejected err, s2)
          | (inr colRows, s2) =>
              match describedColumns colRows with
              | inl e => (Uncaught e, s2)
              | inr _ =>
                  match all s2 query with
                  | (inl err, s3) => (Rejected err, s3)
                  | (inr rows, s3) => shapeResult s3 query offset limit total rows
                  end
              end
          end
      end
  end.

(** The row count that is only logged after the table is created; what its
    callback does has no effect on the promise. *)
Definition countLogQuery : jsstring := lit "SELECT COUNT(*) as count FROM data".

(** The page of the early returns: [{ columns: [], rows: [], offset, limit,
    total: 0 }]. *)
Definition emptyPage (offset limit : number) : PageData :=
  mkPage [] [] offset limit (JNumber (NInt 0)).

(** What a loader has when it comes to query: nothing to query (it
    resolves with the empty page), a failure, or the session in which the
    table [data] was just created, with the columns the loader staged
    (none in [loadWithDuckDB], where the engine reads the file). *)
Inductive Ingested : Type :=
  | NoTable
  | IngestFailed (e : JsError) (trace : list jsstring)
  | Table (s : Session) (columns : sparse jsstring).

Definition duckdbTable (d : Disk) (filePath : jsstring) : Ingested :=
  match run (connect d) (registerQuery filePath) with
  | (Some err, s0) => IngestFailed err (issued s0)
  | (None, s0) => Table s0 []
  end.

Definition traced (r : Outcome PageData * Session) : Outcome PageData * list jsstring :=
  (fst r, issued (snd r)).

(** The statements are issued in this order on the one connection: the
    statement that reads the file, the logged count, the describe probe when
    there is a search and no SQL text, then those of [executeQuery].
    ([duckdbTable] never answers [NoTable].) *)
Definition loadWithDuckDB (d : Disk) (filePath : jsstring) (offset limit : number)
    (search sql : option jsstring) : Outcome PageData * list jsstring :=
  match duckdbTable d filePath with
  | NoTable => (Resolved (emptyPage offset limit), [])
  | IngestFailed err trace => (Rejected err, trace)
  | Table s0 _ =>
      let s1 := snd (all s0 countLogQuery) in
      if provided sql
      then traced (executeQuery s1 (customQuery (default [] sql)) offset limit)
      else if provided search
      then
        match all s1 describeQuery with
        | (inl err, s2) => (Rejected err, issued s2)
        | (inr colRows, s2) =>
            match describedColumns colRows with
            | inl e => (Uncaught e, issued s2)
            | inr columns =>
                traced (executeQuery s2
                          (searchQuery bare (dense columns) (default [] search) offset limit)
                          offset limit)
            end
        end
      else traced (executeQuery s1 (plainQuery offset limit) offset limit)
  end.

(** The statement [loadWithDuckDB] settles on, given the columns the
    describe probe answered with. *)
Definition duckdbQuery (columns : list jsstring) (offset limit : number)
    (search sql : option jsstring) : jsstring :=
  if provided sql then customQuery (default [] sql)
  else if provided search
  then searchQuery bare (dense columns) (default [] search) offset limit
  else plainQuery offset limit.

(** *** The staged loaders: loadWithExcelJS and loadWithXML

    Both create the table themselves, fill it with one INSERT and then run
    the same [runQuery]. *)

(** [CREATE TABLE data (${columns.map(col => `"${col}" VARCHAR`).join(', ')})] *)
Definition createTableQuery (columns : sparse jsstring) : jsstring :=
  lit "CREATE TABLE data ("
  ++ joinSparse (lit ", ") (mapSparse (fun col => dq ++ col ++ dq ++ lit " VARCHAR") columns)
  ++ lit ")".

(** One cell of the INSERT: [`'${String(val || '').replace(/'/g, "''")}'`] *)
Definition cellLiteral (val : jsval) : jsstring :=
  lit "'" ++ doubleQuotes (toString (or val (JString []))) ++ lit "'".

(** The cells of one row of the INSERT: [row.map(val => ...).join(', ')].
    Nothing is written for a hole of the row. *)
Definition cellsOf (row : sparse jsval) : jsstring :=
  joinSparse (lit ", ") (mapSparse cellLiteral row).

(** [INSERT INTO data VALUES ${dataRows.map(row => `(${...})`).join(', ')}] *)
Definition insertQuery (dataRows : list (sparse jsval)) : jsstring :=
  lit "INSERT INTO data VALUES "
  ++ join (lit ", ") (map (fun row => lit "(" ++ cellsOf row ++ lit ")") dataRows).

(** The statement [runQuery] settles on. *)
Definition stagedQuery (columns : sparse jsstring) (offset limit : number)
    (search sql : option jsstring) : jsstring :=
  if provided sql then customQuery (default [] sql)
  else if provided search then searchQuery quoted columns (default [] search) offset limit
  else plainQuery offset limit.

Definition runQuery (s : Session) (columns : sparse jsstring) (offset limit : number)
    (search sql : option jsstring) : Outcome PageData * Session :=
  let query := stagedQuery columns offset limit search sql in
  match all s countQuery with
  | (inl err, s1) => (Rejected err, s1)
  | (inr countRows, s1) =>
      match totalOf countRows with
      | inl e => (Uncaught e, s1)
      | inr total =>
          match all s1 query with
          | (inl err, s2) =>
              (Rejected (Error (lit "Hey! Dude please enter correct SQL..")), s2)
          | (inr rows, s2) => shapeResult s2 query offset limit total rows
          end
      end
  end.

(** From [new duckdb.Database] to the call of [runQuery]. *)
Definition stageTable (d : Disk) (columns : sparse jsstring) (dataRows : list (sparse jsval))
    : Ingested :=
  match run (connect d) (createTableQuery columns) with
  | (Some err, s0) => IngestFailed err (issued s0)
  | (None, s0) =>
      match dataRows with
      | [] => Table s0 columns
      | _ :: _ =>
          match run s0 (insertQuery dataRows) with
          | (Some err, s1) => IngestFailed err (issued s1)
          | (None, s1) => Table s1 columns
          end
      end
  end.

(** What both staged loaders do once the table is there. *)
Definition queryStaged (t : Ingested) (offset limit : number)
    (search sql : option jsstring) : Outcome PageData * list jsstring :=
  match t with
  | NoTable => (Resolved (emptyPage offset limit), [])
  | IngestFailed err trace => (Rejected err, trace)
  | Table s columns => traced (runQuery s columns offset limit search sql)
  end.

Definition excelTable (d : Disk) (filePath : jsstring) : Ingested :=
  match readWorksheet d filePath with
  | inl e => IngestFailed e []
  | inr [] => NoTable
  | inr (rawColumns :: dataRows) =>
      match sanitizeSparse rawColumns with
      | inl e => IngestFailed e []
      | inr columns => stageTable d columns dataRows
      end
  end.

Definition loadWithExcelJS (d : Disk) (filePath : jsstring) (offset limit : number)
    (search sql : option jsstring) : Outcome PageData * list jsstring :=
  queryStaged (excelTable d filePath) offset limit search sql.

(** [flattenObject].  [for (key in obj)] visits the properties of an
    object, the indices of an array and the indices of a string; only a
    property that is an object, not [null] and not an array is descended
    into. *)
Definition joinKey (prefix key : jsstring) : jsstring :=
  if truthy (JString prefix) then prefix ++ lit "_" ++ key else key.

Fixpoint flattenObject (obj : jsval) (prefix : jsstring) {struct obj} : object :=
  match obj with
  | JObject props =>
      (fix each (ps : list (jsstring * jsval)) (result : object) {struct ps} : object :=
         match ps with
         | [] => result
         | (key, v) :: ps' =>
             match v with
             | JObject _ => each ps' (assign result (flattenObject v (joinKey prefix key)))
             | _ => each ps' (setProp result (joinKey prefix key) v)
             end
         end) props []
  | JArray xs =>
      (fix each (vs : list jsval) (index : N) (result : object) {struct vs} : object :=
         match vs with
         | [] => result
         | v :: vs' =>
             match v with
             | JObject _ =>
                 each vs' (index + 1)
                   (assign result (flattenObject v (joinKey prefix (decimalN index))))
             | _ => each vs' (index + 1) (setProp result (joinKey prefix (decimalN index)) v)
             end
         end) xs 0 []
  | JString s =>
      (fix each (cs : jsstring) (index : N) (result : object) {struct cs} : object :=
         match cs with
         | [] => result
         | c :: cs' =>
             each cs' (index + 1) (setProp result (joinKey prefix (decimalN index)) (JString [c]))
         end) s 0 []
  | _ => []
  end.

(** The items of the parsed document: the root when it is an array, else
    the first array among the properties of the root, else the root alone.
    [Object.keys] throws on [null] and [undefined]. *)
Definition findItems (rootObj : jsval) : JsError + list jsval :=
  match rootObj with
  | JArray items => inr items
  | JObject props =>
      match find (fun kv => isArray (snd kv)) props with
      | Some (arrayKey, JArray items) =>
          if truthy (JString arrayKey) then inr items else inr [rootObj]
      | _ => inr [rootObj]
      end
  | JUndefined | JNull =>
      inl (Error (lit "Cannot convert undefined or null to object"))
  | _ => inr [rootObj]
  end.

(** The keys of all the items, each once, in the order they are first met
    (the order of a [Set]). *)
Definition addKey (acc : list jsstring) (key : jsstring) : list jsstring :=
  if existsb (eqb key) acc then acc else acc ++ [key].

Definition allKeys (flattenedItems : list object) : list jsstring :=
  fold_left (fun acc item => fold_left addKey (keys item) acc) flattenedItems [].

(** [flattenedItems.map(item => columns.map(col => item[col] || ''))] *)
Definition xmlDataRows (columns : list jsstring) (flattenedItems : list object)
    : list (list jsval) :=
  map (fun item => map (fun col => or (getProp item col) (JString [])) columns) flattenedItems.

Definition xmlTable (d : Disk) (filePath : jsstring) : Ingested :=
  match readFileSync d filePath with
  | inl e => IngestFailed e []
  | inr xmlData =>
      match xmlParse xmlData with
      | inl e => IngestFailed e []
      | inr parsed =>
          match filter (fun key => negb (startsWith (lit "?") key)) (keys parsed) with
          | [] => NoTable
          | rootKey :: _ =>
              match findItems (getProp parsed rootKey) with
              | inl e => IngestFailed e []
              | inr [] => NoTable
              | inr (item0 :: rest) =>
                  if negb (typeofObject item0) then NoTable
                  else
                    let flattenedItems :=
                      map (fun item => flattenObject item []) (item0 :: rest) in
                    let columns := map sanitizeColumnName (allKeys flattenedItems) in
                    stageTable d (dense columns)
                      (map dense (xmlDataRows columns flattenedItems))
              end
          end
      end
  end.

Definition loadWithXML (d : Disk) (filePath : jsstring) (offset limit : number)
    (search sql : option jsstring) : Outcome PageData * list jsstring :=
  queryStaged (xmlTable d filePath) offset limit search sql.

(** *** loadFileData, exportData, saveFileData *)

Definition loadFileData (d : Disk) (filePath : jsstring) (offset limit : number)
    (search sql : option jsstring) : Outcome PageData * list jsstring :=
  match detectFileType filePath with
  | excel => loadWithExcelJS d filePath offset limit search sql
  | xml => loadWithXML d filePath offset limit search sql
  | _ => loadWithDuckDB d filePath offset limit search sql
  end.

(** The table a load of the file queries. *)
Definition ingestFile (d : Disk) (filePath : jsstring) : Ingested :=
  match detectFileType filePath with
  | excel => excelTable d filePath
  | xml => xmlTable d filePath
  | _ => duckdbTable d filePath
  end.

Definition exportData (d : Disk) (filePath outPath : jsstring)
    (search sql : option jsstring) : Outcome unit * Disk :=
  match fst (loadFileData d filePath (NInt 0) MAX_SAFE_INTEGER search sql) with
  | Resolved data =>
      match writeFileSync d outPath (unparseTable (columns data) (rows data)) with
      | inl e => (Rejected e, d)
      | inr d' => (Resolved tt, d')
      end
  | Rejected e => (Rejected e, d)
  | Uncaught e => (Uncaught e, d)
  end.

(** One record of the JSON output: [columns.forEach((col, index) =>
    obj[col] = row[index])]. *)
Definition recordOf (columns : list jsstring) (row : list jsval) : object :=
  fold_left (fun obj ci => setProp obj (snd ci) (nth (fst ci) row JUndefined))
    (combine (seq 0 (length columns)) columns) [].

Definition copyQuery (filePath : jsstring) : jsstring :=
  lit "COPY data TO '" ++ doubleQuotes (slashes (resolve filePath)) ++ lit "' (FORMAT PARQUET)".

Definition saveDelimited (d : Disk) (filePath : jsstring) (columns : list jsstring)
    (rows : list (list jsval)) (delim : jsstring) : Outcome unit * Disk :=
  match writeFileSync d filePath (unparseRows rows columns delim) with
  | inl e => (Rejected e, d)
  | inr d' => (Resolved tt, d')
  end.

Definition saveFileData (d : Disk) (filePath : jsstring) (columns : list jsstring)
    (rows : list (list jsval)) : Outcome unit * Disk :=
  match detectFileType filePath with
  | csv => saveDelimited d filePath columns rows (lit ",")
  | tsv => saveDelimited d filePath columns rows [9]
  | excel =>
      match writeWorkbook d filePath (map JString columns :: rows) with
      | inl e => (Rejected e, d)
      | inr d' => (Resolved tt, d')
      end
  | parquet =>
      match run (connect d) (createTableQuery (dense columns)) with
      | (Some err, s0) => (Rejected err, diskOf (db s0))
      | (None, s0) =>
          match rows with
          | _ :: _ =>
              match run s0 (insertQuery (map dense rows)) with
              | (Some err, s1) => (Rejected err, diskOf (db s1))
              | (None, s1) =>
                  match run s1 (copyQuery filePath) with
                  | (Some err, s2) => (Rejected err, diskOf (db s2))
                  | (None, s2) => (Resolved tt, diskOf (db s2))
                  end
              end
          | [] =>
              match run s0 (copyQuery filePath) with
              | (Some err, s2) => (Rejected err, diskOf (db s2))
              | (None, s2) => (Resolved tt, diskOf (db s2))
              end
          end
      end
  | json =>
      let jsonData := JArray (map (fun row => JObject (recordOf columns row)) rows) in
      match writeFileSync d filePath (stringify jsonData) with
      | inl e => (Rejected e, d)
      | inr d' => (Resolved tt, d')
      end
  | xml => (Rejected (Error (lit "Unsupported file type for saving")), d)
  end.

(** *** Vocabulary of the properties *)




(** The engine leaves the database as it is when it answers [q]. *)
Definition readOnly (q : jsstring) : Prop := forall base : DB, snd (con_all base q) = base.

(** The answer to [countQuery] over a database, as the number the loaders
    make of it. *)
Definition countOver (base : DB) : option jsval :=
  match con_all base countQuery with
  | (inr countRows, _) =>
      match totalOf countRows with
      | inr t => Some t
      | inl _ => None
      end
  | (inl _, _) => None
  end.

(** The engine answers the statement [query] with at most [n] rows,
    whatever the database holds. *)
Definition answersAtMost (query : jsstring) (n : Z) : Prop :=
  forall (base : DB) rows base',
    con_all base query = (inr rows, base') -> (Z.of_nat (length rows) <= n)%Z.



(** The statement a load settles on: the SQL text when it is given, else
    the search over [columns] when the search text is given, else the plain
    page. *)
Definition chosenQuery (ident : jsstring -> jsstring) (columns : sparse jsstring)
    (offset limit : number) (search sql : option jsstring) : jsstring :=
  if provided sql then customQuery (default [] sql)
  else if provided search then searchQuery ident columns (default [] search) offset limit
  else plainQuery offset limit.

End Loaders.
End FileLoader.

(** ** extension.ts: the retry helper and the finalisation of a save *)

Module Extension.
Import JS.

(** [err.code === 'EBUSY' || err.code === 'EPERM' || err.code === 'EACCES'] *)
Definition lockCode (err : JsError) : bool :=
  match code err with
  | Some c => eqb c (lit "EBUSY") || eqb c (lit "EPERM") || eqb c (lit "EACCES")
  | None => false
  end.

Section Retry.
Context {W : Type}.

(** [operation] changes the world and either fulfils or throws; [onRetry]
    is the optional logging callback. *)
Variable operation : W -> option JsError * W.
Variable onRetry : option (Z -> JsError -> W -> W).

(** The loop of [withRetry] from [attempt] on, with [fuel] iterations left
    before [attempt <= maxAttempts] fails.  The answer is the error thrown,
    if any, the world, and the delays waited, in milliseconds. *)
Fixpoint retryLoop (fuel : nat) (attempt maxAttempts delayMs : Z) (w : W)
    : option JsError * W * list Z :=
  match fuel with
  | O => (None, w, [])
  | S fuel' =>
      match operation w with
      | (None, w1) => (None, w1, [])
      | (Some err, w1) =>
          if (attempt =? maxAttempts)%Z || negb (lockCode err)
          then (Some err, w1, [])
          else
            let w2 := match onRetry with
                      | Some log => log attempt err w1
                      | None => w1
                      end in
            let delay := (delayMs * 2 ^ (attempt - 1))%Z in
            let '(r, w3, delays) := retryLoop fuel' (attempt + 1)%Z maxAttempts delayMs w2 in
            (r, w3, delay :: delays)
      end
  end.

Definition withRetry (maxAttempts delayMs : Z) (w : W) : option JsError * W * list Z :=
  retryLoop (Z.to_nat maxAttempts) 1%Z maxAttempts delayMs w.

End Retry.

Definition defaultMaxAttempts : Z := 10.
Definition defaultDelayMs : Z := 500.

(** What the handler tells the webview and the user. *)
Inductive Posted : Type :=
  | PostError (text : jsstring)
  | Information (text : jsstring)
  | SaveComplete.

(** The world of the [finalizeSave] message: the files, what the next
    attempts to open a file for update will fail with ([None]: the attempt
    succeeds), what the next rename will fail with, whether the panel of the
    editor has been disposed, the messages that reached the webview and the
    user, and the table held by the document. *)
Record World : Type := mkWorld {
  files : gmap jsstring jsstring;
  openFaults : list (option JsError);
  renameFault : option JsError;
  isDisposed : bool;
  posted : list Posted;
  document : list jsstring * list (list jsval)
}.

(** [postError] and [postMessage]: nothing is posted once the panel is
    disposed. *)
Definition post (p : Posted) (w : World) : World :=
  if isDisposed w then w
  else mkWorld (files w) (openFaults w) (renameFault w) (isDisposed w) (posted w ++ [p])
         (document w).

(** [vscode.window.showInformationMessage(text)] *)
Definition inform (text : jsstring) (w : World) : World :=
  mkWorld (files w) (openFaults w) (renameFault w) (isDisposed w)
    (posted w ++ [Information text]) (document w).

(** The messages of [msgs] that reach the webview. *)
Definition delivered (w : World) (msgs : list Posted) : list Posted :=
  if isDisposed w then [] else msgs.

(** The error of Node for a path that names no file. *)
Definition noSuchFile (path : jsstring) : JsError :=
  mkError (lit "ENOENT: no such file or directory, open '" ++ path ++ lit "'")
    (Some (lit "ENOENT")).

(** [fs.promises.open(path, 'r+')] followed by [close]. *)
Definition openForUpdate (path : jsstring) (w : World) : option JsError * World :=
  match files w !! path with
  | None =>
      (Some (noSuchFile path), w)
  | Some _ =>
      match openFaults w with
      | [] => (None, w)
      | fault :: later =>
          (fault, mkWorld (files w) later (renameFault w) (isDisposed w) (posted w)
                    (document w))
      end
  end.

(** [isFileLocked]: [true] on a lock code, the error thrown on another. *)
Definition isFileLocked (path : jsstring) (w : World) : (JsError + bool) * World :=
  match openForUpdate path w with
  | (None, w') => (inr false, w')
  | (Some err, w') => if lockCode err then (inr true, w') else (inl err, w')
  end.

(** [vscode.workspace.fs.rename(from, to, { overwrite: true })] *)
Definition rename (from to : jsstring) (w : World) : option JsError * World :=
  match renameFault w with
  | Some err => (Some err, w)
  | None =>
      match files w !! from with
      | None => (Some (mkError (lit "EntryNotFound (FileSystemError)") (Some (lit "FileNotFound"))), w)
      | Some bytes =>
          (None, mkWorld (<[to := bytes]> (delete from (files w))) (openFaults w) None
                   (isDisposed w) (posted w) (document w))
      end
  end.

(** The [finalizeSave] message.  It is not typed: [msgTable] is what
    [document.makeEdit(msg.columns, msg.rows)] does with its [columns] and
    [rows], the table it copies them into or the error it throws when they
    cannot be iterated. *)
Record FinalizeSave : Type := mkFinalize {
  tempFile : option jsstring;
  msgTable : JsError + (list jsstring * list (list jsval))
}.

(** [postError(err.message || fallback)] *)
Definition postFailure (err : JsError) (fallback : jsstring) : World -> World :=
  post (PostError (if truthy (JString (message err)) then message err else fallback)).

(** The [finalizeSave] branch of [messageHandler], for the document at
    [filePath]. *)
Definition finalizeSave (filePath : jsstring) (msg : FinalizeSave) (w : World) : World :=
  match tempFile msg with
  | None => post (PostError (lit "No pending save to finalize.")) w
  | Some tempFilePath =>
      if negb (truthy (JString tempFilePath))
      then post (PostError (lit "No pending save to finalize.")) w
      else
        match files w !! tempFilePath with
        | None => post (PostError (lit "Temp file no longer exists.")) w
        | Some _ =>
            match isFileLocked filePath w with
            | (inl err, w1) => postFailure err (lit "Failed to finalize save.") w1
            | (inr true, w1) =>
                post (PostError (lit "File is still locked. Please close it in the other program and try again.")) w1
            | (inr false, w1) =>
                match rename tempFilePath filePath w1 with
                | (Some err, w2) => postFailure err (lit "Failed to finalize save.") w2
                | (None, w2) =>
                    match msgTable msg with
                    | inl err => postFailure err (lit "Failed to finalize save.") w2
                    | inr table =>
                        let w3 := mkWorld (files w2) (openFaults w2) (renameFault w2)
                                    (isDisposed w2) (posted w2) table in
                        post SaveComplete (inform (lit "File saved successfully.") w3)
                    end
                end
            end
        end
  end.

End Extension.

(** ** A host to run the loaders on

    Node's POSIX [path.extname], a disk that lists paths with their
    contents, and a query engine that answers from a script, the way a
    test double of the engine does. *)

Module Sample.
Import JS FileLoader.

(** The scan of [path.posix.extname], from the last code unit to the
    first. *)
Record ExtScan : Type := mkScan {
  startDot : Z;
  startPart : Z;
  endAt : Z;
  matchedSlash : bool;
  preDotState : Z;
  stopped : bool
}.

Definition extStep (st : ExtScan) (ic : Z * N) : ExtScan :=
  let (i, c) := ic in
  if stopped st then st
  else if c =? chr "/" then
    if negb (matchedSlash st)
    then mkScan (startDot st) (i + 1) (endAt st) (matchedSlash st) (preDotState st) true
    else st
  else
    let st1 :=
      if (endAt st =? -1)%Z
      then mkScan (startDot st) (startPart st) (i + 1) false (preDotState st) false
      else st in
    if c =? chr "." then
      if (startDot st1 =? -1)%Z
      then mkScan i (startPart st1) (endAt st1) (matchedSlash st1) (preDotState st1) false
      else if negb (preDotState st1 =? 1)%Z
      then mkScan (startDot st1) (startPart st1) (endAt st1) (matchedSlash st1) 1 false
      else st1
    else if negb (startDot st1 =? -1)%Z
    then mkScan (startDot st1) (startPart st1) (endAt st1) (matchedSlash st1) (-1) false
    else st1.

Definition indexed (s : jsstring) : list (Z * N) :=
  combine (map Z.of_nat (seq 0 (length s))) s.

Definition posixExtname (path : jsstring) : jsstring :=
  let st := fold_left extStep (rev (indexed path)) (mkScan (-1) 0 (-1) true 0 false) in
  if (startDot st =? -1)%Z || (endAt st =? -1)%Z || (preDotState st =? 0)%Z
     || ((preDotState st =? 1)%Z && (startDot st =? endAt st - 1)%Z
         && (startDot st =? startPart st + 1)%Z)
  then []
  else firstn (Z.to_nat (endAt st - startDot st)) (skipn (Z.to_nat (startDot st)) path).

Fixpoint answerOf (script : list (jsstring * list object)) (q : jsstring)
    : option (list object) :=
  match script with
  | [] => None
  | (statement, answer) :: script' =>
      if eqb statement q then Some answer else answerOf script' q
  end.

(** The disk of the sample host lists the files, the last written first. *)
Fixpoint textAt (d : list (jsstring * jsstring)) (path : jsstring) : option jsstring :=
  match d with
  | [] => None
  | (p, text) :: d' => if eqb p path then Some text else textAt d' path
  end.

(** The engine answers a query that is in the script with the rows written
    there and rejects any other; it accepts every statement given to [run].
    Paths are absolute and normalised, so that [path.resolve] leaves them as
    they are; writing a file always succeeds; there is no spreadsheet and no
    markup library, and delimited text is written without quoting. *)
Definition scripted (script : list (jsstring * list object)) : Host := {|
  Disk := list (jsstring * jsstring);
  extname := posixExtname;
  resolve := fun p => p;
  readFileSync := fun d p =>
    match textAt d p with Some text => inr text | None => inl (Extension.noSuchFile p) end;
  writeFileSync := fun d p text => inr ((p, text) :: d);
  readWorksheet := fun _ _ => inl (Error (lit "no spreadsheet library"));
  writeWorkbook := fun _ _ _ => inl (Error (lit "no spreadsheet library"));
  xmlParse := fun _ => inl (Error (lit "no markup library"));
  unparseRows := fun rows fields delim =>
    join [10] (map (fun row => join delim (map toString row)) rows);
  unparseTable := fun fields data =>
    join [10] (map (fun row => join (lit ",") (map toString row)) (map JString fields :: data));
  stringify := toString;
  DB := list (jsstring * jsstring);
  memory := fun d => d;
  diskOf := fun d => d;
  con_run := fun db _ => (None, db);
  con_all := fun db q =>
    match answerOf script q with
    | Some answer => (inr answer, db)
    | None => (inl (Error (lit "Error: the engine rejects the statement")), db)
    end
|}.

Definition str (s : string) : jsval := JString (lit s).
Arguments str s%_string.

(** A comma file of three records and two fields, [name] and [age]; the
    engine reads [age] as a 64-bit integer. *)
Definition peopleCsv : jsstring := lit "/data/people.csv".

Definition person (name : string) (age : Z) : object :=
  [(lit "name", str name); (lit "age", JBigInt age)].
Arguments person name%_string age%_Z.

Definition people : list object := [person "Alice" 30; person "Bob" 25; person "Carol" 41].

Definition describedAs (names : list jsstring) : list object :=
  map (fun n => [(lit "column_name", JString n); (lit "column_type", str "VARCHAR")]) names.

Definition peopleScript : list (jsstring * list object) := [
  (lit "SELECT COUNT(*) as count FROM data", [[(lit "count", JBigInt 3)]]);
  (lit "SELECT COUNT(*) as total FROM data", [[(lit "total", JBigInt 3)]]);
  (lit "DESCRIBE data", describedAs [lit "name"; lit "age"]);
  (lit "SELECT * FROM data LIMIT 2 OFFSET 0", firstn 2 people);
  (lit "SELECT * FROM data", people);
  (lit "SELECT * FROM data WHERE name LIKE '%Bob%' OR age LIKE '%Bob%' LIMIT 2 OFFSET 0",
   [person "Bob" 25]);
  (lit "SELECT COUNT(*) as c FROM data", [[(lit "c", JBigInt 3)]])
].

Definition peopleHost : Host := scripted peopleScript.

(** A comma file whose first field is named [first name]: the table the
    engine creates has the columns [first name] and [age], and the engine
    rejects a statement that names a column [first_name]. *)
Definition staffCsv : jsstring := lit "/data/staff.csv".

Definition staffColumns : list jsstring := [lit "first name"; lit "age"].

Definition staffScript : list (jsstring * list object) := [
  (lit "SELECT COUNT(*) as count FROM data", [[(lit "count", JBigInt 2)]]);
  (lit "SELECT COUNT(*) as total FROM data", [[(lit "total", JBigInt 2)]]);
  (lit "DESCRIBE data", describedAs staffColumns)
].

Definition staffHost : Host := scripted staffScript.

(** The document [/data/people.csv] with a save prepared next to it, while
    another program holds the document open: the first attempt to open it
    for update fails with [EBUSY], later ones succeed. *)
Definition busy : JsError :=
  mkError (lit "EBUSY: resource busy or locked") (Some (lit "EBUSY")).

Definition peopleTmp : jsstring := lit "/data/people.csv.tmp".

Definition lockedOnce : Extension.World :=
  Extension.mkWorld
    (<[peopleTmp := lit "name,age"]> (<[peopleCsv := lit "name"]> ∅))
    [Some busy] None false [] ([], []).

Definition finalizeMsg : Extension.FinalizeSave :=
  Extension.mkFinalize (Some peopleTmp) (inr ([lit "name"; lit "age"], [])).

End Sample.

(** ** Text inside SQL string literals *)

Module SqlLiteral.
Import JS.

(** Every single quote of [s] is one of a pair of adjacent quotes, read
    from the left: the shape the body of an SQL string literal has. *)
Fixpoint quotesPaired (s : jsstring) : bool :=
  match s with
  | [] => true
  | c :: s' =>
      if c =? chr "'"
      then match s' with
           | c' :: s'' => (c' =? chr "'") && quotesPaired s''
           | [] => false
           end
      else quotesPaired s'
  end.

End SqlLiteral.

(** ** Shapes of values, of keys and of text *)

Module Shape.
Import JS FileLoader.

(** [typeof v === 'object' && v !== null && !Array.isArray(v)] *)
Definition isPlainObject (v : jsval) : bool :=
  match v with JObject _ => true | _ => false end.

(** [key] is [prefix], an underscore and something more. *)
Definition prefixed (prefix key : jsstring) : Prop :=
  exists rest, key = prefix ++ lit "_" ++ rest.

(** White space in [s] is single spaces, no two next to each other;
    [prevWhite] tells whether the code unit before [s] is white space. *)
Fixpoint spacesApart (prevWhite : bool) (s : jsstring) : bool :=
  match s with
  | [] => true
  | c :: s' =>
      if isWhiteSpace c then negb prevWhite && (c =? chr " ") && spacesApart true s'
      else spacesApart false s'
  end.

Definition startsWhite (s : jsstring) : bool :=
  match s with c :: _ => isWhiteSpace c | [] => false end.

Definition endsWhite (s : jsstring) : bool := startsWhite (rev s).

(** No white space at the ends, and inside only single spaces. *)
Definition singleSpaced (s : jsstring) : bool :=
  spacesApart false s && negb (startsWhite s) && negb (endsWhite s).

(** The leaves of a value in the order [flattenObject] visits them: each
    value that is not a plain object, under the key the path to it joins
    to.  A key can be listed more than once. *)
Fixpoint leaves (obj : jsval) (prefix : jsstring) {struct obj} : list (jsstring * jsval) :=
  match obj with
  | JObject props =>
      (fix each (ps : list (jsstring * jsval)) {struct ps} : list (jsstring * jsval) :=
         match ps with
         | [] => []
         | (key, v) :: ps' =>
             match v with
             | JObject _ => leaves v (joinKey prefix key) ++ each ps'
             | _ => (joinKey prefix key, v) :: each ps'
             end
         end) props
  | JArray xs =>
      (fix each (vs : list jsval) (index : N) {struct vs} : list (jsstring * jsval) :=
         match vs with
         | [] => []
         | v :: vs' =>
             match v with
             | JObject _ =>
                 leaves v (joinKey prefix (decimalN index)) ++ each vs' (index + 1)
             | _ => (joinKey prefix (decimalN index), v) :: each vs' (index + 1)
             end
         end) xs 0
  | JString s =>
      (fix each (cs : jsstring) (index : N) {struct cs} : list (jsstring * jsval) :=
         match cs with
         | [] => []
         | c :: cs' => (joinKey prefix (decimalN index), JString [c]) :: each cs' (index + 1)
         end) s 0
  | _ => []
  end.

(** A key that is not an array index. *)
Definition named (key : jsstring) : bool :=
  match arrayIndex key with
  | Some _ => false
  | None => true
  end.

(** The order in which an object lists its own keys: the array indices
    first, ascending from [least] on, then the other keys. *)
Fixpoint enumerated (least : N) (ks : list jsstring) : bool :=
  match ks with
  | [] => true
  | k :: ks' =>
      match arrayIndex k with
      | Some n => (least <=? n) && enumerated (n + 1) ks'
      | None => forallb named ks'
      end
  end.

Definition ownKeyOrder (ks : list jsstring) : bool := enumerated 0 ks.

(** [o] has the keys of [l], each once, and under each the value that [l]
    lists last for it. *)
Definition holdsLast (o : object) (l : list (jsstring * jsval)) : Prop :=
  List.NoDup (keys o)
  /\ forall key,
       (In key (keys o) <-> In key (keys l)) /\ getProp o key = getProp (rev l) key.

End Shape.

(** ** extension.ts: the document and the preparation of a save *)

Module Editor.
Import JS FileLoader Extension.

Section Editor.
Context `{host : Host}.

(** [workbook.xlsx.writeBuffer()] for a workbook of one sheet with these
    rows. *)
Variable writeBuffer : list (list jsval) -> JsError + jsstring.

(** [detectFileType] of extension.ts, which has no case for markup. *)
Definition detectFileType (filePath : jsstring) : FileType :=
  let ext := toLowerCase (extname filePath) in
  if eqb ext (lit ".csv") then csv
  else if eqb ext (lit ".tsv") then tsv
  else if eqb ext (lit ".parquet") || eqb ext (lit ".pq") then parquet
  else if eqb ext (lit ".xlsx") || eqb ext (lit ".xls") then excel
  else if eqb ext (lit ".json") then json
  else csv.

Record FlatFileData : Type := mkData {
  dataColumns : list jsstring;
  dataRows : list (list jsval)
}.

(** The state of a [FlatFileDocument]. *)
Record FlatFileDocument : Type := mkDocument {
  uri : jsstring;
  _data : FlatFileData;
  _edits : list FlatFileData;
  _savedEdits : nat
}.

Definition makeEdit (columns : list jsstring) (rows : list (list jsval))
    (doc : FlatFileDocument) : FlatFileDocument :=
  mkDocument (uri doc) (mkData columns rows) (_edits doc ++ [mkData columns rows])
    (_savedEdits doc).

(** [vscode.workspace.fs.writeFile(uri, bytes)] on the files of the
    workspace; [fault] is the error the write fails with, if it does.  The
    text is kept as it is given. *)
Definition writeFile (fault : option JsError) (path bytes : jsstring)
    (fs : gmap jsstring jsstring) : JsError + gmap jsstring jsstring :=
  match fault with
  | Some err => inl err
  | None => inr (<[path := bytes]> fs)
  end.

(** What [saveAs] writes for the type of the target, or the error it
    throws before writing. *)
Definition serialized (type : FileType) (data : FlatFileData) : JsError + jsstring :=
  match type with
  | csv => inr (unparseRows (dataRows data) (dataColumns data) (lit ","))
  | tsv => inr (unparseRows (dataRows data) (dataColumns data) [9])
  | excel => writeBuffer (map JString (dataColumns data) :: dataRows data)
  | parquet => inl (Error (lit "Saving Parquet files is not supported."))
  | json =>
      inr (stringify
             (JArray (map (fun row => JObject (recordOf (dataColumns data) row))
                        (dataRows data))))
  | xml => inl (Error (lit "Unsupported file type for saving"))
  end.

(** [saveAs(targetResource)]: the error thrown, if any, the document and
    the files afterwards. *)
Definition saveAs (fault : option JsError) (targetResource : jsstring)
    (doc : FlatFileDocument) (fs : gmap jsstring jsstring)
    : option JsError * FlatFileDocument * gmap jsstring jsstring :=
  match serialized (detectFileType targetResource) (_data doc) with
  | inl err => (Some err, doc, fs)
  | inr bytes =>
      match writeFile fault targetResource bytes fs with
      | inl err => (Some err, doc, fs)
      | inr fs' =>
          (None, mkDocument (uri doc) (_data doc) (_edits doc) (length (_edits doc)), fs')
      end
  end.

(** [save()] *)
Definition save (fault : option JsError) (doc : FlatFileDocument)
    (fs : gmap jsstring jsstring) :=
  saveAs fault (uri doc) doc fs.

(** [revert()]: the whole file is loaded again. *)
Definition revert (d : Disk) (doc : FlatFileDocument) : Outcome FlatFileDocument :=
  match fst (loadFileData d (uri doc) (NInt 0) MAX_SAFE_INTEGER None None) with
  | Resolved data => Resolved (mkDocument (uri doc) (mkData (columns data) (rows data)) [] 0)
  | Rejected e => Rejected e
  | Uncaught e => Uncaught e
  end.

(** The [save] branch of [messageHandler], for the document at [filePath]:
    the table is written next to the document; the answer is the temp file
    announced in [savePrepared], if the branch gets that far. *)
Definition writeTemp (fault : option JsError) (filePath : jsstring)
    (columns : list jsstring) (rows : list (list jsval)) (delim : jsstring) (w : World)
    : option jsstring * World :=
  let csvText := unparseRows rows columns delim in
  let tempFilePath := filePath ++ lit ".tmp" in
  match writeFile fault tempFilePath csvText (files w) with
  | inl err => (None, postFailure err (lit "Failed to prepare save.") w)
  | inr fs' =>
      (Some tempFilePath,
       mkWorld fs' (openFaults w) (renameFault w) (isDisposed w) (posted w) (document w))
  end.

Definition prepareSave (fault : option JsError) (filePath : jsstring)
    (columns : list jsstring) (rows : list (list jsval)) (w : World)
    : option jsstring * World :=
  match detectFileType filePath with
  | csv => writeTemp fault filePath columns rows (lit ",") w
  | tsv => writeTemp fault filePath columns rows [9] w
  | _ =>
      (None,
       postFailure (Error (lit "Shadow save is only supported for CSV and TSV files."))
         (lit "Failed to prepare save.") w)
  end.

End Editor.
End Editor.

(** ** Counting the calls and the waits of [withRetry] *)

Module Retrying.
Import JS Extension.

Section Counted.
Context {W : Type}.

(** [operation] with the number of its calls kept beside the world. *)
Definition counted (operation : W -> option JsError * W) (wc : W * nat)
    : option JsError * (W * nat) :=
  let (r, w') := operation (fst wc) in (r, (w', S (snd wc))).

(** A logging callback beside the count, which it leaves alone. *)
Definition aside (log : Z -> JsError -> W -> W) (attempt : Z) (err : JsError)
    (wc : W * nat) : W * nat :=
  (log attempt err (fst wc), snd wc).

End Counted.

(** What a run of [withRetry] does, in order: a call of the operation with
    the error it threw, if any, and a call of the logging callback. *)
Inductive Event : Type :=
  | Called (thrown : option JsError)
  | Retried (attempt : Z) (err : JsError).

Section Recorded.
Context {W : Type}.

(** [operation] writing each of its calls to a log beside the world. *)
Definition recorded (operation : W -> option JsError * W) (wl : W * list Event)
    : option JsError * (W * list Event) :=
  let (r, w') := operation (fst wl) in (r, (w', snd wl ++ [Called r])).

(** A callback that writes its call to the log and then does what
    [onRetry] does, if there is one. *)
Definition noted (onRetry : option (Z -> JsError -> W -> W)) (attempt : Z) (err : JsError)
    (wl : W * list Event) : W * list Event :=
  (match onRetry with
   | Some log => log attempt err (fst wl)
   | None => fst wl
   end,
   snd wl ++ [Retried attempt err]).

End Recorded.

(** The log of the attempts from [attempt] on that failed with [errs] and
    were retried. *)
Fixpoint retries (attempt : Z) (errs : list JsError) : list Event :=
  match errs with
  | [] => []
  | err :: errs' => Called (Some err) :: Retried attempt err :: retries (attempt + 1) errs'
  end.

(** The time waited in all, in milliseconds. *)
Definition totalWait (delays : list Z) : Z := fold_right Z.add 0%Z delays.

End Retrying.

(** ** The webview: pages of the table and the columns of the chart *)

Module Webview.
Import JS.

(** [Math.ceil(rows.length / pageSize)], for a page size that is a positive
    integer. *)
Definition totalPages (rowCount : nat) (pageSize : positive) : Z :=
  (Z.of_nat rowCount + Z.pos pageSize - 1) / Z.pos pageSize.

(** An index of [Array.prototype.slice] brought into the array: a negative
    one counts from the end. *)
Definition relativeIndex (len i : Z) : Z :=
  if (i <? 0)%Z then Z.max (len + i) 0 else Z.min i len.

(** [l.slice(start, stop)] *)
Definition slice {A : Type} (start stop : Z) (l : list A) : list A :=
  let len := Z.of_nat (length l) in
  let k := relativeIndex len start in
  let final := relativeIndex len stop in
  firstn (Z.to_nat (final - k)) (skipn (Z.to_nat k) l).

(** The rows shown on the current page. *)
Definition currentRows {A : Type} (rows : list A) (pageSize : positive) (currentPage : Z)
    : list A :=
  let startIndex := ((currentPage - 1) * Z.pos pageSize)%Z in
  let endIndex := (startIndex + Z.pos pageSize)%Z in
  slice startIndex endIndex rows.

Definition goToPage (totalPages page : Z) : Z := Z.max 1 (Z.min page totalPages).
Definition goToPrevious (prev : Z) : Z := Z.max 1 (prev - 1).
Definition goToNext (totalPages prev : Z) : Z := Z.min totalPages (prev + 1).

(** The number on the [i]-th page button. *)
Definition pageNum (totalPages currentPage i : Z) : Z :=
  if (totalPages <=? 5)%Z then i + 1
  else if (currentPage <=? 3)%Z then i + 1
  else if (totalPages - 2 <=? currentPage)%Z then totalPages - 4 + i
  else currentPage - 2 + i.

(** [Array.from({ length: Math.min(5, totalPages) }, (_, i) => pageNum)] *)
Definition pageButtons (totalPages currentPage : Z) : list Z :=
  map (fun i => pageNum totalPages currentPage (Z.of_nat i))
    (seq 0 (Z.to_nat (Z.min 5 totalPages))).

(** What [highlight] renders: the text as it is, or the text in three
    pieces with the middle one marked. *)
Inductive Rendering : Type :=
  | Plain (str : jsstring)
  | Marked (before matched after : jsstring).

Section Highlight.

(** [str.toLowerCase().indexOf(s.toLowerCase())] *)
Variable lowerIndex : jsstring -> jsstring -> Z.

Definition highlight (searchTerm : option jsstring) (text : jsval) : Rendering :=
  let s := trim (match searchTerm with Some t => t | None => [] end) in
  let str := match text with JUndefined | JNull => [] | _ => toString text end in
  if negb (truthy (JString s)) then Plain str
  else
    let idx := lowerIndex str s in
    if (idx =? -1)%Z then Plain str
    else
      let len := Z.of_nat (length str) in
      Marked (slice 0 idx str) (slice idx (idx + Z.of_nat (length s)) str)
        (slice (idx + Z.of_nat (length s)) len str).

End Highlight.

(** The text a rendering shows. *)
Definition shown (r : Rendering) : jsstring :=
  match r with
  | Plain str => str
  | Marked before matched after => before ++ matched ++ after
  end.

(** [handleColumnToggle] of the dashboard: the new selection. *)
Definition handleColumnToggle (column : jsstring) (prev : list jsstring) : list jsstring :=
  if existsb (eqb column) prev
  then List.filter (fun c => negb (eqb c column)) prev
  else prev ++ [column].

End Webview.

(** ** More values to run the code on *)

Module Fixtures.
Import JS FileLoader.

Definition order : jsval :=
  JObject [(lit "id", JNumber (NInt 7));
           (lit "customer", JObject [(lit "name", Sample.str "Ann");
                                     (lit "city", Sample.str "Oslo")]);
           (lit "tags", JArray [Sample.str "a"; Sample.str "b"])].

(** A row as the engine answers it for a file whose first field is named
    [first name]. *)
Definition staffRow : object :=
  [(lit "first name", Sample.str "Bob"); (lit "age", JBigInt 25)].

(** An item two of whose paths join to the same key. *)
Definition clash : jsval :=
  JObject [(lit "a", JObject [(lit "b", JNumber (NInt 1))]); (lit "a_b", JNumber (NInt 2))].


Definition plainRow : object :=
  [(lit "name", Sample.str "Bob"); (lit "age", JBigInt 25)].

(** An operation that finds the file busy twice and then succeeds; the
    world counts the calls. *)
Definition busyTwice (calls : nat) : option JsError * nat :=
  (if (calls <? 2)%nat then Some Sample.busy else None, S calls).

(** The sample document on disk, held by nobody, before a save is
    prepared. *)
Definition onDisk : Extension.World :=
  Extension.mkWorld (<[Sample.peopleCsv := lit "name"]> ∅) [] None false [] ([], []).

(** The same after the save of one row was prepared. *)
Definition prepared : Extension.World :=
  Extension.mkWorld
    (<[Sample.peopleTmp := lit "Bob"]> (<[Sample.peopleCsv := lit "name"]> ∅))
    [] None false [] ([], []).

(** A prepared save whose document is not on disk. *)
Definition orphaned : Extension.World :=
  Extension.mkWorld (<[Sample.peopleTmp := lit "name,age"]> ∅) [] None false [] ([], []).

(** A host like [h] whose spreadsheet library reads [sheet] from every
    file. *)
Definition withSheet (h : Host) (sheet : list (sparse jsval)) : Host := {|
  Disk := @Disk h;
  extname := @extname h;
  resolve := @resolve h;
  readFileSync := @readFileSync h;
  writeFileSync := @writeFileSync h;
  readWorksheet := fun _ _ => inr sheet;
  writeWorkbook := @writeWorkbook h;
  xmlParse := @xmlParse h;
  unparseRows := @unparseRows h;
  unparseTable := @unparseTable h;
  stringify := @stringify h;
  DB := @DB h;
  memory := @memory h;
  diskOf := @diskOf h;
  con_run := @con_run h;
  con_all := @con_all h
|}.

(** A sheet whose header holds a number. *)
Definition numberedSheet : list (sparse jsval) :=
  [dense [Sample.str "name"; JNumber (NInt 2024)]; dense [Sample.str "Bob"; JNumber (NInt 3)]].


(** A search of the sample file that matches no record. *)
Definition searchForZed : jsstring :=
  lit "SELECT * FROM data WHERE name LIKE '%Zed%' OR age LIKE '%Zed%' LIMIT 2 OFFSET 0".

Definition quietHost : Host :=
  Sample.scripted [
    (lit "SELECT COUNT(*) as count FROM data", [[(lit "count", JBigInt 3)]]);
    (lit "SELECT COUNT(*) as total FROM data", [[(lit "total", JBigInt 3)]]);
    (lit "DESCRIBE data", Sample.describedAs [lit "name"; lit "age"]);
    (searchForZed, []);
    (searchForZed ++ lit " LIMIT 0", [])
  ].

(** An operation that finds the file busy once and then gone; the world
    counts the calls. *)
Definition busyThenGone (calls : nat) : option JsError * nat :=
  (Some (if (calls <? 1)%nat then Sample.busy
         else Extension.noSuchFile Sample.peopleCsv), S calls).

(** An index of the first occurrence, for text whose letters are ASCII:
    [-1] when there is none. *)
Fixpoint indexFrom (i : Z) (needle hay : jsstring) : Z :=
  if startsWith needle hay then i
  else match hay with
       | [] => -1
       | _ :: hay' => indexFrom (i + 1) needle hay'
       end.

Definition asciiLowerIndex (str s : jsstring) : Z :=
  indexFrom 0 (toLowerCase s) (toLowerCase str).

Definition peopleDocument : Editor.FlatFileDocument :=
  Editor.mkDocument (lit "/data/people.xml")
    (Editor.mkData [lit "name"] [[Sample.str "Bob"]]) [] 0.

End Fixtures.

(** ** Properties *)

Import JS FileLoader.

(** *** Column names *)

Lemma replaceRunsFrom_solid rep inRun s :
  solid s -> replaceRunsFrom rep inRun s = s.
Proof.
  intros Hs. revert inRun.
  induction Hs as [| c s Hc _ IH]; intros inRun; simpl; [reflexivity |].
  rewrite Hc. f_equal. apply IH.
Qed.

Lemma replaceRunsFrom_is_solid rep inRun s :
  solid rep -> solid (replaceRunsFrom rep inRun s).
Proof.
  intros Hrep. revert inRun.
  induction s as [| c s IH]; intros inRun; simpl; [constructor |].
  destruct (isWhiteSpace c) eqn:Hc.
  - destruct inRun; [apply IH |].
    apply Forall_app. split; [exact Hrep | apply IH].
  - constructor; [exact Hc | apply IH].
Qed.

Lemma replaceRunsFrom_skip rep ws s :
  blank ws -> replaceRunsFrom rep true (ws ++ s) = replaceRunsFrom rep true s.
Proof.
  induction 1 as [| c ws Hc _ IH]; simpl; [reflexivity |].
  rewrite Hc. exact IH.
Qed.

Lemma replaceRunsFrom_run rep ws s :
  ws <> [] -> blank ws ->
  replaceRunsFrom rep false (ws ++ s) = rep ++ replaceRunsFrom rep true s.
Proof.
  intros Hne Hws. destruct Hws as [| c ws Hc Hws]; [congruence |].
  simpl. rewrite Hc. f_equal. apply replaceRunsFrom_skip, Hws.
Qed.

Lemma replaceRunsFrom_after_run rep s :
  startsSolid s -> replaceRunsFrom rep true s = replaceRunsFrom rep false s.
Proof.
  intros Hs. destruct s as [| c s]; [reflexivity |].
  simpl. rewrite (Hs c s eq_refl). reflexivity.
Qed.

Lemma replaceRunsFrom_app rep inRun a t :
  (a = [] -> inRun = false) -> endsSolid a ->
  replaceRunsFrom rep inRun (a ++ t) =
  replaceRunsFrom rep inRun a ++ replaceRunsFrom rep false t.
Proof.
  revert inRun. induction a as [| c a IH]; intros inRun Hnil Hend.
  - rewrite (Hnil eq_refl). reflexivity.
  - assert (Htail : endsSolid a).
    { intros s' x ->. apply (Hend (c :: s') x). reflexivity. }
    assert (Hlast : a = [] -> isWhiteSpace c = false).
    { intros ->. apply (Hend [] c). reflexivity. }
    simpl. destruct (isWhiteSpace c) eqn:Hc.
    + assert (Ha : a <> []) by (intros E; specialize (Hlast E); congruence).
      rewrite (IH true); [| intros E; contradiction | exact Htail].
      destruct inRun; [reflexivity |]. rewrite <- app_assoc. reflexivity.
    + rewrite (IH false); [reflexivity | reflexivity | exact Htail].
Qed.

(** C9.  [sanitizeColumnName] replaces every maximal run of white space by
    one underscore: a name without white space is left as it is, and a run
    of white space between a part that does not end with white space and a
    part that does not start with it becomes one underscore between the two
    parts sanitized.  It is idempotent. *)
Theorem sanitizeColumnName_runs_idempotent :
  (forall s, solid s -> sanitizeColumnName s = s)
  /\ (forall a ws b, ws <> [] -> blank ws -> endsSolid a -> startsSolid b ->
        sanitizeColumnName (a ++ ws ++ b)
        = sanitizeColumnName a ++ lit "_" ++ sanitizeColumnName b)
  /\ (forall s, sanitizeColumnName (sanitizeColumnName s) = sanitizeColumnName s).
Proof.
  unfold sanitizeColumnName, replaceWhiteSpaceRuns. repeat split.
  - intros s Hs. apply replaceRunsFrom_solid, Hs.
  - intros a ws b Hne Hws Ha Hb.
    rewrite replaceRunsFrom_app; [| reflexivity | exact Ha].
    rewrite replaceRunsFrom_run by assumption.
    rewrite replaceRunsFrom_after_run by exact Hb. reflexivity.
  - intros s. apply replaceRunsFrom_solid, replaceRunsFrom_is_solid.
    repeat constructor.
Qed.

Lemma sanitizeColumnName_runs_idempotent_witness :
  sanitizeColumnName (lit "unit price") = lit "unit_price"
  /\ sanitizeColumnName (lit "unit" ++ [32; 9; 160] ++ lit "price")
     = sanitizeColumnName (lit "unit") ++ lit "_" ++ sanitizeColumnName (lit "price").
Proof.
  split; [reflexivity |].
  apply (proj1 (proj2 sanitizeColumnName_runs_idempotent)).
  - discriminate.
  - repeat constructor.
  - intros s' c E. apply (f_equal (@rev N)) in E. rewrite rev_app_distr in E.
    simpl in E. injection E as <- _. reflexivity.
  - intros c s' E. injection E as <- _. reflexivity.
Defined.

(** *** Staged cells *)


Lemma cellLiteral_or_empty val : cellLiteral (or val (JString [])) = cellLiteral val.
Proof.
  unfold cellLiteral, or. destruct (truthy val) eqn:H; [rewrite H |]; reflexivity.
Qed.




Lemma cellsOf_dense row : cellsOf (dense row) = join (lit ", ") (map cellLiteral row).
Proof.
  unfold cellsOf, joinSparse, mapSparse, dense. rewrite !map_map. reflexivity.
Qed.






(** *** The normaliser *)



Lemma processRows_width cols dataRows :
  Forall (fun cells => length cells = length cols) (processRows cols dataRows).
Proof.
  unfold processRows. apply Forall_map, Forall_forall. intros row _.
  apply length_map.
Qed.

Lemma processRows_length cols dataRows :
  length (processRows cols dataRows) = length dataRows.
Proof. apply length_map. Qed.



(** *** Saving *)

Section Saving.
Context `{host : Host}.

Lemma detectFileType_xml filePath :
  toLowerCase (extname filePath) = lit ".xml" -> detectFileType filePath = xml.
Proof. intros H. unfold detectFileType. rewrite H. reflexivity. Qed.

(** C7.  Saving to a path whose extension is that of a markup file is
    rejected with the error for an unsupported type, and the disk is the one
    the call started from: nothing was written. *)
Theorem saveFileData_markup_rejected_disk_untouched :
  forall (d : Disk) filePath cols rows,
    toLowerCase (extname filePath) = lit ".xml" ->
    detectFileType filePath = xml
    /\ saveFileData d filePath cols rows
       = (Rejected (Error (lit "Unsupported file type for saving")), d).
Proof.
  intros d filePath cols rows H.
  pose proof (detectFileType_xml filePath H) as Hxml.
  split; [exact Hxml |]. unfold saveFileData. rewrite Hxml. reflexivity.
Qed.

End Saving.

Lemma saveFileData_markup_rejected_disk_untouched_witness :
  let d := [(lit "/data/out.XML", lit "<rows/>")] in
  @saveFileData Sample.peopleHost d (lit "/data/out.XML") [lit "name"] [[Sample.str "Bob"]]
  = (Rejected (Error (lit "Unsupported file type for saving")), d).
Proof.
  intros d.
  apply (@saveFileData_markup_rejected_disk_untouched Sample.peopleHost d
           (lit "/data/out.XML") [lit "name"] [[Sample.str "Bob"]]).
  reflexivity.
Defined.

(** *** What a resolved load went through *)

Section Resolved.
Context `{host : Host}.

Lemma shapeResult_resolved s query offset limit total rows p s' :
  shapeResult s query offset limit total rows = (Resolved p, s') ->
  p = returnData offset limit total (columns p) rows
  /\ columnsFromAnswer s query rows p s'.
Proof.
  unfold shapeResult, columnsFromAnswer. destruct rows as [| first rest].
  - destruct (all s (query ++ lit " LIMIT 0")) as [[err | emptyRows] s1] eqn:Hre;
      intros H; [discriminate |].
    injection H as <- <-. split; [reflexivity |].
    exists emptyRows. split; reflexivity.
  - intros H. injection H as <- <-. repeat split.
Qed.

Lemma runQuery_resolved s cols offset limit search sql p s' :
  runQuery s cols offset limit search sql = (Resolved p, s') ->
  exists countRows s1 rows s2,
    all s countQuery = (inr countRows, s1)
    /\ totalOf countRows = inr (total p)
    /\ all s1 (stagedQuery cols offset limit search sql) = (inr rows, s2)
    /\ shapeResult s2 (stagedQuery cols offset limit search sql) offset limit (total p) rows
       = (Resolved p, s').
Proof.
  unfold runQuery.
  destruct (all s countQuery) as [[err | countRows] s1]; [discriminate |].
  destruct (totalOf countRows) as [e | tot] eqn:Htot; [discriminate |].
  destruct (all s1 _) as [[err | rows] s2] eqn:Hq; [discriminate |].
  intros H. exists countRows, s1, rows, s2.
  destruct (shapeResult_resolved _ _ _ _ _ _ _ _ H) as [Hp _].
  assert (Ht : total p = tot) by (rewrite Hp; reflexivity).
  rewrite Ht. repeat split; try assumption.
Qed.

Lemma executeQuery_resolved s query offset limit p s' :
  executeQuery s query offset limit = (Resolved p, s') ->
  exists countRows s1 colRows s2 rows s3,
    all s countQuery = (inr countRows, s1)
    /\ totalOf countRows = inr (total p)
    /\ all s1 describeQuery = (inr colRows, s2)
    /\ all s2 query = (inr rows, s3)
    /\ shapeResult s3 query offset limit (total p) rows = (Resolved p, s').
Proof.
  unfold executeQuery.
  destruct (all s countQuery) as [[err | countRows] s1]; [discriminate |].
  destruct (totalOf countRows) as [e | tot] eqn:Htot; [discriminate |].
  destruct (all s1 describeQuery) as [[err | colRows] s2] eqn:Hd; [discriminate |].
  destruct (describedColumns colRows) as [e | cs]; [discriminate |].
  destruct (all s2 query) as [[err | rows] s3] eqn:Hq; [discriminate |].
  intros H. exists countRows, s1, colRows, s2, rows, s3.
  destruct (shapeResult_resolved _ _ _ _ _ _ _ _ H) as [Hp _].
  assert (Ht : total p = tot) by (rewrite Hp; reflexivity).
  rewrite Ht. repeat split; try assumption.
Qed.

Lemma runQuery_shapes s cols offset limit search sql countRows s1 total rows s2 :
  all s countQuery = (inr countRows, s1) -> totalOf countRows = inr total ->
  all s1 (stagedQuery cols offset limit search sql) = (inr rows, s2) ->
  runQuery s cols offset limit search sql
  = shapeResult s2 (stagedQuery cols offset limit search sql) offset limit total rows.
Proof. intros Hc Ht Hq. unfold runQuery. rewrite Hc, Ht, Hq. reflexivity. Qed.

Lemma executeQuery_shapes s query offset limit countRows s1 total colRows s2 cs rows s3 :
  all s countQuery = (inr countRows, s1) -> totalOf countRows = inr total ->
  all s1 describeQuery = (inr colRows, s2) -> describedColumns colRows = inr cs ->
  all s2 query = (inr rows, s3) ->
  executeQuery s query offset limit = shapeResult s3 query offset limit total rows.
Proof.
  intros Hc Ht Hd Hcs Hq. unfold executeQuery. rewrite Hc, Ht, Hd, Hcs, Hq. reflexivity.
Qed.

(** C3.  Once the count is in and the engine has answered the data
    statement with rows, [runQuery] of the staged loaders and [executeQuery]
    of [loadWithDuckDB] end as the shaping of that answer does.  With at
    least one row the page is resolved at once: its columns are the sanitized
    keys of the first row and nothing more is issued.  With no row the same
    statement with [ LIMIT 0] appended is issued next: the load is rejected
    with the error of the engine when it rejects that statement, and else
    resolves with the sanitized keys of the first row of the answer as
    columns, or with no column when that answer has no row either.
    Conversely, a page these functions resolve with went through the count
    and the data statement and has its columns from there. *)
Theorem columns_from_first_row_or_limit_0 :
  (forall s cols offset limit search sql p s',
      runQuery s cols offset limit search sql = (Resolved p, s') ->
      exists countRows s1 rows s2,
        all s countQuery = (inr countRows, s1)
        /\ all s1 (stagedQuery cols offset limit search sql) = (inr rows, s2)
        /\ columnsFromAnswer s2 (stagedQuery cols offset limit search sql) rows p s')
  /\ (forall s query offset limit p s',
        executeQuery s query offset limit = (Resolved p, s') ->
        exists countRows s1 colRows s2 rows s3,
          all s countQuery = (inr countRows, s1)
          /\ all s1 describeQuery = (inr colRows, s2)
          /\ all s2 query = (inr rows, s3)
          /\ columnsFromAnswer s3 query rows p s')
  /\ (forall s cols offset limit search sql countRows s1 total rows s2,
        all s countQuery = (inr countRows, s1) -> totalOf countRows = inr total ->
        all s1 (stagedQuery cols offset limit search sql) = (inr rows, s2) ->
        runQuery s cols offset limit search sql
        = shapeResult s2 (stagedQuery cols offset limit search sql) offset limit total rows)
  /\ (forall s query offset limit countRows s1 total colRows s2 cs rows s3,
        all s countQuery = (inr countRows, s1) -> totalOf countRows = inr total ->
        all s1 describeQuery = (inr colRows, s2) -> describedColumns colRows = inr cs ->
        all s2 query = (inr rows, s3) ->
        executeQuery s query offset limit = shapeResult s3 query offset limit total rows)
  /\ (forall s query offset limit total first rest,
        shapeResult s query offset limit total (first :: rest)
        = (Resolved (mkPage (map sanitizeColumnName (keys first))
                       (processRows (map sanitizeColumnName (keys first)) (first :: rest))
                       offset limit total), s))
  /\ (forall s query offset limit total,
        shapeResult s query offset limit total []
        = match all s (query ++ lit " LIMIT 0") with
          | (inl err, s') => (Rejected err, s')
          | (inr [], s') => (Resolved (mkPage [] [] offset limit total), s')
          | (inr (first :: _), s') =>
              (Resolved (mkPage (map sanitizeColumnName (keys first)) [] offset limit total),
               s')
          end).
Proof.
  split; [| split; [| split; [| split; [| split]]]].
  - intros s cols offset limit search sql p s' H.
    destruct (runQuery_resolved _ _ _ _ _ _ _ _ H)
      as (countRows & s1 & rows & s2 & Hc & _ & Hq & Hs).
    exists countRows, s1, rows, s2. repeat split; try assumption.
    apply (shapeResult_resolved _ _ _ _ _ _ _ _ Hs).
  - intros s query offset limit p s' H.
    destruct (executeQuery_resolved _ _ _ _ _ _ H)
      as (countRows & s1 & colRows & s2 & rows & s3 & Hc & _ & Hd & Hq & Hs).
    exists countRows, s1, colRows, s2, rows, s3. repeat split; try assumption.
    apply (shapeResult_resolved _ _ _ _ _ _ _ _ Hs).
  - intros s cols offset limit search sql countRows s1 total rows s2.
    apply runQuery_shapes.
  - intros s query offset limit countRows s1 total colRows s2 cs rows s3.
    apply executeQuery_shapes.
  - reflexivity.
  - intros s query offset limit total. unfold shapeResult.
    destruct (all s (query ++ lit " LIMIT 0")) as [[err | [| first rest]] s']; reflexivity.
Qed.

End Resolved.

Lemma columns_from_first_row_or_limit_0_witness :
  let s := @connect Fixtures.quietHost [] in
  @executeQuery Fixtures.quietHost s Fixtures.searchForZed (NInt 0) (NInt 2)
  = (Resolved (mkPage [] [] (NInt 0) (NInt 2) (JNumber (NInt 3))),
     @mkSession Fixtures.quietHost []
       [countQuery; describeQuery; Fixtures.searchForZed;
        Fixtures.searchForZed ++ lit " LIMIT 0"]).
Proof.
  intros s.
  rewrite (proj1 (proj2 (proj2 (proj2 (@columns_from_first_row_or_limit_0 Fixtures.quietHost))))
             s Fixtures.searchForZed (NInt 0) (NInt 2)
             [[(lit "total", JBigInt 3)]] (@mkSession Fixtures.quietHost [] [countQuery])
             (JNumber (NInt 3)) (Sample.describedAs [lit "name"; lit "age"])
             (@mkSession Fixtures.quietHost [] [countQuery; describeQuery])
             [lit "name"; lit "age"] []
             (@mkSession Fixtures.quietHost [] [countQuery; describeQuery; Fixtures.searchForZed]));
    reflexivity.
Defined.

(** *** The statement a load executes *)

Section Executed.
Context `{host : Host}.


Lemma run_issued s q r s' : run s q = (r, s') -> issued s' = issued s ++ [q].
Proof.
  unfold run. destruct (con_run (db s) q) as [r0 db']. intros H.
  injection H as _ <-. reflexivity.
Qed.
















Lemma provided_trim s : provided (Some s) = true <-> trim s <> [].
Proof.
  unfold provided, truthy, eqb. split.
  - intros H. apply andb_true_iff in H as [_ H]. apply negb_true_iff in H.
    apply bool_decide_eq_false in H. exact H.
  - intros H. apply andb_true_iff. split; apply negb_true_iff, bool_decide_eq_false.
    + intros ->. apply H. reflexivity.
    + exact H.
Qed.





End Executed.


(** *** The total and the size of a page *)

Section Totals.
Context `{host : Host}.

Lemma all_con_all s q r s' : all s q = (r, s') -> con_all (db s) q = (r, db s').
Proof.
  unfold all. destruct (con_all (db s) q) as [r0 db']. intros H.
  injection H as <- <-. reflexivity.
Qed.

Lemma readOnly_all s q : readOnly q -> db (snd (all s q)) = db s.
Proof.
  intros H. unfold all. specialize (H (db s)).
  destruct (con_all (db s) q) as [r0 db']. simpl in *. exact H.
Qed.

Lemma queryStaged_resolved t offset limit search sql p :
  fst (queryStaged t offset limit search sql) = Resolved p ->
  (t = NoTable /\ p = emptyPage offset limit)
  \/ exists s cols s', t = Table s cols
                       /\ runQuery s cols offset limit search sql = (Resolved p, s').
Proof.
  destruct t as [| e trace | s cols]; simpl.
  - intros H. injection H as <-. left. split; reflexivity.
  - discriminate.
  - destruct (runQuery s cols offset limit search sql) as [r s'] eqn:Hq. simpl.
    intros ->. right. exists s, cols, s'. split; [reflexivity | exact Hq].
Qed.

Lemma loadWithDuckDB_resolved d filePath offset limit search sql p :
  fst (loadWithDuckDB d filePath offset limit search sql) = Resolved p ->
  exists s0 s cols s',
    duckdbTable d filePath = Table s0 []
    /\ executeQuery s (duckdbQuery cols offset limit search sql) offset limit
       = (Resolved p, s')
    /\ (readOnly countLogQuery -> readOnly describeQuery -> db s = db s0).
Proof.
  unfold loadWithDuckDB, duckdbQuery.
  destruct (duckdbTable d filePath) as [| e trace | s0 cols0] eqn:Ht.
  - unfold duckdbTable in Ht. destruct (run _ _) as [[err |] s0]; discriminate.
  - discriminate.
  - assert (cols0 = []) as ->.
    { unfold duckdbTable in Ht. destruct (run _ _) as [[err |] s1]; [discriminate |].
      injection Ht as _ <-. reflexivity. }
    destruct (provided sql).
    { destruct (executeQuery _ _ offset limit) as [r s'] eqn:Hq. simpl. intros ->.
      exists s0, (snd (all s0 countLogQuery)), [], s'.
      repeat split; [exact Hq |]. intros Hlog _. apply readOnly_all, Hlog. }
    destruct (provided search).
    + destruct (all (snd (all s0 countLogQuery)) describeQuery) as [[err | colRows] s2] eqn:Hd;
        [discriminate |].
      destruct (describedColumns colRows) as [e | columns]; [discriminate |].
      destruct (executeQuery s2 _ offset limit) as [r s'] eqn:Hq. simpl. intros ->.
      exists s0, s2, columns, s'. repeat split; [exact Hq |]. intros Hlog Hdesc.
      pose proof (readOnly_all (snd (all s0 countLogQuery)) describeQuery Hdesc) as H2.
      rewrite Hd in H2. simpl in H2. rewrite H2. apply readOnly_all, Hlog.
    + destruct (executeQuery _ _ offset limit) as [r s'] eqn:Hq. simpl. intros ->.
      exists s0, (snd (all s0 countLogQuery)), [], s'.
      repeat split; [exact Hq |]. intros Hlog _. apply readOnly_all, Hlog.
Qed.

Lemma countOver_all s countRows s1 t :
  all s countQuery = (inr countRows, s1) -> totalOf countRows = inr t ->
  countOver (db s) = Some t.
Proof.
  intros Hc Ht. apply all_con_all in Hc. unfold countOver. rewrite Hc, Ht. reflexivity.
Qed.

(** The total of a resolved page is the count over the table that was
    ingested. *)
Lemma total_of_ingested d filePath offset limit search sql p :
  readOnly countLogQuery -> readOnly describeQuery ->
  fst (loadFileData d filePath offset limit search sql) = Resolved p ->
  match ingestFile d filePath with
  | Table s _ => countOver (db s) = Some (total p)
  | NoTable => total p = JNumber (NInt 0)
  | IngestFailed _ _ => False
  end.
Proof.
  intros Hlog Hdesc. unfold loadFileData, ingestFile.
  assert (Hstaged : forall t,
             fst (queryStaged t offset limit search sql) = Resolved p ->
             match t with
             | Table s _ => countOver (db s) = Some (total p)
             | NoTable => total p = JNumber (NInt 0)
             | IngestFailed _ _ => False
             end).
  { intros t H. destruct (queryStaged_resolved _ _ _ _ _ _ H)
      as [[-> ->] | (s & cols & s' & -> & Hq)]; [reflexivity |].
    destruct (runQuery_resolved _ _ _ _ _ _ _ _ Hq) as (countRows & s1 & _ & _ & Hc & Ht & _).
    apply (countOver_all _ _ _ _ Hc Ht). }
  assert (Hduck :
             fst (loadWithDuckDB d filePath offset limit search sql) = Resolved p ->
             match duckdbTable d filePath with
             | Table s _ => countOver (db s) = Some (total p)
             | NoTable => total p = JNumber (NInt 0)
             | IngestFailed _ _ => False
             end).
  { intros H. destruct (loadWithDuckDB_resolved _ _ _ _ _ _ _ H)
      as (s0 & s & cols & s' & -> & Hq & Hdb).
    destruct (executeQuery_resolved _ _ _ _ _ _ Hq)
      as (countRows & s1 & _ & _ & _ & _ & Hc & Ht & _).
    rewrite <- (Hdb Hlog Hdesc). apply (countOver_all _ _ _ _ Hc Ht). }
  destruct (detectFileType filePath); auto.
  - apply Hstaged.
  - apply Hstaged.
Qed.

(** C1.  Provided the engine leaves the database as it is when it answers
    the describe probe and the logged count, the total of every page a load
    of a file resolves with is the answer to the count statement over the
    table as it was ingested (0 when the loader found nothing to ingest),
    made a number; so it is the same for every offset, limit,
    search text and SQL text.  The number is the count itself when the count
    is below 2^53 in magnitude. *)
Theorem total_is_count_of_ingested_table :
  forall d filePath,
    readOnly countLogQuery -> readOnly describeQuery ->
    forall offset limit search sql p,
      fst (loadFileData d filePath offset limit search sql) = Resolved p ->
      match ingestFile d filePath with
      | Table s _ => countOver (db s) = Some (total p)
      | NoTable => total p = JNumber (NInt 0)
      | IngestFailed _ _ => False
      end
      /\ (forall offset' limit' search' sql' p',
            fst (loadFileData d filePath offset' limit' search' sql') = Resolved p' ->
            total p' = total p)
      /\ (forall n row rest, (Z.abs n < 2 ^ 53)%Z -> getProp row (lit "total") = JBigInt n ->
            totalOf (row :: rest) = inr (JNumber (NInt n))).
Proof.
  intros d filePath Hlog Hdesc offset limit search sql p H.
  pose proof (total_of_ingested _ _ _ _ _ _ _ Hlog Hdesc H) as Hp.
  split; [exact Hp |]. split.
  - intros offset' limit' search' sql' p' H'.
    pose proof (total_of_ingested _ _ _ _ _ _ _ Hlog Hdesc H') as Hp'.
    destruct (ingestFile d filePath) as [| e trace | s cols]; [| contradiction |];
      congruence.
  - intros n row rest Hn Hrow. unfold totalOf. rewrite Hrow. unfold numberOfBigInt.
    apply Z.ltb_lt in Hn. rewrite Hn. reflexivity.
Qed.

(** C5, as the code has it.  In every page a load resolves with, each row
    has as many cells as the page has columns.  Unless the loader found
    nothing to ingest (and the page is empty), the rows of the page are, one
    for one, the rows the engine answered the executed statement with.  When
    no SQL text is given that statement ends with the page clause of the
    request; a given SQL text is executed with its white space collapsed and
    nothing added, so no limit clause.  Hence the page has at most [limit]
    rows whenever the engine answers the executed statement with at most
    [limit] rows, and as many rows as the SQL text selects otherwise. *)
Theorem rows_fit_columns_and_generated_statements_are_limited :
  forall d filePath offset limit search sql p,
    fst (loadFileData d filePath offset limit search sql) = Resolved p ->
    Forall (fun cells => length cells = length (columns p)) (rows p)
    /\ ((ingestFile d filePath = NoTable /\ rows p = [])
        \/ exists ident cols s answer s',
             (ident = bare \/ ident = quoted)
             /\ all s (chosenQuery ident cols offset limit search sql) = (inr answer, s')
             /\ rows p = processRows (columns p) answer
             /\ length (rows p) = length answer
             /\ (provided sql = false ->
                 exists selection,
                   chosenQuery ident cols offset limit search sql
                   = selection ++ lit " LIMIT " ++ numberToString limit
                       ++ lit " OFFSET " ++ numberToString offset)
             /\ (forall text, sql = Some text -> trim text <> [] ->
                   chosenQuery ident cols offset limit search sql
                   = trim (replaceWhiteSpaceRuns (lit " ") text))
             /\ (forall n, limit = NInt n ->
                   answersAtMost (chosenQuery ident cols offset limit search sql) n ->
                   (Z.of_nat (length (rows p)) <= n)%Z)).
Proof.
  intros d filePath offset limit search sql p H.
  match goal with
  | |- _ /\ (_ \/ ?answered) => set (executed := answered)
  end.
  assert (Hshape : forall s query total rows s',
             shapeResult s query offset limit total rows = (Resolved p, s') ->
             Forall (fun cells => length cells = length (columns p)) (FileLoader.rows p)
             /\ FileLoader.rows p = processRows (columns p) rows
             /\ length (FileLoader.rows p) = length rows).
  { intros s query tot rows s' Hs.
    destruct (shapeResult_resolved _ _ _ _ _ _ _ _ Hs) as [Hp _].
    rewrite Hp. simpl. split; [apply processRows_width |].
    split; [reflexivity | apply processRows_length]. }
  assert (Hchosen : forall ident cols s answer s1 s',
             (ident = bare \/ ident = quoted) ->
             all s (chosenQuery ident cols offset limit search sql) = (inr answer, s1) ->
             shapeResult s1 (chosenQuery ident cols offset limit search sql) offset limit
               (total p) answer = (Resolved p, s') ->
             Forall (fun cells => length cells = length (columns p)) (rows p)
             /\ executed).
  { intros ident cols s answer s1 s' Hid Ha Hs.
    destruct (Hshape _ _ _ _ _ Hs) as (Hw & Hr & Hl). split; [exact Hw |].
    exists ident, cols, s, answer, s1.
    split; [exact Hid |]. split; [exact Ha |]. split; [exact Hr |]. split; [exact Hl |].
    split; [| split].
    - intros Hsql. unfold chosenQuery. rewrite Hsql. destruct (provided search).
      + unfold searchQuery, pageClause.
        exists (lit "SELECT * FROM data WHERE "
                  ++ joinSparse (lit " OR ")
                       (mapSparse (fun col => ident col ++ lit " LIKE '%"
                                                ++ needleOf (default [] search) ++ lit "%'")
                          cols)).
        rewrite <- app_assoc. reflexivity.
      + unfold plainQuery, pageClause. exists (lit "SELECT * FROM data"). reflexivity.
    - intros text -> Htext. unfold chosenQuery.
      rewrite (proj2 (provided_trim text) Htext). reflexivity.
    - intros n _ Hn. rewrite Hl. apply all_con_all in Ha. apply (Hn _ _ _ Ha). }
  clearbody executed.
  assert (Hstaged : forall t,
             fst (queryStaged t offset limit search sql) = Resolved p ->
             Forall (fun cells => length cells = length (columns p)) (rows p)
             /\ ((t = NoTable /\ rows p = []) \/ executed)).
  { intros t Ht. destruct (queryStaged_resolved _ _ _ _ _ _ Ht)
      as [[-> ->] | (s & cols & s' & -> & Hq)].
    { split; [constructor | left; split; reflexivity]. }
    destruct (runQuery_resolved _ _ _ _ _ _ _ _ Hq)
      as (countRows & s1 & answer & s2 & _ & _ & Ha & Hs).
    destruct (Hchosen quoted cols s1 answer s2 s' (or_intror eq_refl) Ha Hs) as [Hw Hex].
    split; [exact Hw | right; exact Hex]. }
  assert (Hduck :
             fst (loadWithDuckDB d filePath offset limit search sql) = Resolved p ->
             Forall (fun cells => length cells = length (columns p)) (rows p)
             /\ ((duckdbTable d filePath = NoTable /\ rows p = []) \/ executed)).
  { intros Hd. destruct (loadWithDuckDB_resolved _ _ _ _ _ _ _ Hd)
      as (s0 & s & cols & s' & _ & Hq & _).
    destruct (executeQuery_resolved _ _ _ _ _ _ Hq)
      as (countRows & s1 & colRows & s2 & answer & s3 & _ & _ & _ & Ha & Hs).
    destruct (Hchosen bare (dense cols) s2 answer s3 s' (or_introl eq_refl) Ha Hs)
      as [Hw Hex].
    split; [exact Hw | right; exact Hex]. }
  unfold loadFileData in H. unfold ingestFile.
  destruct (detectFileType filePath); try (apply Hduck, H).
  - apply (Hstaged (excelTable d filePath)), H.
  - apply (Hstaged (xmlTable d filePath)), H.
Qed.

End Totals.

(** The scripted engine has no state of its own. *)
Lemma scripted_readOnly script q : @readOnly (Sample.scripted script) q.
Proof.
  intros base. simpl. destruct (Sample.answerOf script q); reflexivity.
Qed.

Lemma total_is_count_of_ingested_table_witness :
  exists p,
    fst (@loadFileData Sample.peopleHost [] Sample.peopleCsv (NInt 0) (NInt 2)
           (Some (lit "Bob")) None) = Resolved p
    /\ total p = JNumber (NInt 3)
    /\ forall offset' limit' search' sql' p',
         fst (@loadFileData Sample.peopleHost [] Sample.peopleCsv offset' limit' search' sql')
         = Resolved p' ->
         total p' = total p.
Proof.
  eexists. split; [vm_compute; reflexivity |]. split; [reflexivity |].
  apply (@total_is_count_of_ingested_table Sample.peopleHost [] Sample.peopleCsv
           (scripted_readOnly _ _) (scripted_readOnly _ _)
           (NInt 0) (NInt 2) (Some (lit "Bob")) None).
  vm_compute. reflexivity.
Defined.

Lemma rows_fit_columns_and_generated_statements_are_limited_witness :
  exists p,
    fst (@loadFileData Sample.peopleHost [] Sample.peopleCsv (NInt 0) (NInt 2) None None)
    = Resolved p
    /\ Forall (fun cells => length cells = length (columns p)) (rows p)
    /\ (Z.of_nat (length (rows p)) <= 2)%Z.
Proof.
  eexists. split; [vm_compute; reflexivity |].
  match goal with
  | |- Forall _ (rows ?p) /\ _ =>
      assert (H : fst (@loadFileData Sample.peopleHost [] Sample.peopleCsv (NInt 0) (NInt 2)
                         None None) = Resolved p) by (vm_compute; reflexivity)
  end.
  destruct (@rows_fit_columns_and_generated_statements_are_limited Sample.peopleHost
              [] Sample.peopleCsv (NInt 0) (NInt 2) None None _ H)
    as [Hw [[Hnone _] | (ident & cols & s & answer & s' & _ & _ & _ & _ & _ & _ & Hl)]].
  - exfalso. change (@duckdbTable Sample.peopleHost [] Sample.peopleCsv = NoTable) in Hnone.
    unfold duckdbTable in Hnone. destruct (run _ _) as [[err |] s0]; discriminate Hnone.
  - split; [exact Hw |].
    apply (Hl 2%Z); [reflexivity |].
    intros base answer' base' Hanswer. vm_compute in Hanswer.
    injection Hanswer as <- _. vm_compute. discriminate 1.
Defined.

(** C5, as the specification states it, fails: the three records of the
    sample file all come back for a limit of 2 when the SQL text is the bare
    selection. *)
Lemma raw_sql_page_exceeds_limit :
  exists p,
    fst (@loadFileData Sample.peopleHost [] Sample.peopleCsv (NInt 0) (NInt 2)
           None (Some (lit "SELECT * FROM data"))) = Resolved p
    /\ limit p = NInt 2
    /\ length (rows p) = 3%nat
    /\ ~ (Z.of_nat (length (rows p)) <= 2)%Z.
Proof.
  eexists. split; [vm_compute; reflexivity |].
  split; [reflexivity |]. split; [reflexivity |]. vm_compute. intros H. apply H. reflexivity.
Qed.

(** C4: what the search of a comma file does when a field name has a space
    in it.  The table has the columns [first name] and [age]; the statement
    the loader builds from the describe probe names [first_name], which is
    not a column of the table, and the load is rejected. *)
Theorem search_names_a_column_the_table_lacks :
  let result := @loadFileData Sample.staffHost [] Sample.staffCsv (NInt 0) (NInt 100)
                  (Some (lit "Bob")) None in
  last (snd result)
  = Some (lit "SELECT * FROM data WHERE first_name LIKE '%Bob%' OR age LIKE '%Bob%' LIMIT 100 OFFSET 0")
  /\ describedColumns (Sample.describedAs Sample.staffColumns)
     = inr [lit "first_name"; lit "age"]
  /\ ~ In (lit "first_name") Sample.staffColumns
  /\ exists e, fst result = Rejected e.
Proof.
  cbv zeta. split; [vm_compute; reflexivity |]. split; [vm_compute; reflexivity |].
  split.
  - intros [H | [H | []]]; vm_compute in H; discriminate H.
  - eexists. vm_compute. reflexivity.
Qed.

(** *** Retrying and the finalisation of a save *)

Import Extension.

Section RetryProperties.
Context {W : Type}.
Variable operation : W -> option JsError * W.
Variable onRetry : option (Z -> JsError -> W -> W).

Lemma retryLoop_delays maxAttempts delayMs fuel :
  forall attempt w r w' delays,
    fuel = Z.to_nat (maxAttempts - attempt + 1) ->
    retryLoop operation onRetry fuel attempt maxAttempts delayMs w = (r, w', delays) ->
    (length delays < Nat.max fuel 1)%nat
    /\ delays = map (fun i => delayMs * 2 ^ (attempt - 1 + Z.of_nat i))%Z
                  (seq 0 (length delays))
    /\ forall err, r = Some err ->
         lockCode err = false \/ (attempt + Z.of_nat (length delays) = maxAttempts)%Z.
Proof.
  induction fuel as [| fuel IH]; intros attempt w r w' delays Hfuel; simpl.
  - intros H. injection H as <- <- <-. simpl. repeat split; [lia | discriminate].
  - destruct (operation w) as [[err |] w1].
    + destruct ((attempt =? maxAttempts)%Z || negb (lockCode err)) eqn:Hstop.
      * intros H. injection H as <- <- <-. simpl. repeat split; [lia |].
        intros e He. injection He as <-.
        apply orb_true_iff in Hstop as [Hlast | Hother].
        -- right. apply Z.eqb_eq in Hlast. lia.
        -- left. apply negb_true_iff, Hother.
      * apply orb_false_iff in Hstop as [Hnot _]. apply Z.eqb_neq in Hnot.
        destruct (retryLoop operation onRetry fuel (attempt + 1) maxAttempts delayMs _)
          as [[r0 w3] delays0] eqn:Hrec.
        intros H. injection H as <- <- <-.
        assert (Hfuel' : fuel = Z.to_nat (maxAttempts - (attempt + 1) + 1)) by lia.
        destruct (IH _ _ _ _ _ Hfuel' Hrec) as (Hlen & Hdelays & Hthrown). simpl.
        repeat split.
        -- lia.
        -- f_equal; [f_equal; f_equal; lia |].
           rewrite <- seq_shift, map_map. rewrite Hdelays at 1.
           apply map_ext. intros i. f_equal. f_equal. lia.
        -- intros e He. destruct (Hthrown e He) as [Hl | Hn]; [left; exact Hl | right; lia].
    + intros H. injection H as <- <- <-. simpl. repeat split; [lia | discriminate].
Qed.

Lemma retryLoop_exhausted maxAttempts delayMs fuel :
  (forall w, exists e w1, operation w = (Some e, w1) /\ lockCode e = true) ->
  forall attempt w r w' delays,
    fuel = Z.to_nat (maxAttempts - attempt + 1) -> (attempt <= maxAttempts)%Z ->
    retryLoop operation onRetry fuel attempt maxAttempts delayMs w = (r, w', delays) ->
    (exists e, r = Some e /\ lockCode e = true)
    /\ (attempt + Z.of_nat (length delays) = maxAttempts)%Z.
Proof.
  intros Hlocked. induction fuel as [| fuel IH]; intros attempt w r w' delays Hfuel Hle; [lia |].
  simpl. destruct (Hlocked w) as (e & w1 & -> & He). rewrite He. simpl.
  destruct (attempt =? maxAttempts)%Z eqn:Hlast; simpl.
  - intros H. injection H as <- <- <-. apply Z.eqb_eq in Hlast. simpl.
    split; [exists e; split; [reflexivity | exact He] | lia].
  - apply Z.eqb_neq in Hlast.
    destruct (retryLoop operation onRetry fuel (attempt + 1) maxAttempts delayMs _)
      as [[r0 w3] delays0] eqn:Hrec.
    intros H. injection H as <- <- <-.
    assert (Hfuel' : fuel = Z.to_nat (maxAttempts - (attempt + 1) + 1)) by lia.
    assert (Hle' : (attempt + 1 <= maxAttempts)%Z) by lia.
    destruct (IH _ _ _ _ _ Hfuel' Hle' Hrec) as [Hr Hn].
    split; [exact Hr | simpl; lia].
Qed.

Lemma retryLoop_recorded maxAttempts delayMs fuel :
  forall attempt w log r w' delays,
    fuel = Z.to_nat (maxAttempts - attempt + 1) -> (attempt <= maxAttempts)%Z ->
    retryLoop operation onRetry fuel attempt maxAttempts delayMs w = (r, w', delays) ->
    exists errs,
      retryLoop (Retrying.recorded operation) (Some (Retrying.noted onRetry)) fuel attempt
        maxAttempts delayMs (w, log)
      = (r, (w', log ++ Retrying.retries attempt errs ++ [Retrying.Called r]), delays)
      /\ Forall (fun err => lockCode err = true) errs
      /\ length delays = length errs
      /\ (attempt + Z.of_nat (length errs) <= maxAttempts)%Z
      /\ forall err, r = Some err ->
           lockCode err = false \/ (attempt + Z.of_nat (length errs) = maxAttempts)%Z.
Proof.
  induction fuel as [| fuel IH]; intros attempt w log r w' delays Hfuel Hle; [lia |].
  cbn [retryLoop]. unfold Retrying.recorded at 1. cbn [fst snd].
  destruct (operation w) as [[err |] w1].
  - destruct ((attempt =? maxAttempts)%Z || negb (lockCode err)) eqn:Hstop.
    + intros H. injection H as <- <- <-. exists []. simpl.
      split; [reflexivity |]. split; [constructor |]. split; [reflexivity |].
      split; [lia |]. intros e He. injection He as <-.
      apply orb_true_iff in Hstop as [Hlast | Hother].
      * right. apply Z.eqb_eq in Hlast. lia.
      * left. apply negb_true_iff, Hother.
    + apply orb_false_iff in Hstop as [Hnot Hlock]. apply Z.eqb_neq in Hnot.
      apply negb_false_iff in Hlock.
      destruct (retryLoop operation onRetry fuel (attempt + 1) maxAttempts delayMs _)
        as [[r0 w3] delays0] eqn:Hrec.
      intros H. injection H as <- <- <-.
      assert (Hfuel' : fuel = Z.to_nat (maxAttempts - (attempt + 1) + 1)) by lia.
      assert (Hle' : (attempt + 1 <= maxAttempts)%Z) by lia.
      destruct (IH _ _ ((log ++ [Retrying.Called (Some err)])
                          ++ [Retrying.Retried attempt err]) _ _ _ Hfuel' Hle' Hrec)
        as (errs & Hrun & Hlocks & Hlen & Hmax & Hthrown).
      exists (err :: errs). unfold Retrying.noted in Hrun |- *. cbn [fst snd].
      rewrite Hrun. split.
      { simpl. rewrite <- !app_assoc. reflexivity. }
      split; [constructor; assumption |]. split; [simpl; lia |].
      split; [simpl length; lia |].
      intros e He. destruct (Hthrown e He) as [Hl | Hn];
        [left; exact Hl | right; simpl length; lia].
  - intros H. injection H as <- <- <-. exists []. simpl.
    split; [reflexivity |]. split; [constructor |]. split; [reflexivity |].
    split; [lia | discriminate].
Qed.

End RetryProperties.

Lemma finalizeSave_locked filePath msg w tempFilePath bytes0 bytes1 e later :
  tempFile msg = Some tempFilePath -> tempFilePath <> [] ->
  files w !! tempFilePath = Some bytes1 -> files w !! filePath = Some bytes0 ->
  openFaults w = Some e :: later -> lockCode e = true ->
  finalizeSave filePath msg w
  = post (PostError (lit "File is still locked. Please close it in the other program and try again."))
      (mkWorld (files w) later (renameFault w) (isDisposed w) (posted w) (document w)).
Proof.
  intros Hmsg Hne Htmp Hdest Hopen Hlock. unfold finalizeSave. rewrite Hmsg.
  assert (Ht : truthy (JString tempFilePath) = true).
  { unfold truthy, eqb. apply negb_true_iff, bool_decide_eq_false. exact Hne. }
  rewrite Ht, Htmp. simpl.
  unfold isFileLocked, openForUpdate. rewrite Hdest, Hopen, Hlock. reflexivity.
Qed.

(** C8, as the code has it.  [withRetry] waits [delayMs * 2 ^ (k - 1)]
    milliseconds after its [k]-th failed attempt, makes at most
    [maxAttempts] attempts, and throws only an error without a lock code or
    the error of the last attempt; an error without a lock code on the first
    attempt is thrown at once; an operation that fails with a lock code every
    time is tried [maxAttempts] times and its lock error is thrown.  Written
    down call by call, a run is: for each attempt that is retried, a call of
    the operation that throws an error with a lock code, then the logging
    callback with the number of the attempt and that error; then one last
    call of the operation, whose outcome is the outcome of the run.  So an
    error without a lock code ends the run at whichever attempt it is
    thrown, and there is one wait for each retried attempt.  The
    [finalizeSave] handler does not retry: when the one probe of the
    destination reports a lock code it posts the lock message and leaves the
    files as they are. *)
Theorem withRetry_backs_off_and_finalizeSave_probes_once :
  (forall (W : Type) (operation : W -> option JsError * W) onRetry maxAttempts delayMs
          w r w' delays,
      withRetry operation onRetry maxAttempts delayMs w = (r, w', delays) ->
      (Z.of_nat (length delays) < Z.max maxAttempts 1)%Z
      /\ delays = map (fun i => delayMs * 2 ^ Z.of_nat i)%Z (seq 0 (length delays))
      /\ forall err, r = Some err ->
           lockCode err = false \/ (1 + Z.of_nat (length delays) = maxAttempts)%Z)
  /\ (forall (W : Type) (operation : W -> option JsError * W) onRetry maxAttempts delayMs
             w err w1,
        (1 <= maxAttempts)%Z -> operation w = (Some err, w1) -> lockCode err = false ->
        withRetry operation onRetry maxAttempts delayMs w = (Some err, w1, []))
  /\ (forall (W : Type) (operation : W -> option JsError * W) onRetry maxAttempts delayMs
             w r w' delays,
        (1 <= maxAttempts)%Z ->
        (forall w, exists e w1, operation w = (Some e, w1) /\ lockCode e = true) ->
        withRetry operation onRetry maxAttempts delayMs w = (r, w', delays) ->
        (exists e, r = Some e /\ lockCode e = true)
        /\ (1 + Z.of_nat (length delays) = maxAttempts)%Z)
  /\ (forall filePath msg w tempFilePath bytes0 bytes1 e later,
        tempFile msg = Some tempFilePath -> tempFilePath <> [] ->
        files w !! tempFilePath = Some bytes1 -> files w !! filePath = Some bytes0 ->
        openFaults w = Some e :: later -> lockCode e = true ->
        let w' := finalizeSave filePath msg w in
        files w' = files w /\ openFaults w' = later
        /\ posted w'
           = posted w
               ++ delivered w
                    [PostError (lit "File is still locked. Please close it in the other program and try again.")])
  /\ (forall (W : Type) (operation : W -> option JsError * W) onRetry maxAttempts delayMs
             w r w' delays,
        (1 <= maxAttempts)%Z ->
        withRetry operation onRetry maxAttempts delayMs w = (r, w', delays) ->
        exists errs,
          withRetry (Retrying.recorded operation) (Some (Retrying.noted onRetry))
            maxAttempts delayMs (w, [])
          = (r, (w', Retrying.retries 1 errs ++ [Retrying.Called r]), delays)
          /\ Forall (fun err => lockCode err = true) errs
          /\ length delays = length errs
          /\ (Z.of_nat (length errs) < maxAttempts)%Z
          /\ forall err, r = Some err ->
               lockCode err = false \/ (1 + Z.of_nat (length errs) = maxAttempts)%Z).
Proof.
  split; [| split; [| split; [| split]]].
  - intros W operation onRetry maxAttempts delayMs w r w' delays H.
    destruct (retryLoop_delays operation onRetry maxAttempts delayMs (Z.to_nat maxAttempts)
                1%Z w r w' delays) as (Hlen & Hd & Ht); [f_equal; lia | exact H |].
    split; [lia |]. split; [| exact Ht].
    rewrite Hd at 1. apply map_ext. intros i. f_equal.
  - intros W operation onRetry maxAttempts delayMs w err w1 Hmax Hop Hlock.
    unfold withRetry. destruct (Z.to_nat maxAttempts) as [| fuel] eqn:Hfuel; [lia |].
    simpl. rewrite Hop, Hlock, orb_true_r. reflexivity.
  - intros W operation onRetry maxAttempts delayMs w r w' delays Hmax Hlocked H.
    apply (retryLoop_exhausted operation onRetry maxAttempts delayMs
             (Z.to_nat maxAttempts) Hlocked 1%Z w r w' delays); [f_equal; lia | lia | exact H].
  - intros filePath msg w tempFilePath bytes0 bytes1 e later Hmsg Hne Htmp Hdest Hopen Hlock.
    cbv zeta.
    rewrite (finalizeSave_locked _ _ _ _ _ _ _ _ Hmsg Hne Htmp Hdest Hopen Hlock).
    unfold post, delivered. cbn [isDisposed].
    destruct (isDisposed w); cbn [files openFaults posted];
      [rewrite app_nil_r |]; repeat split.
  - intros W operation onRetry maxAttempts delayMs w r w' delays Hmax H.
    destruct (retryLoop_recorded operation onRetry maxAttempts delayMs (Z.to_nat maxAttempts)
                1%Z w [] r w' delays) as (errs & Hrun & Hlocks & Hlen & Hle & Hthrown);
      [f_equal; lia | lia | exact H |].
    exists errs. split; [exact Hrun |]. split; [exact Hlocks |]. split; [exact Hlen |].
    split; [lia | exact Hthrown].
Qed.

Lemma sample_paths_differ : Sample.peopleTmp <> Sample.peopleCsv.
Proof. intros E. vm_compute in E. discriminate E. Qed.

Lemma withRetry_backs_off_and_finalizeSave_probes_once_witness :
  (let w' := finalizeSave Sample.peopleCsv Sample.finalizeMsg Sample.lockedOnce in
   files w' = files Sample.lockedOnce /\ openFaults w' = []
   /\ posted w' = [PostError (lit "File is still locked. Please close it in the other program and try again.")])
  /\ exists errs,
       withRetry (Retrying.recorded Fixtures.busyThenGone)
         (Some (Retrying.noted None)) 10 500 (0%nat, [])
       = (Some (noSuchFile Sample.peopleCsv),
          (2%nat, Retrying.retries 1 errs
                    ++ [Retrying.Called (Some (noSuchFile Sample.peopleCsv))]),
          [500%Z])
       /\ errs = [Sample.busy].
Proof.
  split.
  - apply (proj1 (proj2 (proj2 (proj2 withRetry_backs_off_and_finalizeSave_probes_once)))
             Sample.peopleCsv Sample.finalizeMsg Sample.lockedOnce Sample.peopleTmp
             (lit "name") (lit "name,age") Sample.busy []).
    + reflexivity.
    + discriminate.
    + apply lookup_insert_eq.
    + simpl. rewrite lookup_insert_ne by exact sample_paths_differ. apply lookup_insert_eq.
    + reflexivity.
    + reflexivity.
  - destruct (proj2 (proj2 (proj2 (proj2 withRetry_backs_off_and_finalizeSave_probes_once)))
                nat Fixtures.busyThenGone None 10%Z 500%Z 0%nat
                (Some (noSuchFile Sample.peopleCsv)) 2%nat [500%Z])
      as (errs & Hrun & Hlocks & Hlen & _); [lia | reflexivity |].
    exists errs. split; [exact Hrun |].
    destruct errs as [| e1 [| e2 errs]]; try discriminate Hlen.
    vm_compute in Hrun. injection Hrun as <-. reflexivity.
Defined.

(** C8, as the specification states it, fails: with the destination locked
    for the first probe only, the handler posts the lock message after that
    one probe, waits for nothing and renames nothing, although a second
    probe would have found the destination free. *)
Lemma finalizeSave_gives_up_after_one_probe :
  let w' := finalizeSave Sample.peopleCsv Sample.finalizeMsg Sample.lockedOnce in
  openFaults Sample.lockedOnce = [Some Sample.busy]
  /\ lockCode Sample.busy = true
  /\ openFaults w' = []
  /\ posted w' = [PostError (lit "File is still locked. Please close it in the other program and try again.")]
  /\ files w' !! Sample.peopleCsv = Some (lit "name")
  /\ files w' !! Sample.peopleTmp = Some (lit "name,age")
  /\ fst (isFileLocked Sample.peopleCsv w') = inr false.
Proof.
  cbv zeta.
  rewrite (finalizeSave_locked Sample.peopleCsv Sample.finalizeMsg Sample.lockedOnce
             Sample.peopleTmp (lit "name") (lit "name,age") Sample.busy []);
    [| reflexivity | discriminate | apply lookup_insert_eq
     | simpl; rewrite lookup_insert_ne by exact sample_paths_differ; apply lookup_insert_eq
     | reflexivity | reflexivity].
  simpl. repeat split.
Qed.

(** *** The scenarios of the specification on the sample host *)

(** With the defaults, an operation that always finds the file busy is
    tried ten times, after waits of 500 ms doubling up to 128 s. *)
Example withRetry_defaults_exhausted :
  withRetry (fun w : unit => (Some Sample.busy, w)) None defaultMaxAttempts defaultDelayMs tt
  = (Some Sample.busy, tt, [500; 1000; 2000; 4000; 8000; 16000; 32000; 64000; 128000]%Z).
Proof. reflexivity. Qed.

(** Three records, two fields, a page of two: two rows and a total of 3. *)
Example first_page_of_people :
  fst (@loadFileData Sample.peopleHost [] Sample.peopleCsv (NInt 0) (NInt 2) None None)
  = Resolved (mkPage [lit "name"; lit "age"]
                [[Sample.str "Alice"; Sample.str "30"]; [Sample.str "Bob"; Sample.str "25"]]
                (NInt 0) (NInt 2) (JNumber (NInt 3))).
Proof. vm_compute. reflexivity. Qed.

(** The same file searched for [Bob]: the one matching row, the total
    still 3. *)
Example people_searched_for_Bob :
  fst (@loadFileData Sample.peopleHost [] Sample.peopleCsv (NInt 0) (NInt 2)
         (Some (lit "Bob")) None)
  = Resolved (mkPage [lit "name"; lit "age"] [[Sample.str "Bob"; Sample.str "25"]]
                (NInt 0) (NInt 2) (JNumber (NInt 3))).
Proof. vm_compute. reflexivity. Qed.

(** An aggregate as SQL text: one row, one column [c], the count as a
    decimal string. *)
Example people_counted_by_sql :
  fst (@loadFileData Sample.peopleHost [] Sample.peopleCsv (NInt 0) (NInt 2)
         None (Some (lit "SELECT COUNT(*) as c FROM data")))
  = Resolved (mkPage [lit "c"] [[Sample.str "3"]] (NInt 0) (NInt 2) (JNumber (NInt 3))).
Proof. vm_compute. reflexivity. Qed.

(** ** Further properties of fileLoader.ts *)

Import SqlLiteral.

(** *** Quotes in the text put into statements *)

Lemma doubleQuotes_cons c s :
  doubleQuotes (c :: s)
  = (if c =? chr "'" then [chr "'"; chr "'"] else [c]) ++ doubleQuotes s.
Proof. reflexivity. Qed.

Lemma doubleQuotes_paired s : quotesPaired (doubleQuotes s) = true.
Proof.
  induction s as [| c s IH]; [reflexivity |].
  rewrite doubleQuotes_cons. destruct (c =? chr "'") eqn:Hc; cbn [quotesPaired app].
  - rewrite N.eqb_refl. exact IH.
  - rewrite Hc. exact IH.
Qed.

Lemma doubleQuotes_injective s : forall s', doubleQuotes s = doubleQuotes s' -> s = s'.
Proof.
  induction s as [| c s IH]; intros [| c' s'].
  - reflexivity.
  - rewrite doubleQuotes_cons. destruct (c' =? chr "'"); discriminate.
  - rewrite doubleQuotes_cons. destruct (c =? chr "'"); discriminate.
  - rewrite !doubleQuotes_cons.
    destruct (c =? chr "'") eqn:Hc; destruct (c' =? chr "'") eqn:Hc'; cbn [app]; intros E.
    + apply N.eqb_eq in Hc. apply N.eqb_eq in Hc'. subst c c'.
      injection E as E. f_equal. apply IH, E.
    + injection E as E1 E2. apply N.eqb_neq in Hc'. exfalso. apply Hc'. symmetry. exact E1.
    + injection E as E1 E2. apply N.eqb_neq in Hc. exfalso. apply Hc. exact E1.
    + injection E as E1 E2. subst c'. f_equal. apply IH, E2.
Qed.

Lemma doubleQuotes_no_backslash s :
  ~ In (chr "\") s -> ~ In (chr "\") (doubleQuotes s).
Proof.
  induction s as [| c s IH]; [exact (fun H => H) |].
  intros Hs. rewrite doubleQuotes_cons. intros Hin. apply in_app_or in Hin as [Hin | Hin].
  - destruct (c =? chr "'").
    + destruct Hin as [E | [E | []]]; discriminate E.
    + destruct Hin as [E | []]. apply Hs. left. exact E.
  - apply IH; [| exact Hin]. intros H. apply Hs. right. exact H.
Qed.

Lemma slashes_no_backslash s : ~ In (chr "\") (slashes s).
Proof.
  unfold slashes. intros Hin. apply in_map_iff in Hin as (c & E & _).
  destruct (c =? chr "\") eqn:Hc; [discriminate E |].
  apply N.eqb_neq in Hc. congruence.
Qed.

(** X1.  The text of a cell is put into the INSERT between single quotes
    with every quote in it paired, and two cells get the same literal only
    when they have the same text; the needle of a search has its quotes
    paired too, and two searches get the same needle only when they are
    the same after trimming. *)
Theorem staged_text_has_paired_quotes_and_stays_distinct :
  (forall val, exists body,
      cellLiteral val = lit "'" ++ body ++ lit "'" /\ quotesPaired body = true)
  /\ (forall val val', cellLiteral val = cellLiteral val' ->
        toString (or val (JString [])) = toString (or val' (JString [])))
  /\ (forall search, quotesPaired (needleOf search) = true)
  /\ (forall search search', needleOf search = needleOf search' ->
        trim search = trim search').
Proof.
  repeat split.
  - intros val. exists (doubleQuotes (toString (or val (JString [])))).
    split; [reflexivity | apply doubleQuotes_paired].
  - intros val val' E. unfold cellLiteral in E.
    apply app_inv_head in E. apply app_inv_tail in E.
    apply doubleQuotes_injective, E.
  - intros search. apply doubleQuotes_paired.
  - intros search search'. apply doubleQuotes_injective.
Qed.

Section MoreLoaders.
Context `{host : Host}.

(** X2.  The path written into the statement that reads a file, and into
    the one that copies the table out, stands between single quotes, has no
    backslash and has its quotes paired. *)
Theorem path_in_statement_is_escaped :
  forall filePath,
    let absPath := doubleQuotes (slashes (resolve filePath)) in
    ~ In (chr "\") absPath
    /\ quotesPaired absPath = true
    /\ (exists before after,
          registerQuery filePath = before ++ lit "'" ++ absPath ++ lit "'" ++ after)
    /\ copyQuery filePath = lit "COPY data TO '" ++ absPath ++ lit "' (FORMAT PARQUET)".
Proof.
  intros filePath absPath. split; [| split; [| split]].
  - apply doubleQuotes_no_backslash, slashes_no_backslash.
  - apply doubleQuotes_paired.
  - unfold registerQuery. fold absPath.
    repeat match goal with
           | |- context [if ?b then _ else _] => destruct b
           end.
    + exists (lit "CREATE TABLE data AS SELECT * FROM read_csv("), (lit ", delim = ',')").
      reflexivity.
    + exists (lit "CREATE TABLE data AS SELECT * FROM read_csv("),
             (lit ", delim = '" ++ [9] ++ lit "')").
      reflexivity.
    + exists (lit "CREATE TABLE data AS SELECT * FROM parquet_scan("), (lit ")").
      reflexivity.
    + exists (lit "CREATE TABLE data AS SELECT * FROM read_json("), (lit ")").
      reflexivity.
    + exists (lit "CREATE TABLE data AS SELECT * FROM read_csv_auto("), (lit ")").
      reflexivity.
  - reflexivity.
Qed.

End MoreLoaders.

(** *** Columns named by the describe probe and by a spreadsheet header *)

Lemma sanitizeValues_strings names :
  sanitizeValues (map JString names) = inr (map sanitizeColumnName names).
Proof.
  induction names as [| n names IH]; [reflexivity |]. simpl. rewrite IH. reflexivity.
Qed.

Lemma sanitizeValues_not_text vs :
  Exists (fun v => forall s, v <> JString s) vs -> exists e, sanitizeValues vs = inl e.
Proof.
  induction 1 as [v vs Hv | v vs _ [e IH]]; simpl.
  - destruct v; try (eexists; reflexivity). destruct (Hv s eq_refl).
  - destruct (sanitizeValue v); [eexists; reflexivity |]. rewrite IH. eexists. reflexivity.
Qed.

Lemma mapSparse_dense {A B} (f : A -> B) l : mapSparse f (dense l) = dense (map f l).
Proof. unfold mapSparse, dense. rewrite !map_map. reflexivity. Qed.

Lemma sanitizeSparse_strings names :
  sanitizeSparse (mapSparse JString names) = inr (mapSparse sanitizeColumnName names).
Proof.
  unfold mapSparse.
  induction names as [| [n |] names IH]; [reflexivity | |]; simpl; rewrite IH; reflexivity.
Qed.

Lemma sanitizeSparse_not_text vs :
  Exists (fun cell => exists v, cell = Some v /\ forall s, v <> JString s) vs ->
  exists e, sanitizeSparse vs = inl e.
Proof.
  induction 1 as [cell vs (v & -> & Hv) | cell vs _ [e IH]]; simpl.
  - destruct v; try (eexists; reflexivity). destruct (Hv s eq_refl).
  - destruct cell as [v |].
    + destruct (sanitizeValue v); [eexists; reflexivity |]. rewrite IH. eexists. reflexivity.
    + rewrite IH. eexists. reflexivity.
Qed.

Lemma sanitize_solid_names names :
  Forall solid names -> map sanitizeColumnName names = names.
Proof.
  induction 1 as [| n names Hn _ IH]; [reflexivity |]. simpl. rewrite IH. f_equal.
  apply replaceRunsFrom_solid, Hn.
Qed.

(** X3.  When the describe probe answers with one row per column whose
    [column_name] is a string, the columns the search is built over are
    those names sanitized, in the same order; they are the names themselves
    when no name has white space in it. *)
Theorem described_columns_are_the_sanitized_names :
  forall colRows names,
    map (fun row => getProp row (lit "column_name")) colRows = map JString names ->
    describedColumns colRows = inr (map sanitizeColumnName names)
    /\ (Forall solid names -> describedColumns colRows = inr names).
Proof.
  intros colRows names H. unfold describedColumns. rewrite H, sanitizeValues_strings.
  split; [reflexivity |]. intros Hs. rewrite (sanitize_solid_names _ Hs). reflexivity.
Qed.

Lemma described_columns_are_the_sanitized_names_witness :
  describedColumns (Sample.describedAs [lit "name"; lit "age"]) = inr [lit "name"; lit "age"].
Proof.
  apply (described_columns_are_the_sanitized_names
           (Sample.describedAs [lit "name"; lit "age"]) [lit "name"; lit "age"]).
  - reflexivity.
  - repeat constructor.
Defined.

Section MoreStaging.
Context `{host : Host}.

(** X4.  A spreadsheet whose first row holds a value that is not a string,
    a number for one, cannot be loaded: the load is rejected before any
    statement is issued.
    When the cells of the first row hold strings only, the table is staged
    with those strings sanitized as its columns, a cell with nothing in it
    staying a hole, and the other rows as its data. *)
Theorem spreadsheet_header_must_be_text :
  forall d filePath rawColumns dataRows,
    readWorksheet d filePath = inr (rawColumns :: dataRows) ->
    (Exists (fun cell => exists v, cell = Some v /\ forall s, v <> JString s) rawColumns ->
     forall offset limit search sql,
     exists e, loadWithExcelJS d filePath offset limit search sql = (Rejected e, []))
    /\ (forall names, rawColumns = mapSparse JString names ->
          excelTable d filePath = stageTable d (mapSparse sanitizeColumnName names) dataRows)
    /\ (forall names, rawColumns = dense (map JString names) ->
          excelTable d filePath
          = stageTable d (dense (map sanitizeColumnName names)) dataRows).
Proof.
  intros d filePath rawColumns dataRows H. split; [| split].
  - intros Hbad offset limit search sql. destruct (sanitizeSparse_not_text _ Hbad) as [e He].
    exists e. unfold loadWithExcelJS, excelTable. rewrite H, He. reflexivity.
  - intros names ->. unfold excelTable. rewrite H, sanitizeSparse_strings. reflexivity.
  - intros names ->. unfold excelTable.
    rewrite H, <- (mapSparse_dense JString), sanitizeSparse_strings, mapSparse_dense.
    reflexivity.
Qed.

(** X5.  Staging a table issues the CREATE TABLE statement first and, only
    when there is at least one data row, the one INSERT after it, and
    nothing else; it stops at the first statement the engine rejects. *)
Theorem staging_issues_create_then_one_insert :
  forall d columns dataRows,
    let create := createTableQuery columns in
    let insert := insertQuery dataRows in
    match stageTable d columns dataRows with
    | Table s cols =>
        cols = columns
        /\ issued s = match dataRows with [] => [create] | _ :: _ => [create; insert] end
    | IngestFailed _ trace =>
        trace = [create] \/ (dataRows <> [] /\ trace = [create; insert])
    | NoTable => False
    end.
Proof.
  intros d columns dataRows create insert. unfold stageTable. fold create. fold insert.
  destruct (run (connect d) create) as [[err |] s0] eqn:H0; apply run_issued in H0;
    simpl in H0.
  { left. exact H0. }
  destruct dataRows as [| row more]; [split; [reflexivity | exact H0] |].
  destruct (run s0 insert) as [[err |] s1] eqn:H1; apply run_issued in H1;
    rewrite H0 in H1; simpl in H1.
  - right. split; [discriminate | exact H1].
  - split; [reflexivity | exact H1].
Qed.

(** X6.  Why a load is rejected once its table is there.  In the staged
    loaders the error is the engine's own when the count or the re-issued
    statement fails, and it is the fixed text about incorrect SQL, whatever
    the engine said, exactly when the data statement fails.  In
    [loadWithDuckDB] every rejection carries the error the engine gave for
    the count, the describe probe, the data statement or its re-issue. *)
Theorem rejections_after_ingestion :
  (forall s cols offset limit search sql e s',
      runQuery s cols offset limit search sql = (Rejected e, s') ->
      let query := stagedQuery cols offset limit search sql in
      all s countQuery = (inl e, s')
      \/ (exists countRows s1 err,
            all s countQuery = (inr countRows, s1) /\ all s1 query = (inl err, s')
            /\ e = Error (lit "Hey! Dude please enter correct SQL.."))
      \/ (exists countRows s1 s2,
            all s countQuery = (inr countRows, s1) /\ all s1 query = (inr [], s2)
            /\ all s2 (query ++ lit " LIMIT 0") = (inl e, s')))
  /\ (forall s query offset limit e s',
        executeQuery s query offset limit = (Rejected e, s') ->
        exists statement before,
          In statement [countQuery; describeQuery; query; query ++ lit " LIMIT 0"]
          /\ all before statement = (inl e, s')).
Proof.
  split.
  - intros s cols offset limit search sql e s'. unfold runQuery. cbv zeta.
    destruct (all s countQuery) as [[err | countRows] s1] eqn:Hc.
    { intros H. injection H as <- <-. left. reflexivity. }
    destruct (totalOf countRows) as [e0 | tot]; [discriminate |].
    destruct (all s1 _) as [[err | rows] s2] eqn:Hq.
    { intros H. injection H as <- <-. right. left. exists countRows, s1, err.
      repeat split. exact Hq. }
    unfold shapeResult. destruct rows as [| first rest]; [| discriminate].
    destruct (all s2 _) as [[err | emptyRows] s3] eqn:Hre; [| discriminate].
    intros H. injection H as <- <-. right. right. exists countRows, s1, s2.
    repeat split; assumption.
  - intros s query offset limit e s'. unfold executeQuery.
    destruct (all s countQuery) as [[err | countRows] s1] eqn:Hc.
    { intros H. injection H as <- <-. exists countQuery, s. split; [left; reflexivity | exact Hc]. }
    destruct (totalOf countRows) as [e0 | tot]; [discriminate |].
    destruct (all s1 describeQuery) as [[err | colRows] s2] eqn:Hd.
    { intros H. injection H as <- <-. exists describeQuery, s1.
      split; [right; left; reflexivity | exact Hd]. }
    destruct (describedColumns colRows) as [e0 | cs]; [discriminate |].
    destruct (all s2 query) as [[err | rows] s3] eqn:Hq.
    { intros H. injection H as <- <-. exists query, s2.
      split; [right; right; left; reflexivity | exact Hq]. }
    unfold shapeResult. destruct rows as [| first rest]; [| discriminate].
    destruct (all s3 _) as [[err | emptyRows] s4] eqn:Hre; [| discriminate].
    intros H. injection H as <- <-. exists (query ++ lit " LIMIT 0"), s3.
    split; [right; right; right; left; reflexivity | exact Hre].
Qed.

End MoreStaging.

Lemma spreadsheet_header_must_be_text_witness :
  exists e,
    @loadWithExcelJS (Fixtures.withSheet Sample.peopleHost Fixtures.numberedSheet)
      [] (lit "/data/book.xlsx") (NInt 0) (NInt 2) None None = (Rejected e, []).
Proof.
  apply (proj1 (@spreadsheet_header_must_be_text
                  (Fixtures.withSheet Sample.peopleHost Fixtures.numberedSheet)
                  [] (lit "/data/book.xlsx")
                  [Some (Sample.str "name"); Some (JNumber (NInt 2024))]
                  [[Some (Sample.str "Bob"); Some (JNumber (NInt 3))]] eq_refl)).
  apply Exists_cons_tl, Exists_cons_hd. eexists. split; [reflexivity |].
  intros s E. discriminate E.
Defined.

(** *** Objects: properties set and read *)

Import Shape.

Lemma eqb_eq a b : eqb a b = true <-> a = b.
Proof. unfold eqb. apply bool_decide_eq_true. Qed.

Lemma eqb_neq a b : eqb a b = false <-> a <> b.
Proof. unfold eqb. apply bool_decide_eq_false. Qed.

Lemma eqb_refl a : eqb a a = true.
Proof. apply eqb_eq. reflexivity. Qed.

Lemma eqb_sym a b : eqb a b = eqb b a.
Proof.
  destruct (eqb b a) eqn:E.
  - apply eqb_eq in E. subst. apply eqb_refl.
  - apply eqb_neq. apply eqb_neq in E. congruence.
Qed.

Lemma existsb_eqb_In key l : existsb (eqb key) l = true <-> In key l.
Proof.
  rewrite existsb_exists. split.
  - intros (x & Hx & E). apply eqb_eq in E. subst x. exact Hx.
  - intros H. exists key. split; [exact H | apply eqb_refl].
Qed.

Lemma hasOwn_In o key : hasOwn o key = true <-> In key (keys o).
Proof. apply existsb_eqb_In. Qed.

Lemma hasOwn_not_In o key : hasOwn o key = false <-> ~ In key (keys o).
Proof.
  rewrite <- hasOwn_In. destruct (hasOwn o key); split; congruence.
Qed.

Lemma getProp_missing o key : ~ In key (keys o) -> getProp o key = JUndefined.
Proof.
  induction o as [| [k v] o IH]; intros H; [reflexivity |]. simpl.
  destruct (eqb k key) eqn:E.
  - apply eqb_eq in E. subst k. destruct H. left. reflexivity.
  - apply IH. intros Hin. apply H. right. exact Hin.
Qed.

Lemma getProp_app a b key :
  getProp (a ++ b) key = if hasOwn a key then getProp a key else getProp b key.
Proof.
  induction a as [| [k v] a IH]; [reflexivity |]. unfold hasOwn in *. simpl.
  rewrite (eqb_sym key k). destruct (eqb k key); [reflexivity | exact IH].
Qed.

Lemma keys_app (a b : object) : keys (a ++ b) = keys a ++ keys b.
Proof. apply map_app. Qed.

Lemma keys_rev (l : object) key : In key (keys (rev l)) <-> In key (keys l).
Proof. unfold keys. rewrite map_rev. symmetry. apply in_rev. Qed.

Lemma keys_replaceProp o key v : keys (replaceProp o key v) = keys o.
Proof.
  induction o as [| [k w] o IH]; [reflexivity |]. simpl.
  destruct (eqb k key); simpl; [reflexivity | f_equal; exact IH].
Qed.

Lemma getProp_replaceProp_same o key v :
  In key (keys o) -> getProp (replaceProp o key v) key = v.
Proof.
  induction o as [| [k w] o IH]; intros H; [destruct H |]. simpl.
  destruct (eqb k key) eqn:E; simpl; rewrite E; [reflexivity |].
  apply IH. destruct H as [H | H]; [| exact H]. apply eqb_neq in E. destruct (E H).
Qed.

Lemma getProp_replaceProp_other o key key' v :
  key <> key' -> getProp (replaceProp o key v) key' = getProp o key'.
Proof.
  intros Hne. induction o as [| [k w] o IH]; [reflexivity |]. simpl.
  destruct (eqb k key) eqn:E; simpl.
  - apply eqb_eq in E. subst k. apply eqb_neq in Hne. rewrite Hne. reflexivity.
  - destruct (eqb k key'); [reflexivity | exact IH].
Qed.

Lemma Add_insertIndexed o n key v :
  List.Add key (keys o) (keys (insertIndexed o n key v)).
Proof.
  induction o as [| [k w] o IH]; simpl; [constructor |].
  destruct (arrayIndex k) as [m |]; [destruct (m <? n) |]; simpl; constructor. exact IH.
Qed.

Lemma getProp_insertIndexed_same o n key v :
  ~ In key (keys o) -> getProp (insertIndexed o n key v) key = v.
Proof.
  induction o as [| [k w] o IH]; intros H; simpl; [rewrite eqb_refl; reflexivity |].
  assert (E : eqb k key = false) by (apply eqb_neq; intros ->; apply H; left; reflexivity).
  assert (H' : ~ In key (keys o)) by (intros Hin; apply H; right; exact Hin).
  destruct (arrayIndex k) as [m |]; [destruct (m <? n) |]; simpl;
    rewrite ?eqb_refl, ?E; auto.
Qed.

Lemma getProp_insertIndexed_other o n key key' v :
  key <> key' -> getProp (insertIndexed o n key v) key' = getProp o key'.
Proof.
  intros Hne. apply eqb_neq in Hne.
  induction o as [| [k w] o IH]; simpl; [rewrite Hne; reflexivity |].
  destruct (arrayIndex k) as [m |]; [destruct (m <? n) |]; simpl; rewrite ?Hne;
    try reflexivity.
  destruct (eqb k key'); [reflexivity | exact IH].
Qed.

Lemma getProp_setProp_same o key v : getProp (setProp o key v) key = v.
Proof.
  unfold setProp. destruct (hasOwn o key) eqn:E.
  - apply getProp_replaceProp_same, hasOwn_In, E.
  - apply hasOwn_not_In in E. destruct (arrayIndex key) as [n |].
    + apply getProp_insertIndexed_same, E.
    + rewrite getProp_app, (proj2 (hasOwn_not_In o key) E). simpl.
      rewrite eqb_refl. reflexivity.
Qed.

Lemma getProp_setProp_other o key key' v :
  key <> key' -> getProp (setProp o key v) key' = getProp o key'.
Proof.
  intros Hne. unfold setProp. destruct (hasOwn o key).
  - apply getProp_replaceProp_other, Hne.
  - destruct (arrayIndex key) as [n |]; [apply getProp_insertIndexed_other, Hne |].
    rewrite getProp_app. destruct (hasOwn o key') eqn:E'; [reflexivity |]. simpl.
    apply eqb_neq in Hne. rewrite Hne. symmetry. apply getProp_missing, hasOwn_not_In, E'.
Qed.

(** A property that is new is added to the keys, somewhere. *)
Lemma Add_setProp o key v :
  ~ In key (keys o) -> List.Add key (keys o) (keys (setProp o key v)).
Proof.
  intros H. unfold setProp. rewrite (proj2 (hasOwn_not_In o key) H).
  destruct (arrayIndex key) as [n |]; [apply Add_insertIndexed |].
  rewrite keys_app. simpl. rewrite <- (app_nil_r (keys o)) at 1. apply Add_app.
Qed.

Lemma keys_setProp_own o key v : In key (keys o) -> keys (setProp o key v) = keys o.
Proof.
  intros H. unfold setProp. rewrite (proj2 (hasOwn_In o key) H). apply keys_replaceProp.
Qed.

Lemma In_dec_keys o key : In key (keys o) \/ ~ In key (keys o).
Proof.
  destruct (hasOwn o key) eqn:E; [left; apply hasOwn_In, E | right; apply hasOwn_not_In, E].
Qed.

Lemma In_keys_setProp o key v k :
  In k (keys (setProp o key v)) <-> In k (keys o) \/ k = key.
Proof.
  destruct (In_dec_keys o key) as [H | H].
  - rewrite (keys_setProp_own _ _ _ H). split; [tauto |]. intros [Hk | ->]; assumption.
  - rewrite (Add_in (Add_setProp o key v H)). simpl. split; intros [Hk | Hk]; auto.
Qed.

Lemma NoDup_snoc {A} (l : list A) (x : A) : List.NoDup l -> ~ In x l -> List.NoDup (l ++ [x]).
Proof.
  intros Hl Hx. induction Hl as [| y l Hy Hl IH]; simpl.
  - constructor; [intros [] | constructor].
  - constructor.
    + rewrite in_app_iff. intros [H | [H | []]]; [exact (Hy H) |].
      apply Hx. left. symmetry. exact H.
    + apply IH. intros H. apply Hx. right. exact H.
Qed.

Lemma NoDup_keys_setProp o key v : List.NoDup (keys o) -> List.NoDup (keys (setProp o key v)).
Proof.
  intros Hnd. destruct (In_dec_keys o key) as [H | H].
  - rewrite (keys_setProp_own _ _ _ H). exact Hnd.
  - apply (NoDup_Add (Add_setProp o key v H)). split; assumption.
Qed.

Lemma Forall_setProp (P : jsval -> Prop) o key v :
  Forall (fun kv => P (snd kv)) o -> P v -> Forall (fun kv => P (snd kv)) (setProp o key v).
Proof.
  intros Ho Hv. unfold setProp. destruct (hasOwn o key).
  - induction Ho as [| [k w] o Hw Ho IH]; simpl; [constructor |].
    destruct (eqb k key); constructor; assumption.
  - destruct (arrayIndex key) as [n |].
    + induction Ho as [| [k w] o Hw Ho IH]; simpl; [repeat constructor; exact Hv |].
      destruct (arrayIndex k) as [m |]; [destruct (m <? n) |]; repeat constructor;
        assumption.
    + apply Forall_app. split; [exact Ho | repeat constructor; exact Hv].
Qed.

(** Where the keys are in the order of an object and the new key comes
    last in that order, the new property is listed last. *)
Lemma enumerated_prefix a b : forall least,
  enumerated least (a ++ b) = true -> enumerated least a = true.
Proof.
  induction a as [| k a IH]; intros least H; [reflexivity |]. simpl in *.
  destruct (arrayIndex k) as [n |].
  - apply andb_true_iff in H as [Hle H]. rewrite Hle. apply (IH _ H).
  - rewrite forallb_app in H. apply andb_true_iff in H as [H _]. exact H.
Qed.

Lemma enumerated_last ks key n : forall least,
  enumerated least (ks ++ [key]) = true -> arrayIndex key = Some n ->
  (least <= n)%N.
Proof.
  induction ks as [| k ks IH]; intros least H Hkey; simpl in H.
  - rewrite Hkey in H. apply andb_true_iff in H as [H _]. apply N.leb_le, H.
  - destruct (arrayIndex k) as [m |].
    + apply andb_true_iff in H as [Hle H]. apply N.leb_le in Hle.
      specialize (IH _ H Hkey). lia.
    + rewrite forallb_app in H. apply andb_true_iff in H as [_ H]. simpl in H.
      unfold named in H. rewrite Hkey in H. discriminate H.
Qed.

Lemma insertIndexed_last o n key v : forall least,
  enumerated least (keys o ++ [key]) = true -> arrayIndex key = Some n ->
  insertIndexed o n key v = o ++ [(key, v)].
Proof.
  induction o as [| [k w] o IH]; intros least H Hkey; [reflexivity |]. simpl in *.
  destruct (arrayIndex k) as [m |].
  - apply andb_true_iff in H as [_ H].
    pose proof (enumerated_last _ _ _ _ H Hkey) as Hlt.
    assert (E : (m <? n) = true) by (apply N.ltb_lt; lia).
    rewrite E, (IH _ H Hkey). reflexivity.
  - rewrite forallb_app in H. apply andb_true_iff in H as [_ H]. simpl in H.
    unfold named in H. rewrite Hkey in H. discriminate H.
Qed.

Lemma setProp_last o key v least :
  ~ In key (keys o) -> enumerated least (keys o ++ [key]) = true ->
  setProp o key v = o ++ [(key, v)].
Proof.
  intros H Hord. unfold setProp. rewrite (proj2 (hasOwn_not_In o key) H).
  destruct (arrayIndex key) as [n |] eqn:Hkey; [| reflexivity].
  apply (insertIndexed_last o n key v least Hord Hkey).
Qed.

Lemma assign_fold target source :
  assign target source = fold_left (fun acc kv => setProp acc (fst kv) (snd kv)) source target.
Proof. reflexivity. Qed.

Lemma NoDup_keys_assign source : forall target,
  List.NoDup (keys target) -> List.NoDup (keys (assign target source)).
Proof.
  induction source as [| [k v] source IH]; intros target H; [exact H |].
  apply IH, NoDup_keys_setProp, H.
Qed.

Lemma Forall_assign (P : jsval -> Prop) source : forall target,
  Forall (fun kv => P (snd kv)) target -> Forall (fun kv => P (snd kv)) source ->
  Forall (fun kv => P (snd kv)) (assign target source).
Proof.
  induction source as [| [k v] source IH]; intros target Ht Hs; [exact Ht |].
  inversion Hs as [| x l Hv Hrest]; subst. apply IH; [| exact Hrest].
  apply Forall_setProp; assumption.
Qed.

Lemma In_keys_assign source : forall target k,
  In k (keys (assign target source)) <-> In k (keys target) \/ In k (keys source).
Proof.
  induction source as [| [k0 v] source IH]; intros target k; [simpl; tauto |].
  change (assign target ((k0, v) :: source)) with (assign (setProp target k0 v) source).
  rewrite IH, In_keys_setProp. simpl. intuition.
Qed.

Lemma getProp_assign source : forall target key,
  List.NoDup (keys source) ->
  getProp (assign target source) key
  = if hasOwn source key then getProp source key else getProp target key.
Proof.
  induction source as [| [k0 v] source IH]; intros target key Hnd; [reflexivity |].
  change (assign target ((k0, v) :: source)) with (assign (setProp target k0 v) source).
  inversion Hnd as [| x l Hk Hrest]; subst.
  rewrite (IH _ _ Hrest).
  change (hasOwn ((k0, v) :: source) key) with (eqb key k0 || hasOwn source key).
  cbn [getProp]. rewrite (eqb_sym key k0).
  destruct (eqb k0 key) eqn:E; cbn [orb].
  - apply eqb_eq in E. subst key.
    rewrite (proj2 (hasOwn_not_In source k0) Hk). apply getProp_setProp_same.
  - destruct (hasOwn source key); [reflexivity |].
    apply getProp_setProp_other. apply eqb_neq, E.
Qed.

Lemma getProp_rev l key : List.NoDup (keys l) -> getProp (rev l) key = getProp l key.
Proof.
  induction l as [| [k v] l IH]; intros Hnd; [reflexivity |].
  inversion Hnd as [| x l' Hk Hrest]; subst. simpl. rewrite getProp_app. simpl.
  destruct (eqb k key) eqn:E.
  - apply eqb_eq in E. subst key.
    assert (H : hasOwn (rev l) k = false) by (apply hasOwn_not_In; rewrite keys_rev; exact Hk).
    rewrite H. reflexivity.
  - destruct (hasOwn (rev l) key) eqn:H; [apply IH, Hrest |].
    apply hasOwn_not_In in H. rewrite keys_rev in H. symmetry. apply getProp_missing, H.
Qed.

(** *** flattenObject *)

(** Induction on a value, with the elements of an array and the properties
    of an object. *)
Lemma jsval_nested_ind (P : jsval -> Prop) :
  P JUndefined -> P JNull -> (forall b, P (JBool b)) -> (forall n, P (JNumber n)) ->
  (forall s, P (JString s)) -> (forall z, P (JBigInt z)) ->
  (forall xs, Forall P xs -> P (JArray xs)) ->
  (forall props, Forall (fun kv => P (snd kv)) props -> P (JObject props)) ->
  forall v, P v.
Proof.
  intros Hu Hn Hb Hnum Hs Hz Harr Hobj. fix IH 1. intros [| | b | n | s | z | xs | props].
  - exact Hu.
  - exact Hn.
  - apply Hb.
  - apply Hnum.
  - apply Hs.
  - apply Hz.
  - apply Harr. induction xs as [| x xs IHxs]; constructor; [apply IH | exact IHxs].
  - apply Hobj. induction props as [| [k v] props IHp]; constructor; [apply IH | exact IHp].
Qed.

(** What [flattenObject] builds has every property [Q] that holds of the
    empty object and is kept when a value that is not a plain object is set
    under a joined key and when the flattening of a plain object under a
    joined key is merged in. *)
Lemma flattenObject_builds (Q : jsstring -> object -> Prop) :
  (forall prefix, Q prefix []) ->
  (forall prefix result key v, Q prefix result -> isPlainObject v = false ->
     Q prefix (setProp result (joinKey prefix key) v)) ->
  (forall prefix result key source, Q prefix result -> Q (joinKey prefix key) source ->
     Q prefix (assign result source)) ->
  forall obj prefix, Q prefix (flattenObject obj prefix).
Proof.
  intros Hnil Hset Hassign obj.
  induction obj as [| | b | n | s | z | xs IHxs | props IHprops] using jsval_nested_ind;
    intros prefix; try apply Hnil.
  - simpl. generalize (Hnil prefix). generalize (@nil (jsstring * jsval)) as result.
    generalize 0 as index. induction s as [| c s IHs]; intros index result Hr; [exact Hr |].
    apply IHs, Hset; [exact Hr | reflexivity].
  - simpl. generalize (Hnil prefix). generalize (@nil (jsstring * jsval)) as result.
    generalize 0 as index.
    induction IHxs as [| v xs Hv _ IHloop]; intros index result Hr; [exact Hr |].
    destruct v; try (apply IHloop, Hset; [exact Hr | reflexivity]).
    apply IHloop, (Hassign _ _ (decimalN index)); [exact Hr | apply Hv].
  - simpl. generalize (Hnil prefix). generalize (@nil (jsstring * jsval)) as result.
    induction IHprops as [| [key v] props Hv _ IHloop]; intros result Hr; [exact Hr |].
    simpl in Hv.
    destruct v; try (apply IHloop, Hset; [exact Hr | reflexivity]).
    apply IHloop, (Hassign _ _ key); [exact Hr | apply Hv].
Qed.

(** The same for a property [Q] of what is built and of the leaves
    visited. *)
Lemma flattenObject_visits (Q : object -> list (jsstring * jsval) -> Prop) :
  Q [] [] ->
  (forall result l key v, Q result l -> isPlainObject v = false ->
     Q (setProp result key v) (l ++ [(key, v)])) ->
  (forall result l source l', Q result l -> Q source l' ->
     Q (assign result source) (l ++ l')) ->
  forall obj prefix, Q (flattenObject obj prefix) (leaves obj prefix).
Proof.
  intros Hnil Hset Hassign obj.
  induction obj as [| | b | n | s | z | xs IHxs | props IHprops] using jsval_nested_ind;
    intros prefix; try exact Hnil.
  - cbn [flattenObject leaves].
    match goal with |- Q (?f s 0 []) (?g s 0) => set (eachF := f); set (eachL := g) end.
    assert (HF : forall c cs index result,
               eachF (c :: cs) index result
               = eachF cs (index + 1)
                   (setProp result (joinKey prefix (decimalN index)) (JString [c])))
      by reflexivity.
    assert (HL : forall c cs index,
               eachL (c :: cs) index
               = (joinKey prefix (decimalN index), JString [c]) :: eachL cs (index + 1))
      by reflexivity.
    assert (HF0 : forall index result, eachF [] index result = result) by reflexivity.
    assert (HL0 : forall index, eachL [] index = []) by reflexivity.
    clearbody eachF eachL.
    assert (Hloop : forall cs index result l,
               Q result l -> Q (eachF cs index result) (l ++ eachL cs index));
      [| exact (Hloop s 0 [] [] Hnil)].
    induction cs as [| c cs IH]; intros index result l Hr.
    + rewrite HF0, HL0, app_nil_r. exact Hr.
    + rewrite HF, HL. change (?x :: ?rest) with ([x] ++ rest). rewrite app_assoc.
      apply IH, Hset; [exact Hr | reflexivity].
  - cbn [flattenObject leaves].
    match goal with |- Q (?f xs 0 []) (?g xs 0) => set (eachF := f); set (eachL := g) end.
    assert (HFo : forall inner vs index result,
               eachF (JObject inner :: vs) index result
               = eachF vs (index + 1)
                   (assign result
                      (flattenObject (JObject inner) (joinKey prefix (decimalN index)))))
      by reflexivity.
    assert (HLo : forall inner vs index,
               eachL (JObject inner :: vs) index
               = leaves (JObject inner) (joinKey prefix (decimalN index))
                   ++ eachL vs (index + 1))
      by reflexivity.
    assert (HF : forall v vs index result, isPlainObject v = false ->
               eachF (v :: vs) index result
               = eachF vs (index + 1) (setProp result (joinKey prefix (decimalN index)) v)).
    { intros v vs index result Hv. destruct v; try discriminate Hv; reflexivity. }
    assert (HL : forall v vs index, isPlainObject v = false ->
               eachL (v :: vs) index
               = (joinKey prefix (decimalN index), v) :: eachL vs (index + 1)).
    { intros v vs index Hv. destruct v; try discriminate Hv; reflexivity. }
    assert (HF0 : forall index result, eachF [] index result = result) by reflexivity.
    assert (HL0 : forall index, eachL [] index = []) by reflexivity.
    clearbody eachF eachL.
    assert (Hloop : forall index result l,
               Q result l -> Q (eachF xs index result) (l ++ eachL xs index));
      [| exact (Hloop 0 [] [] Hnil)].
    induction IHxs as [| v xs Hv _ IHloop]; intros index result l Hr.
    + rewrite HF0, HL0, app_nil_r. exact Hr.
    + destruct (isPlainObject v) eqn:Hplain.
      * destruct v; try discriminate Hplain. rewrite HFo, HLo, app_assoc.
        apply IHloop, Hassign; [exact Hr | apply Hv].
      * rewrite (HF _ _ _ _ Hplain), (HL _ _ _ Hplain).
        change (?x :: ?rest) with ([x] ++ rest). rewrite app_assoc.
        apply IHloop, Hset; [exact Hr | exact Hplain].
  - cbn [flattenObject leaves].
    match goal with |- Q (?f props []) (?g props) => set (eachF := f); set (eachL := g) end.
    assert (HFo : forall key inner ps result,
               eachF ((key, JObject inner) :: ps) result
               = eachF ps (assign result (flattenObject (JObject inner) (joinKey prefix key))))
      by reflexivity.
    assert (HLo : forall key inner ps,
               eachL ((key, JObject inner) :: ps)
               = leaves (JObject inner) (joinKey prefix key) ++ eachL ps)
      by reflexivity.
    assert (HF : forall key v ps result, isPlainObject v = false ->
               eachF ((key, v) :: ps) result
               = eachF ps (setProp result (joinKey prefix key) v)).
    { intros key v ps result Hv. destruct v; try discriminate Hv; reflexivity. }
    assert (HL : forall key v ps, isPlainObject v = false ->
               eachL ((key, v) :: ps) = (joinKey prefix key, v) :: eachL ps).
    { intros key v ps Hv. destruct v; try discriminate Hv; reflexivity. }
    assert (HF0 : forall result, eachF [] result = result) by reflexivity.
    assert (HL0 : eachL [] = []) by reflexivity.
    clearbody eachF eachL.
    assert (Hloop : forall result l, Q result l -> Q (eachF props result) (l ++ eachL props));
      [| exact (Hloop [] [] Hnil)].
    induction IHprops as [| [key v] props Hv _ IHloop]; intros result l Hr.
    + rewrite HF0, HL0, app_nil_r. exact Hr.
    + simpl in Hv. destruct (isPlainObject v) eqn:Hplain.
      * destruct v; try discriminate Hplain. rewrite HFo, HLo, app_assoc.
        apply IHloop, Hassign; [exact Hr | apply Hv].
      * rewrite (HF _ _ _ _ Hplain), (HL _ _ _ Hplain).
        change (?x :: ?rest) with ([x] ++ rest). rewrite app_assoc.
        apply IHloop, Hset; [exact Hr | exact Hplain].
Qed.

(** Flattening sets the leaves one after the other. *)
Lemma flattenObject_holdsLast obj prefix :
  holdsLast (flattenObject obj prefix) (leaves obj prefix).
Proof.
  apply flattenObject_visits.
  - split; [constructor |]. intros key. split; [reflexivity | reflexivity].
  - intros result l key v [Hnd Hr] _. split; [apply NoDup_keys_setProp, Hnd |].
    intros k. destruct (Hr k) as [Hin Hget]. split.
    + rewrite In_keys_setProp, keys_app, in_app_iff, Hin. simpl. intuition.
    + rewrite rev_app_distr. simpl. destruct (eqb key k) eqn:E.
      * apply eqb_eq in E. subst k. apply getProp_setProp_same.
      * rewrite <- Hget. apply getProp_setProp_other, eqb_neq, E.
  - intros result l source l' [Hnd Hr] [Hnd' Hs]. split; [apply NoDup_keys_assign, Hnd |].
    intros k. destruct (Hr k) as [Hin Hget]. destruct (Hs k) as [Hin' Hget']. split.
    + rewrite In_keys_assign, keys_app, in_app_iff, Hin, Hin'. reflexivity.
    + rewrite (getProp_assign _ _ _ Hnd'), rev_app_distr, getProp_app, Hget, Hget'.
      destruct (hasOwn source k) eqn:E.
      * apply hasOwn_In in E. apply Hin' in E. apply keys_rev in E.
        apply hasOwn_In in E. rewrite E. reflexivity.
      * assert (E' : hasOwn (rev l') k = false).
        { apply hasOwn_not_In. rewrite keys_rev, <- Hin'. apply hasOwn_not_In, E. }
        rewrite E'. reflexivity.
Qed.

(** X7.  Flattening leaves no plain object among the values of the
    result, however deep the item is nested and whatever the prefix. *)
Theorem flattenObject_leaves_no_nested_object :
  forall obj prefix,
    Forall (fun kv => isPlainObject (snd kv) = false) (flattenObject obj prefix).
Proof.
  apply (flattenObject_builds
           (fun _ o => Forall (fun kv => isPlainObject (snd kv) = false) o)).
  - constructor.
  - intros prefix result key v Hr Hv.
    apply (Forall_setProp (fun v => isPlainObject v = false)); assumption.
  - intros prefix result key source Hr Hs.
    apply (Forall_assign (fun v => isPlainObject v = false)); assumption.
Qed.

(** X8.  The keys of a flattened item are pairwise distinct, and they are
    the keys that the paths to its leaves join to.  Where two paths join to
    the same key the later value takes the place of the earlier one: the
    value under a key is that of the last leaf, in the order of the visit,
    whose path joins to the key. *)
Theorem flattenObject_keys_are_distinct :
  forall obj prefix,
    List.NoDup (keys (flattenObject obj prefix))
    /\ (forall key,
          In key (keys (flattenObject obj prefix)) <-> In key (keys (leaves obj prefix)))
    /\ (forall earlier key v later,
          leaves obj prefix = earlier ++ (key, v) :: later -> ~ In key (keys later) ->
          getProp (flattenObject obj prefix) key = v).
Proof.
  intros obj prefix. destruct (flattenObject_holdsLast obj prefix) as [Hnd H].
  split; [exact Hnd |]. split; [intros key; apply (H key) |].
  intros earlier key v later Hl Hlast. rewrite (proj2 (H key)), Hl, rev_app_distr.
  simpl. rewrite <- app_assoc, getProp_app.
  assert (E : hasOwn (rev later) key = false).
  { apply hasOwn_not_In. rewrite keys_rev. exact Hlast. }
  rewrite E. simpl. rewrite eqb_refl. reflexivity.
Qed.

Lemma flattenObject_keys_are_distinct_witness :
  leaves Fixtures.clash [] = [(lit "a_b", JNumber (NInt 1)); (lit "a_b", JNumber (NInt 2))]
  /\ getProp (flattenObject Fixtures.clash []) (lit "a_b") = JNumber (NInt 2)
  /\ keys (flattenObject Fixtures.clash []) = [lit "a_b"].
Proof.
  split; [reflexivity |]. split; [| reflexivity].
  apply (proj2 (proj2 (flattenObject_keys_are_distinct Fixtures.clash []))
           [(lit "a_b", JNumber (NInt 1))] (lit "a_b") (JNumber (NInt 2)) []).
  - reflexivity.
  - intros [].
Defined.

Lemma joinKey_prefixed prefix key : prefix <> [] -> joinKey prefix key = prefix ++ lit "_" ++ key.
Proof.
  intros H. unfold joinKey, truthy. apply eqb_neq in H. rewrite H. reflexivity.
Qed.

Lemma leaves_of_object props prefix key :
  In key (keys (leaves (JObject props) prefix))
  <-> exists k v,
        In (k, v) props
        /\ if isPlainObject v then In key (keys (leaves v (joinKey prefix k)))
           else key = joinKey prefix k.
Proof.
  cbn [leaves].
  match goal with |- In key (keys (?g props)) <-> _ => set (eachL := g) end.
  assert (HLo : forall k inner ps,
             eachL ((k, JObject inner) :: ps)
             = leaves (JObject inner) (joinKey prefix k) ++ eachL ps)
    by reflexivity.
  assert (HL : forall k v ps, isPlainObject v = false ->
             eachL ((k, v) :: ps) = (joinKey prefix k, v) :: eachL ps).
  { intros k v ps Hv. destruct v; try discriminate Hv; reflexivity. }
  assert (HL0 : eachL [] = []) by reflexivity.
  clearbody eachL.
  induction props as [| [k v] props IH].
  - rewrite HL0. split; [intros [] | intros (k & v & [] & _)].
  - destruct (isPlainObject v) eqn:Hplain.
    + destruct v; try discriminate Hplain. rewrite HLo, keys_app, in_app_iff, IH. split.
      * intros [H | (k' & v' & Hin & H)].
        -- exists k, (JObject props0). split; [left; reflexivity | exact H].
        -- exists k', v'. split; [right; exact Hin | exact H].
      * intros (k' & v' & [E | Hin] & H).
        -- injection E as <- <-. left. exact H.
        -- right. exists k', v'. split; [exact Hin | exact H].
    + rewrite (HL _ _ _ Hplain). simpl. rewrite IH. split.
      * intros [H | (k' & v' & Hin & H)].
        -- exists k, v. rewrite Hplain. split; [left; reflexivity | symmetry; exact H].
        -- exists k', v'. split; [right; exact Hin | exact H].
      * intros (k' & v' & [E | Hin] & H).
        -- injection E as <- <-. rewrite Hplain in H. left. symmetry. exact H.
        -- right. exists k', v'. split; [exact Hin | exact H].
Qed.

(** X9.  The keys of a flattened object are, for each property that is not
    a plain object, the name of the property joined to the prefix and, for
    each property that is one, the keys of its own flattening under the
    prefix joined with the name of the property.  The keys of a nested object
    therefore carry the whole path that leads to it, and under a prefix that
    is not empty every key starts with the prefix and an underscore. *)
Theorem flattenObject_keys_carry_the_prefix :
  (forall props prefix key,
      In key (keys (flattenObject (JObject props) prefix))
      <-> exists k v,
            In (k, v) props
            /\ if isPlainObject v
               then In key (keys (flattenObject v (joinKey prefix k)))
               else key = joinKey prefix k)
  /\ (forall obj prefix key,
        prefix <> [] -> In key (keys (flattenObject obj prefix)) -> prefixed prefix key)
  /\ (forall props prefix k inner key,
        In (k, JObject inner) props -> joinKey prefix k <> [] ->
        In key (keys (flattenObject (JObject inner) (joinKey prefix k))) ->
        In key (keys (flattenObject (JObject props) prefix))
        /\ prefixed (joinKey prefix k) key).
Proof.
  assert (Hlevel : forall props prefix key,
             In key (keys (flattenObject (JObject props) prefix))
             <-> exists k v,
                   In (k, v) props
                   /\ if isPlainObject v
                      then In key (keys (flattenObject v (joinKey prefix k)))
                      else key = joinKey prefix k).
  { intros props prefix key.
    rewrite (proj1 (proj2 (flattenObject_holdsLast (JObject props) prefix) key)).
    rewrite leaves_of_object. split; intros (k & v & Hin & H); exists k, v;
      (split; [exact Hin |]); destruct (isPlainObject v); try exact H.
    - apply (proj2 (flattenObject_holdsLast v (joinKey prefix k))), H.
    - apply (proj2 (flattenObject_holdsLast v (joinKey prefix k))), H. }
  assert (Hprefixed : forall obj prefix key,
             prefix <> [] -> In key (keys (flattenObject obj prefix)) -> prefixed prefix key).
  { intros obj prefix key Hne Hin. revert key Hin Hne.
    apply (flattenObject_builds
             (fun prefix o =>
                forall key, In key (keys o) -> prefix <> [] -> prefixed prefix key)).
    - intros p key [].
    - intros p result k v Hr _ key Hin Hne.
      apply In_keys_setProp in Hin as [Hin | ->]; [apply Hr; assumption |].
      exists k. apply joinKey_prefixed, Hne.
    - intros p result k source Hr Hs key Hin Hne.
      apply In_keys_assign in Hin as [Hin | Hin]; [apply Hr; assumption |].
      rewrite (joinKey_prefixed p k Hne) in Hs.
      destruct (Hs key Hin) as [rest ->]; [destruct p; discriminate |].
      exists (k ++ lit "_" ++ rest). rewrite <- !app_assoc. reflexivity. }
  split; [exact Hlevel |]. split; [exact Hprefixed |].
  intros props prefix k inner key Hin Hne Hkey. split.
  - apply Hlevel. exists k, (JObject inner). split; [exact Hin | exact Hkey].
  - apply (Hprefixed _ _ _ Hne Hkey).
Qed.

Lemma flattenObject_keys_carry_the_prefix_witness :
  In (lit "order_customer_city") (keys (flattenObject Fixtures.order (lit "order")))
  /\ prefixed (lit "order_customer") (lit "order_customer_city").
Proof.
  apply (proj2 (proj2 flattenObject_keys_carry_the_prefix)
           [(lit "id", JNumber (NInt 7));
            (lit "customer", JObject [(lit "name", Sample.str "Ann");
                                      (lit "city", Sample.str "Oslo")]);
            (lit "tags", JArray [Sample.str "a"; Sample.str "b"])]
           (lit "order") (lit "customer")
           [(lit "name", Sample.str "Ann"); (lit "city", Sample.str "Oslo")]
           (lit "order_customer_city")).
  - right. left. reflexivity.
  - intros E. vm_compute in E. discriminate E.
  - vm_compute. right. left. reflexivity.
Defined.

Lemma leaves_of_flat props :
  Forall (fun kv => isPlainObject (snd kv) = false) props -> leaves (JObject props) [] = props.
Proof.
  intros Hflat. cbn [leaves].
  match goal with |- ?g props = _ => set (eachL := g) end.
  assert (HL : forall k v ps, isPlainObject v = false ->
             eachL ((k, v) :: ps) = (k, v) :: eachL ps).
  { intros k v ps Hv. destruct v; try discriminate Hv; reflexivity. }
  assert (HL0 : eachL [] = []) by reflexivity.
  clearbody eachL.
  induction Hflat as [| [k v] props Hv _ IH]; [exact HL0 |].
  simpl in Hv. rewrite (HL _ _ _ Hv), IH. reflexivity.
Qed.

(** X10.  An item whose properties have distinct keys and no plain object
    among their values is its own flattening: same keys, and the same value
    under each; in the same order when the properties are listed as an object
    lists them, array indices first and ascending. *)
Theorem flattenObject_of_flat_item :
  forall props,
    List.NoDup (keys props) -> Forall (fun kv => isPlainObject (snd kv) = false) props ->
    (forall key, In key (keys (flattenObject (JObject props) [])) <-> In key (keys props))
    /\ (forall key, getProp (flattenObject (JObject props) []) key = getProp props key)
    /\ (ownKeyOrder (keys props) = true -> flattenObject (JObject props) [] = props).
Proof.
  intros props Hnd Hflat.
  destruct (flattenObject_holdsLast (JObject props) []) as [_ Hlast].
  rewrite (leaves_of_flat props Hflat) in Hlast.
  split; [intros key; apply (Hlast key) |].
  split; [intros key; rewrite (proj2 (Hlast key)); apply getProp_rev, Hnd |].
  clear Hlast. unfold ownKeyOrder. intros Hord. cbn [flattenObject].
  match goal with |- ?f props [] = _ => set (each := f) end.
  assert (Hstep : forall key v ps result, isPlainObject v = false ->
                    each ((key, v) :: ps) result = each ps (setProp result key v)).
  { intros key v ps result Hv. destruct v; try discriminate Hv; reflexivity. }
  assert (Hstop : forall result, each [] result = result) by reflexivity.
  clearbody each.
  change props with ([] ++ props) at 2. revert Hnd Hord.
  change props with ([] ++ props) at 1 2.
  generalize (@nil (jsstring * jsval)) as result. revert Hflat.
  induction props as [| [key v] props IH]; intros Hflat result Hnd Hord.
  - rewrite Hstop, app_nil_r. reflexivity.
  - inversion Hflat as [| x l Hv Hrest]; subst. simpl in Hv.
    assert (Hkeys : keys (result ++ (key, v) :: props) = (keys result ++ [key]) ++ keys props).
    { rewrite keys_app, <- app_assoc. reflexivity. }
    assert (Hfresh : ~ In key (keys result)).
    { rewrite keys_app in Hnd. simpl in Hnd.
      apply List.NoDup_remove_2 in Hnd. intros Hin. apply Hnd, in_or_app. left. exact Hin. }
    assert (Hlast : enumerated 0 (keys result ++ [key]) = true).
    { rewrite Hkeys in Hord. apply (enumerated_prefix _ _ _ Hord). }
    assert (Hnext : (result ++ [(key, v)]) ++ props = result ++ (key, v) :: props).
    { rewrite <- app_assoc. reflexivity. }
    rewrite (Hstep _ _ _ _ Hv), (setProp_last result key _ 0 Hfresh Hlast).
    rewrite <- Hnext in Hnd, Hord |- *. apply (IH Hrest _ Hnd Hord).
Qed.

Lemma flattenObject_of_flat_item_witness :
  flattenObject (JObject Fixtures.plainRow) [] = Fixtures.plainRow.
Proof.
  assert (Hnd : List.NoDup (keys Fixtures.plainRow)).
  { apply List.NoDup_cons.
    - intros [H | []]. vm_compute in H. discriminate H.
    - apply List.NoDup_cons; [intros [] | apply List.NoDup_nil]. }
  assert (Hflat : Forall (fun kv => isPlainObject (snd kv) = false) Fixtures.plainRow)
    by repeat constructor.
  apply (proj2 (proj2 (flattenObject_of_flat_item Fixtures.plainRow Hnd Hflat))).
  reflexivity.
Defined.

(** *** Columns and cells of the markup loader *)

Lemma addKey_In acc key k : In k (addKey acc key) <-> In k acc \/ k = key.
Proof.
  unfold addKey. destruct (existsb (eqb key) acc) eqn:E.
  - apply existsb_eqb_In in E. split; [tauto |]. intros [H | ->]; assumption.
  - rewrite in_app_iff. simpl. intuition.
Qed.

Lemma addKey_NoDup acc key : List.NoDup acc -> List.NoDup (addKey acc key).
Proof.
  intros H. unfold addKey. destruct (existsb (eqb key) acc) eqn:E; [exact H |].
  apply NoDup_snoc; [exact H |]. intros Hin. apply existsb_eqb_In in Hin. congruence.
Qed.

Lemma addKeys_spec ks : forall acc,
  List.NoDup acc ->
  List.NoDup (fold_left addKey ks acc)
  /\ forall k, In k (fold_left addKey ks acc) <-> In k acc \/ In k ks.
Proof.
  induction ks as [| key ks IH]; intros acc Hacc; simpl.
  - split; [exact Hacc |]. intros k. tauto.
  - destruct (IH (addKey acc key) (addKey_NoDup acc key Hacc)) as [Hnd Hin].
    split; [exact Hnd |]. intros k. rewrite Hin, addKey_In. intuition.
Qed.

Lemma allKeys_from items : forall acc,
  List.NoDup acc ->
  let result := fold_left (fun acc item => fold_left addKey (keys item) acc) items acc in
  List.NoDup result
  /\ forall k, In k result <-> In k acc \/ exists item, In item items /\ In k (keys item).
Proof.
  induction items as [| item items IH]; intros acc Hacc; simpl.
  - split; [exact Hacc |]. intros k. split; [tauto |]. intros [H | (item & [] & _)]. exact H.
  - destruct (addKeys_spec (keys item) acc Hacc) as [Hnd Hin].
    destruct (IH _ Hnd) as [Hnd' Hin']. split; [exact Hnd' |].
    intros k. rewrite Hin', Hin. split.
    + intros [[H | H] | (it & Hit & Hk)]; [left; exact H | right; exists item; auto |].
      right. exists it. auto.
    + intros [H | (it & [<- | Hit] & Hk)]; [auto | auto |]. right. exists it. auto.
Qed.

(** X11.  The columns of a markup document are gathered as a set: a key is
    among them exactly when some flattened item has it, and no key is
    listed twice, however many items share it. *)
Theorem allKeys_lists_each_key_once :
  forall flattenedItems,
    List.NoDup (allKeys flattenedItems)
    /\ forall key,
         In key (allKeys flattenedItems)
         <-> exists item, In item flattenedItems /\ In key (keys item).
Proof.
  intros items. destruct (allKeys_from items [] (List.NoDup_nil _)) as [Hnd Hin].
  split; [exact Hnd |]. intros key. unfold allKeys. rewrite Hin. simpl. tauto.
Qed.



(** *** The cells of a page *)

Lemma getProp_in_order (f : jsval -> jsval) row :
  List.NoDup (keys row) ->
  map (fun col => f (getProp row col)) (keys row) = map (fun kv => f (snd kv)) row.
Proof.
  induction row as [| [k v] row IH]; intros Hnd; [reflexivity |].
  inversion Hnd as [| x l Hk Hrest]; subst. simpl. rewrite eqb_refl. f_equal.
  rewrite <- (IH Hrest). apply map_ext_in. intros col Hcol.
  assert (E : eqb k col = false) by (apply eqb_neq; intros ->; exact (Hk Hcol)).
  rewrite E. reflexivity.
Qed.

Section Cells.
Context `{host : Host}.

(** X13.  When the engine answers with rows that all have the keys of the
    first one, distinct and free of white space, the page resolves with
    those keys as columns and, row by row, the values in key order, wide
    integers as their decimal strings; nothing more is issued. *)
Theorem page_holds_the_values_in_key_order :
  forall s query offset limit total first rest,
    List.NoDup (keys first) -> Forall solid (keys first) ->
    Forall (fun row => keys row = keys first) rest ->
    shapeResult s query offset limit total (first :: rest)
    = (Resolved (mkPage (keys first)
                   (map (fun row => map (fun kv => normalizeValue (snd kv)) row) (first :: rest))
                   offset limit total), s).
Proof.
  intros s query offset limit total first rest Hnd Hsolid Hsame.
  unfold shapeResult, returnData, processRows. rewrite (sanitize_solid_names _ Hsolid).
  assert (Hrows : forall l : list object, incl l (first :: rest) ->
            map (fun row => map (fun col => normalizeValue (getProp row col)) (keys first)) l
            = map (fun row => map (fun kv => normalizeValue (snd kv)) row) l);
    [| rewrite (Hrows _ (incl_refl _)); reflexivity].
  intros l Hl. apply map_ext_in. intros row Hrow. apply Hl in Hrow.
  assert (Hkeys : keys row = keys first).
  { destruct Hrow as [<- | Hrow]; [reflexivity |].
    rewrite List.Forall_forall in Hsame. apply Hsame, Hrow. }
  rewrite <- Hkeys. apply getProp_in_order. rewrite Hkeys. exact Hnd.
Qed.

(** X14.  The cells of a page are read under the sanitized column name:
    where a key of the first row has white space in it and the row at hand
    has no key equal to the sanitized name, the page resolves with the
    sanitized name as the column and [undefined] as the cell. *)
Theorem key_with_white_space_reads_undefined :
  forall s query offset limit total first rest i key n row,
    nth_error (keys first) i = Some key ->
    nth_error (first :: rest) n = Some row ->
    ~ In (sanitizeColumnName key) (keys row) ->
    exists page,
      shapeResult s query offset limit total (first :: rest) = (Resolved page, s)
      /\ nth_error (columns page) i = Some (sanitizeColumnName key)
      /\ exists cells,
           nth_error (rows page) n = Some cells /\ nth_error cells i = Some JUndefined.
Proof.
  intros s query offset limit total first rest i key n row Hi Hn Hmissing.
  eexists. split; [reflexivity |].
  assert (Hcol : nth_error (map sanitizeColumnName (keys first)) i
                 = Some (sanitizeColumnName key)) by apply map_nth_error, Hi.
  split; [exact Hcol |]. unfold returnData. cbn [rows]. unfold processRows.
  eexists. split; [apply map_nth_error, Hn |].
  rewrite (map_nth_error _ _ _ Hcol), (getProp_missing _ _ Hmissing). reflexivity.
Qed.

End Cells.

Lemma page_holds_the_values_in_key_order_witness :
  let s := @connect Sample.peopleHost [] in
  @shapeResult Sample.peopleHost s (lit "SELECT * FROM data") (NInt 0) (NInt 10)
    (JNumber (NInt 1)) [Fixtures.plainRow]
  = (Resolved (mkPage [lit "name"; lit "age"] [[Sample.str "Bob"; Sample.str "25"]]
                 (NInt 0) (NInt 10) (JNumber (NInt 1))), s).
Proof.
  intros s.
  apply (@page_holds_the_values_in_key_order Sample.peopleHost s (lit "SELECT * FROM data")
           (NInt 0) (NInt 10) (JNumber (NInt 1)) Fixtures.plainRow []).
  - apply List.NoDup_cons.
    + intros [H | []]. vm_compute in H. discriminate H.
    + apply List.NoDup_cons; [intros [] | apply List.NoDup_nil].
  - repeat constructor.
  - constructor.
Defined.

Lemma key_with_white_space_reads_undefined_witness :
  let s := @connect Sample.staffHost [] in
  exists page,
    @shapeResult Sample.staffHost s (lit "SELECT * FROM data") (NInt 0) (NInt 10)
      (JNumber (NInt 1)) [Fixtures.staffRow] = (Resolved page, s)
    /\ nth_error (columns page) 0 = Some (lit "first_name")
    /\ exists cells,
         nth_error (rows page) 0 = Some cells /\ nth_error cells 0%nat = Some JUndefined.
Proof.
  intros s.
  apply (@key_with_white_space_reads_undefined Sample.staffHost s (lit "SELECT * FROM data")
           (NInt 0) (NInt 10) (JNumber (NInt 1)) Fixtures.staffRow [] 0%nat (lit "first name")
           0%nat Fixtures.staffRow).
  - reflexivity.
  - reflexivity.
  - intros [H | [H | []]]; vm_compute in H; discriminate H.
Defined.

(** *** Records of the JSON output *)

Lemma NoDup_app_disjoint {A} (l1 l2 : list A) :
  List.NoDup (l1 ++ l2) -> forall a, In a l1 -> ~ In a l2.
Proof.
  induction l1 as [| x l1 IH]; intros Hnd a Hin; [destruct Hin |]. simpl in Hnd.
  inversion Hnd as [| y l Hx Hrest]; subst. destruct Hin as [-> | Hin].
  - intros H. apply Hx, in_or_app. right. exact H.
  - apply (IH Hrest a Hin).
Qed.

Lemma recordOf_from row cs : forall a acc,
  List.NoDup (keys acc ++ cs) ->
  let result :=
    fold_left (fun obj ci => setProp obj (snd ci) (nth (fst ci) row JUndefined))
      (combine (seq a (length cs)) cs) acc in
  (forall i col, nth_error cs i = Some col ->
     getProp result col = nth (a + i) row JUndefined)
  /\ (forall key, ~ In key cs -> getProp result key = getProp acc key)
  /\ (forall key, In key (keys result) <-> In key (keys acc) \/ In key cs)
  /\ List.NoDup (keys result)
  /\ (ownKeyOrder (keys acc ++ cs) = true -> keys result = keys acc ++ cs).
Proof.
  induction cs as [| c cs IH]; intros a acc Hnd; simpl.
  - rewrite app_nil_r in Hnd. split; [intros [| i] col H; discriminate H |].
    split; [reflexivity |]. split; [intros key; tauto |]. split; [exact Hnd |].
    intros _. rewrite app_nil_r. reflexivity.
  - assert (Hc : ~ In c (keys acc) /\ ~ In c cs).
    { apply List.NoDup_remove_2 in Hnd. rewrite in_app_iff in Hnd. tauto. }
    destruct Hc as [Hc1 Hc2].
    assert (Hnd' : List.NoDup (keys (setProp acc c (nth a row JUndefined)) ++ cs)).
    { apply List.NoDup_remove in Hnd as [Hnd _].
      apply List.NoDup_app.
      - apply NoDup_keys_setProp, (List.NoDup_app_remove_r _ _ Hnd).
      - apply (List.NoDup_app_remove_l _ _ Hnd).
      - intros key Hkey Hin.
        apply In_keys_setProp in Hkey as [Hkey | ->]; [| exact (Hc2 Hin)].
        exact (NoDup_app_disjoint _ _ Hnd key Hkey Hin). }
    destruct (IH (S a) _ Hnd') as (Hget & Hkeep & Hin & Hnd2 & Hord).
    split; [| split; [| split; [| split]]].
    + intros [| i] col H.
      * injection H as <-. rewrite (Hkeep c Hc2), getProp_setProp_same, Nat.add_0_r.
        reflexivity.
      * rewrite (Hget i col H). f_equal. lia.
    + intros key Hkey. rewrite Hkeep by tauto.
      apply getProp_setProp_other. intros ->. apply Hkey. left. reflexivity.
    + intros key. rewrite Hin, In_keys_setProp. intuition.
    + exact Hnd2.
    + intros Hordered.
      assert (Hsplit : keys acc ++ c :: cs = (keys acc ++ [c]) ++ cs).
      { rewrite <- app_assoc. reflexivity. }
      rewrite Hsplit in Hordered.
      assert (Hlast : setProp acc c (nth a row JUndefined)
                      = acc ++ [(c, nth a row JUndefined)]).
      { apply (setProp_last acc c _ 0 Hc1). apply (enumerated_prefix _ _ _ Hordered). }
      assert (Hkeys : keys (setProp acc c (nth a row JUndefined)) = keys acc ++ [c]).
      { rewrite Hlast, keys_app. reflexivity. }
      rewrite Hord; rewrite Hkeys; [symmetry; exact Hsplit | exact Hordered].
Qed.

(** X15.  With pairwise distinct column names, a record of the JSON output
    has under each column the cell of the row at the column's position,
    [undefined] when the row is shorter, and the columns as its keys, each
    once.  The keys are listed in the order of the columns when no column
    that is an array index, as [7] or [2020] is, comes after a column that is
    not one or after a greater index; an object lists its array indices
    first, in ascending order. *)
Theorem recordOf_pairs_columns_with_cells :
  forall columns row,
    List.NoDup columns ->
    (forall i col, nth_error columns i = Some col ->
       getProp (recordOf columns row) col = nth i row JUndefined)
    /\ (forall key, In key (keys (recordOf columns row)) <-> In key columns)
    /\ List.NoDup (keys (recordOf columns row))
    /\ (ownKeyOrder columns = true -> keys (recordOf columns row) = columns).
Proof.
  intros columns row Hnd.
  destruct (recordOf_from row columns 0%nat [] Hnd) as (Hget & _ & Hin & Hnd' & Hord).
  split; [exact Hget |]. split; [| split; [exact Hnd' | exact Hord]].
  intros key. rewrite (Hin key). simpl. tauto.
Qed.

Lemma recordOf_pairs_columns_with_cells_witness :
  let columns := [lit "name"; lit "2020"; lit "7"] in
  let row := [Sample.str "Bob"; JNumber (NInt 3)] in
  getProp (recordOf columns row) (lit "2020") = JNumber (NInt 3)
  /\ getProp (recordOf columns row) (lit "7") = JUndefined
  /\ keys (recordOf columns row) = [lit "7"; lit "2020"; lit "name"]
  /\ keys (recordOf [lit "name"; lit "age"] row) = [lit "name"; lit "age"].
Proof.
  intros columns row.
  assert (Hnd : List.NoDup columns).
  { apply List.NoDup_cons; [intros [H | [H | []]]; vm_compute in H; discriminate H |].
    apply List.NoDup_cons; [intros [H | []]; vm_compute in H; discriminate H |].
    apply List.NoDup_cons; [intros [] | apply List.NoDup_nil]. }
  assert (Hnd' : List.NoDup [lit "name"; lit "age"]).
  { apply List.NoDup_cons; [intros [H | []]; vm_compute in H; discriminate H |].
    apply List.NoDup_cons; [intros [] | apply List.NoDup_nil]. }
  destruct (recordOf_pairs_columns_with_cells columns row Hnd) as (Hget & _).
  split; [apply (Hget 1%nat (lit "2020") eq_refl) |].
  split; [apply (Hget 2%nat (lit "7") eq_refl) |].
  split; [reflexivity |].
  apply (proj2 (proj2 (proj2 (recordOf_pairs_columns_with_cells _ row Hnd')))).
  reflexivity.
Defined.

(** *** The statement made from the sql argument *)

Lemma spacesApart_collapsed inRun s :
  spacesApart inRun (replaceRunsFrom (lit " ") inRun s) = true.
Proof.
  revert inRun. induction s as [| c s IH]; intros inRun; [reflexivity |]. simpl.
  destruct (isWhiteSpace c) eqn:Hc.
  - destruct inRun; [apply IH |]. simpl. apply IH.
  - simpl. rewrite Hc. apply IH.
Qed.

Lemma spacesApart_weaken s : spacesApart true s = true -> spacesApart false s = true.
Proof.
  destruct s as [| c s]; [reflexivity |]. simpl.
  destruct (isWhiteSpace c); [discriminate | trivial].
Qed.

Lemma spacesApart_trimStart s :
  spacesApart false s = true -> spacesApart false (trimStart s) = true.
Proof.
  induction s as [| c s IH]; [reflexivity |]. intros H. simpl.
  destruct (isWhiteSpace c) eqn:Hc; [| exact H].
  apply IH, spacesApart_weaken. simpl in H. rewrite Hc in H.
  apply andb_true_iff in H as [_ H]. exact H.
Qed.

Lemma startsWhite_trimStart s : startsWhite (trimStart s) = false.
Proof.
  induction s as [| c s IH]; [reflexivity |]. simpl.
  destruct (isWhiteSpace c) eqn:Hc; [exact IH | exact Hc].
Qed.

Lemma trimStart_suffix s : exists ws, blank ws /\ s = ws ++ trimStart s.
Proof.
  induction s as [| c s (ws & Hws & IH)]; [exists []; split; [constructor | reflexivity] |].
  simpl. destruct (isWhiteSpace c) eqn:Hc.
  - exists (c :: ws). split; [constructor; assumption |]. simpl. f_equal. exact IH.
  - exists []. split; [constructor | reflexivity].
Qed.

Lemma blank_rev s : blank s -> blank (rev s).
Proof.
  unfold blank. rewrite !List.Forall_forall. intros H c Hc. apply H, in_rev, Hc.
Qed.

Lemma trimEnd_prefix s : exists ws, blank ws /\ s = trimEnd s ++ ws.
Proof.
  destruct (trimStart_suffix (rev s)) as (ws & Hws & E). exists (rev ws).
  split; [apply blank_rev, Hws |].
  unfold trimEnd. rewrite <- rev_app_distr, <- E, rev_involutive. reflexivity.
Qed.

Lemma spacesApart_prefix a b : forall p,
  spacesApart p (a ++ b) = true -> spacesApart p a = true.
Proof.
  induction a as [| c a IH]; intros p H; [reflexivity |]. simpl in *.
  destruct (isWhiteSpace c).
  - apply andb_true_iff in H as [H1 H2]. rewrite H1. apply (IH _ H2).
  - apply (IH _ H).
Qed.

Lemma startsWhite_prefix a b : startsWhite (a ++ b) = false -> startsWhite a = false.
Proof. destruct a; [reflexivity | trivial]. Qed.

Lemma trimStart_empty s : trimStart s = [] <-> blank s.
Proof.
  induction s as [| c s IH]; [split; [constructor | reflexivity] |]. simpl.
  destruct (isWhiteSpace c) eqn:Hc.
  - rewrite IH. split; [constructor; assumption |].
    intros H. inversion H; assumption.
  - split; [discriminate |]. intros H. inversion H; congruence.
Qed.

Lemma trimEnd_empty s : trimEnd s = [] <-> blank s.
Proof.
  unfold trimEnd. split.
  - intros H. apply (f_equal (@rev N)) in H. rewrite rev_involutive in H. simpl in H.
    apply trimStart_empty, blank_rev in H. rewrite rev_involutive in H. exact H.
  - intros H. apply blank_rev, trimStart_empty in H. rewrite H. reflexivity.
Qed.

Lemma blank_app a b : blank (a ++ b) <-> blank a /\ blank b.
Proof. unfold blank. apply List.Forall_app. Qed.

Lemma trim_empty s : trim s = [] <-> blank s.
Proof.
  unfold trim. rewrite trimEnd_empty.
  destruct (trimStart_suffix s) as (ws & Hws & E). split.
  - intros H. rewrite E. apply blank_app. split; assumption.
  - intros H. rewrite E in H. apply blank_app in H as [_ H]. exact H.
Qed.

Lemma blank_collapsed inRun s : blank (replaceRunsFrom (lit " ") inRun s) <-> blank s.
Proof.
  revert inRun. induction s as [| c s IH]; intros inRun; [reflexivity |]. simpl.
  destruct (isWhiteSpace c) eqn:Hc.
  - assert (Hrest : blank (c :: s) <-> blank s).
    { split; [intros H; inversion H; assumption | constructor; assumption]. }
    rewrite Hrest. destruct inRun; [apply IH |].
    split; intros H.
    + apply List.Forall_inv_tail in H. apply IH in H. exact H.
    + apply List.Forall_cons; [reflexivity | apply IH, H].
  - split; intros H; inversion H; congruence.
Qed.

(** X16.  The statement made from the sql argument has no white space at
    its ends and none inside but single spaces, each between two other code
    units; this holds for the whole text, quoted parts included.  It is
    empty exactly when the argument is empty after trimming, so never when
    the argument counts as given. *)
Theorem customQuery_is_single_spaced :
  forall sql,
    singleSpaced (customQuery sql) = true
    /\ (customQuery sql = [] <-> trim sql = [])
    /\ (provided (Some sql) = true <-> customQuery sql <> []).
Proof.
  intros sql. unfold customQuery, replaceWhiteSpaceRuns.
  set (out := replaceRunsFrom (lit " ") false sql).
  assert (Hempty : trim out = [] <-> trim sql = []).
  { rewrite !trim_empty. apply blank_collapsed. }
  split; [| split; [exact Hempty |]].
  - unfold trim. destruct (trimEnd_prefix (trimStart out)) as (ws & _ & E).
    unfold singleSpaced. rewrite !andb_true_iff, !negb_true_iff. repeat split.
    + apply (spacesApart_prefix _ ws). rewrite <- E.
      apply spacesApart_trimStart, spacesApart_collapsed.
    + apply (startsWhite_prefix _ ws). rewrite <- E. apply startsWhite_trimStart.
    + unfold endsWhite, trimEnd. rewrite rev_involutive. apply startsWhite_trimStart.
  - rewrite provided_trim, Hempty. reflexivity.
Qed.

(** *** withRetry: calls and waits *)

Import Extension Retrying.

Section Calls.
Context {W : Type}.
Variable operation : W -> option JsError * W.
Variable onRetry : option (Z -> JsError -> W -> W).

Lemma retryLoop_counted maxAttempts delayMs fuel :
  forall attempt w n r w' calls delays,
    fuel = Z.to_nat (maxAttempts - attempt + 1) -> (attempt <= maxAttempts)%Z ->
    retryLoop (counted operation) (option_map aside onRetry) fuel attempt maxAttempts
      delayMs (w, n) = (r, (w', calls), delays) ->
    calls = (n + S (length delays))%nat.
Proof.
  induction fuel as [| fuel IH]; intros attempt w n r w' calls delays Hfuel Hle; [lia |].
  cbn [retryLoop]. unfold counted at 1. cbn [fst snd].
  destruct (operation w) as [[err |] w1].
  - destruct ((attempt =? maxAttempts)%Z || negb (lockCode err)) eqn:Hstop.
    + intros H. injection H as <- <- <- <-. simpl. lia.
    + apply orb_false_iff in Hstop as [Hnot _]. apply Z.eqb_neq in Hnot.
      assert (Hw2 : exists w2, (match option_map aside onRetry with
                                | Some log => log attempt err (w1, S n)
                                | None => (w1, S n)
                                end) = (w2, S n)).
      { destruct onRetry as [log |]; simpl; eexists; reflexivity. }
      destruct Hw2 as [w2 Hw2]. rewrite Hw2.
      destruct (retryLoop (counted operation) (option_map aside onRetry) fuel (attempt + 1)
                  maxAttempts delayMs (w2, S n)) as [[r0 [w3 c3]] delays0] eqn:Hrec.
      intros H. injection H as <- <- <- <-.
      apply IH in Hrec; [| lia | lia]. simpl. lia.
  - intros H. injection H as <- <- <- <-. simpl. lia.
Qed.

Lemma totalWait_app a b : totalWait (a ++ b) = (totalWait a + totalWait b)%Z.
Proof.
  unfold totalWait. induction a as [| x a IH]; simpl; [reflexivity |]. rewrite IH. lia.
Qed.

Lemma totalWait_doubling delayMs n :
  totalWait (map (fun i => delayMs * 2 ^ Z.of_nat i)%Z (seq 0 n))
  = (delayMs * (2 ^ Z.of_nat n - 1))%Z.
Proof.
  induction n as [| n IH]; [simpl; lia |].
  rewrite seq_S, map_app, totalWait_app, IH. simpl.
  rewrite Nat2Z.inj_succ, Z.pow_succ_r by lia. unfold totalWait. simpl. lia.
Qed.

(** X17.  [withRetry] calls the operation once more than it waits, and at
    most [maxAttempts] times; with [maxAttempts] below one it fulfils
    without calling the operation at all.  After [n] waits it has waited
    [delayMs * (2 ^ n - 1)] milliseconds in all. *)
Theorem withRetry_calls_once_more_than_it_waits :
  forall maxAttempts delayMs (w : W) r w' calls delays,
    withRetry (counted operation) (option_map aside onRetry) maxAttempts delayMs (w, 0%nat)
    = (r, (w', calls), delays) ->
    (if (maxAttempts <? 1)%Z then calls = 0%nat /\ r = None /\ w' = w
     else calls = S (length delays) /\ (Z.of_nat calls <= maxAttempts)%Z)
    /\ totalWait delays = (delayMs * (2 ^ Z.of_nat (length delays) - 1))%Z.
Proof.
  intros maxAttempts delayMs w r w' calls delays H.
  destruct (retryLoop_delays (counted operation) (option_map aside onRetry) maxAttempts
              delayMs (Z.to_nat maxAttempts) 1%Z (w, 0%nat) r (w', calls) delays)
    as (Hlen & Hd & _); [f_equal; lia | exact H |].
  split.
  - unfold withRetry in H. destruct (maxAttempts <? 1)%Z eqn:Hmax.
    + apply Z.ltb_lt in Hmax. replace (Z.to_nat maxAttempts) with 0%nat in H by lia.
      simpl in H. injection H as <- <- <- <-. repeat split.
    + apply Z.ltb_ge in Hmax.
      destruct (Z.to_nat maxAttempts) as [| fuel] eqn:Hfuel; [lia |].
      apply retryLoop_counted in H; [| lia | lia]. split; [exact H | lia].
  - rewrite Hd at 1. rewrite <- totalWait_doubling. reflexivity.
Qed.

End Calls.

Lemma withRetry_calls_once_more_than_it_waits_witness :
  (3%nat = S (length [500; 1000]%Z) /\ (Z.of_nat 3 <= 10)%Z)
  /\ totalWait [500; 1000]%Z = (500 * (2 ^ Z.of_nat 2 - 1))%Z.
Proof.
  apply (withRetry_calls_once_more_than_it_waits Fixtures.busyTwice None
           defaultMaxAttempts defaultDelayMs 0%nat None 3%nat 3%nat [500; 1000]%Z).
  reflexivity.
Defined.

(** *** The document of the editor *)

Import Editor.

Section Document.
Context `{host : Host}.
Variable writeBuffer : list (list jsval) -> JsError + jsstring.

Lemma editor_type path :
  Editor.detectFileType path
  = match FileLoader.detectFileType path with xml => csv | t => t end.
Proof.
  unfold Editor.detectFileType, FileLoader.detectFileType. cbv zeta.
  repeat match goal with
         | |- context [if ?b then _ else _] => destruct b; try reflexivity
         end.
Qed.

(** X18.  The editor detects the type of a file as the loader does, except
    that it knows no markup: what the loader takes for markup the editor
    takes for comma text.  Saving the document under such a name therefore
    writes comma-delimited text to it and marks every edit as saved, where
    the loader's own save rejects the name. *)
Theorem editor_takes_markup_for_comma_text :
  (forall path,
      Editor.detectFileType path
      = match FileLoader.detectFileType path with xml => csv | t => t end)
  /\ (forall target doc fs,
        FileLoader.detectFileType target = xml ->
        saveAs writeBuffer None target doc fs
        = (None, mkDocument (uri doc) (_data doc) (_edits doc) (length (_edits doc)),
           <[target := unparseRows (dataRows (_data doc)) (dataColumns (_data doc))
                         (lit ",")]> fs)).
Proof.
  split; [exact editor_type |].
  intros target doc fs Hxml. unfold saveAs. rewrite editor_type, Hxml. reflexivity.
Qed.

(** X19.  [saveAs] writes the target or nothing: when it throws, the
    document and the files are as before; when it fulfils, the target alone
    has been written, the data and the edits are kept and every edit counts
    as saved.  It never fulfils for a Parquet target. *)
Theorem saveAs_writes_the_target_or_nothing :
  forall fault target doc fs,
    match saveAs writeBuffer fault target doc fs with
    | (Some err, doc', fs') => doc' = doc /\ fs' = fs
    | (None, doc', fs') =>
        (exists bytes, fs' = <[target := bytes]> fs)
        /\ doc' = mkDocument (uri doc) (_data doc) (_edits doc) (length (_edits doc))
        /\ Editor.detectFileType target <> parquet
    end.
Proof.
  intros fault target doc fs. unfold saveAs.
  destruct (serialized writeBuffer (Editor.detectFileType target) (_data doc))
    as [err | bytes] eqn:Hs; [split; reflexivity |].
  unfold writeFile. destruct fault as [err |]; [split; reflexivity |].
  split; [exists bytes; reflexivity |]. split; [reflexivity |].
  intros Hp. rewrite Hp in Hs. discriminate Hs.
Qed.

Lemma makeEdits_uri edits : forall doc,
  uri (fold_left (fun doc e => makeEdit (dataColumns e) (dataRows e) doc) edits doc) = uri doc.
Proof.
  induction edits as [| e edits IH]; intros doc; [reflexivity |]. simpl. rewrite IH.
  reflexivity.
Qed.

(** X20.  [revert] discards every edit: after any edits it gives what it
    gives for the document as opened, which is the table loaded from the
    file again, with no edits and none saved, or the rejection of that
    load. *)
Theorem revert_discards_every_edit :
  forall d doc edits,
    let edited :=
      fold_left (fun doc e => makeEdit (dataColumns e) (dataRows e) doc) edits doc in
    revert d edited = revert d doc
    /\ match revert d edited with
       | Resolved doc' =>
           uri doc' = uri doc /\ _edits doc' = [] /\ _savedEdits doc' = 0%nat
           /\ exists page,
                fst (loadFileData d (uri doc) (NInt 0) MAX_SAFE_INTEGER None None)
                = Resolved page
                /\ _data doc' = mkData (columns page) (rows page)
       | Rejected e =>
           fst (loadFileData d (uri doc) (NInt 0) MAX_SAFE_INTEGER None None) = Rejected e
       | Uncaught e =>
           fst (loadFileData d (uri doc) (NInt 0) MAX_SAFE_INTEGER None None) = Uncaught e
       end.
Proof.
  intros d doc edits edited.
  assert (Hsame : revert d edited = revert d doc).
  { unfold revert, edited. rewrite makeEdits_uri. reflexivity. }
  split; [exact Hsame |]. rewrite Hsame. unfold revert.
  destruct (fst (loadFileData d (uri doc) (NInt 0) MAX_SAFE_INTEGER None None))
    as [page | e | e]; [| reflexivity | reflexivity].
  repeat split. exists page. split; reflexivity.
Qed.

(** *** Preparing and finalizing a save *)

Lemma tmp_differs (filePath : jsstring) : filePath <> filePath ++ lit ".tmp".
Proof.
  intros E. apply (f_equal (@length N)) in E. rewrite length_app in E. simpl in E. lia.
Qed.

Lemma post_spec p w :
  files (post p w) = files w /\ openFaults (post p w) = openFaults w
  /\ renameFault (post p w) = renameFault w /\ isDisposed (post p w) = isDisposed w
  /\ document (post p w) = document w
  /\ posted (post p w) = posted w ++ delivered w [p].
Proof.
  unfold post, delivered. destruct (isDisposed w) eqn:E; simpl;
    rewrite ?app_nil_r, ?E; repeat split.
Qed.

Lemma writeTemp_spec fault filePath cols rws delim w :
  let '(tempFile, w') := writeTemp fault filePath cols rws delim w in
  (forall path, path <> filePath ++ lit ".tmp" -> files w' !! path = files w !! path)
  /\ document w' = document w /\ openFaults w' = openFaults w
  /\ renameFault w' = renameFault w /\ isDisposed w' = isDisposed w
  /\ match tempFile with
     | Some t =>
         t = filePath ++ lit ".tmp" /\ posted w' = posted w /\ fault = None
         /\ files w' = <[t := unparseRows rws cols delim]> (files w)
     | None => exists text, posted w' = posted w ++ delivered w [PostError text]
     end.
Proof.
  unfold writeTemp, writeFile. destruct fault as [err |]; simpl.
  - unfold postFailure.
    destruct (post_spec (PostError (if truthy (JString (message err)) then message err
                                    else lit "Failed to prepare save.")) w)
      as (Hf & Ho & Hr & Hd & Hdoc & Hp).
    rewrite Hf, Ho, Hr, Hd, Hdoc, Hp. repeat split. eexists. reflexivity.
  - repeat split. intros path Hpath. apply lookup_insert_ne. congruence.
Qed.

(** X21.  Preparing a save touches no file but the one named after the
    document with [.tmp] appended, so never the document itself; it leaves
    the table of the document as it is.  It announces that file only for
    comma and tab text, and then posts nothing else; otherwise it posts one
    error, which reaches the webview unless the panel is disposed. *)
Theorem prepareSave_touches_only_the_temp_file :
  forall fault filePath cols rws w,
    let '(tempFile, w') := prepareSave fault filePath cols rws w in
    (forall path, path <> filePath ++ lit ".tmp" -> files w' !! path = files w !! path)
    /\ files w' !! filePath = files w !! filePath
    /\ document w' = document w
    /\ match tempFile with
       | Some t =>
           t = filePath ++ lit ".tmp" /\ posted w' = posted w
           /\ (Editor.detectFileType filePath = csv \/ Editor.detectFileType filePath = tsv)
       | None => exists text, posted w' = posted w ++ delivered w [PostError text]
       end.
Proof.
  intros fault filePath cols rws w. unfold prepareSave.
  assert (Hother : forall err : JsError,
             let w' := postFailure err (lit "Failed to prepare save.") w in
             (forall path, path <> filePath ++ lit ".tmp" ->
                files w' !! path = files w !! path)
             /\ files w' !! filePath = files w !! filePath
             /\ document w' = document w
             /\ exists text, posted w' = posted w ++ delivered w [PostError text]).
  { intros err. cbv zeta. unfold postFailure.
    destruct (post_spec (PostError (if truthy (JString (message err)) then message err
                                    else lit "Failed to prepare save.")) w)
      as (Hf & _ & _ & _ & Hdoc & Hp).
    rewrite Hf, Hdoc, Hp. repeat split. eexists. reflexivity. }
  destruct (Editor.detectFileType filePath) eqn:Htype; try apply Hother.
  - pose proof (writeTemp_spec fault filePath cols rws (lit ",") w) as H.
    destruct (writeTemp fault filePath cols rws (lit ",") w) as [tempFile w'].
    destruct H as (Hfiles & Hdoc & _ & _ & _ & Hpost).
    split; [exact Hfiles |]. split; [apply Hfiles, tmp_differs |]. split; [exact Hdoc |].
    destruct tempFile as [t |]; [| exact Hpost].
    destruct Hpost as (Ht & Hp & _). repeat split; [exact Ht | exact Hp | left; reflexivity].
  - pose proof (writeTemp_spec fault filePath cols rws [9] w) as H.
    destruct (writeTemp fault filePath cols rws [9] w) as [tempFile w'].
    destruct H as (Hfiles & Hdoc & _ & _ & _ & Hpost).
    split; [exact Hfiles |]. split; [apply Hfiles, tmp_differs |]. split; [exact Hdoc |].
    destruct tempFile as [t |]; [| exact Hpost].
    destruct Hpost as (Ht & Hp & _). repeat split; [exact Ht | exact Hp | right; reflexivity].
Qed.

Lemma finalizeSave_unlocked filePath msg w t bytes old table :
  tempFile msg = Some t -> t <> [] -> msgTable msg = inr table ->
  files w !! t = Some bytes -> files w !! filePath = Some old ->
  openFaults w = [] \/ (exists later, openFaults w = None :: later) ->
  renameFault w = None ->
  let w' := finalizeSave filePath msg w in
  files w' = <[filePath := bytes]> (delete t (files w))
  /\ posted w'
     = posted w ++ Information (lit "File saved successfully.") :: delivered w [SaveComplete]
  /\ document w' = table.
Proof.
  intros Hmsg Hne Htable Htmp Hdest Hopen Hrename. cbv zeta. unfold finalizeSave.
  rewrite Hmsg.
  assert (Ht : truthy (JString t) = true).
  { unfold truthy. apply negb_true_iff, eqb_neq, Hne. }
  rewrite Ht. cbn [negb]. rewrite Htmp.
  unfold isFileLocked, openForUpdate. rewrite Hdest.
  destruct Hopen as [Hopen | [later Hopen]]; rewrite Hopen; unfold rename; cbn [renameFault];
    rewrite Hrename; cbn [files]; rewrite Htmp, Htable; cbv zeta;
    match goal with
    | |- context [post ?p ?w0] =>
        destruct (post_spec p w0) as (Hf & _ & _ & _ & Hdoc & Hp); rewrite Hf, Hdoc, Hp
    end;
    unfold inform, delivered; cbn [files posted document isDisposed];
    rewrite <- app_assoc; repeat split.
Qed.

(** X22.  A save that was prepared is completed by the rename: when the
    document exists, nobody holds it and the rename goes through, finalizing
    with the announced temp file leaves the text written for the table under
    the name of the document, removes the temp file, makes the table the
    document's and reports success: the notice to the user and, unless the
    panel is disposed, [saveComplete] to the webview. *)
Theorem prepared_save_is_finalized_by_rename :
  forall filePath cols rws w t w1 old,
    prepareSave None filePath cols rws w = (Some t, w1) ->
    files w !! filePath = Some old ->
    openFaults w = [] \/ (exists later, openFaults w = None :: later) ->
    renameFault w = None ->
    let w2 := finalizeSave filePath (mkFinalize (Some t) (inr (cols, rws))) w1 in
    (exists delim,
        (delim = lit "," \/ delim = [9])
        /\ files w2 !! filePath = Some (unparseRows rws cols delim))
    /\ files w2 !! t = None
    /\ (forall path, path <> filePath -> path <> t -> files w2 !! path = files w !! path)
    /\ posted w2
       = posted w ++ Information (lit "File saved successfully.")
                       :: delivered w [SaveComplete]
    /\ (isDisposed w = false ->
        posted w2 = posted w ++ [Information (lit "File saved successfully."); SaveComplete])
    /\ document w2 = (cols, rws).
Proof.
  intros filePath cols rws w t w1 old Hprep Hdest Hopen Hrename.
  assert (Hwritten : exists delim,
            (delim = lit "," \/ delim = [9])
            /\ writeTemp None filePath cols rws delim w = (Some t, w1)).
  { unfold prepareSave in Hprep. destruct (Editor.detectFileType filePath);
      try discriminate Hprep; eexists; (split; [| exact Hprep]); auto. }
  destruct Hwritten as (delim & Hdelim & Hw).
  pose proof (writeTemp_spec None filePath cols rws delim w) as H. rewrite Hw in H.
  destruct H as (Hfiles & Hdoc & Hof & Hrf & Hdisp & Ht & Hposted & _ & Hfs).
  assert (Hne : t <> []) by (rewrite Ht; destruct filePath; discriminate).
  assert (Hdiff : filePath <> t) by (rewrite Ht; apply tmp_differs).
  destruct (finalizeSave_unlocked filePath (mkFinalize (Some t) (inr (cols, rws))) w1 t
              (unparseRows rws cols delim) old (cols, rws)) as (Hf2 & Hp2 & Hd2).
  - reflexivity.
  - exact Hne.
  - reflexivity.
  - rewrite Hfs. apply lookup_insert_eq.
  - rewrite Hfiles by (rewrite <- Ht; exact Hdiff). exact Hdest.
  - rewrite Hof. exact Hopen.
  - rewrite Hrf. exact Hrename.
  - cbv zeta. rewrite Hf2, Hp2, Hd2, Hposted. unfold delivered. rewrite Hdisp.
    split; [exists delim; split; [exact Hdelim | apply lookup_insert_eq] |].
    split; [rewrite lookup_insert_ne by exact Hdiff; apply lookup_delete_eq |].
    split.
    { intros path Hp Hpt. rewrite lookup_insert_ne by congruence.
      rewrite lookup_delete_ne by congruence. apply Hfiles. rewrite <- Ht. exact Hpt. }
    split; [reflexivity |]. split; [intros ->; reflexivity | reflexivity].
Qed.

End Document.

(** X23.  Finalizing a save ends in one of three ways.  Either the files
    and the table of the document are as before and one error has been
    posted.  Or the temp file of the message has been moved over the
    document; then, when the message holds a table, that table has become the
    document's, the user has been told of the success and [saveComplete] has
    been posted after that; and when the columns or the rows of the message
    cannot be copied, the table of the document is as before, although the
    file is not, and the error of the copy has been posted.  What is posted
    reaches the webview unless the panel is disposed. *)
Theorem finalizeSave_renames_or_reports :
  forall filePath msg w,
    let w' := finalizeSave filePath msg w in
    (files w' = files w /\ document w' = document w
     /\ exists text, posted w' = posted w ++ delivered w [PostError text])
    \/ (exists t bytes,
          tempFile msg = Some t /\ files w !! t = Some bytes
          /\ files w' = <[filePath := bytes]> (delete t (files w))
          /\ ((exists table,
                 msgTable msg = inr table /\ document w' = table
                 /\ posted w'
                    = posted w ++ Information (lit "File saved successfully.")
                                    :: delivered w [SaveComplete])
              \/ (exists err,
                    msgTable msg = inl err /\ document w' = document w
                    /\ posted w'
                       = posted w
                           ++ delivered w
                                [PostError (if truthy (JString (message err))
                                            then message err
                                            else lit "Failed to finalize save.")]))).
Proof.
  intros filePath msg w. cbv zeta.
  assert (Hreport : forall p w1,
             files w1 = files w -> document w1 = document w -> posted w1 = posted w ->
             isDisposed w1 = isDisposed w ->
             files (post (PostError p) w1) = files w
             /\ document (post (PostError p) w1) = document w
             /\ exists text,
                  posted (post (PostError p) w1) = posted w ++ delivered w [PostError text]).
  { intros p w1 Hf Hd Hp Hdisp.
    destruct (post_spec (PostError p) w1) as (Hf' & _ & _ & _ & Hdoc' & Hp').
    rewrite Hf', Hdoc', Hp', Hf, Hd, Hp. unfold delivered. rewrite Hdisp.
    repeat split. eexists. reflexivity. }
  unfold finalizeSave.
  destruct (tempFile msg) as [t |] eqn:Hmsg; [| left; apply Hreport; reflexivity].
  destruct (negb (truthy (JString t))); [left; apply Hreport; reflexivity |].
  destruct (files w !! t) as [bytes |] eqn:Htmp; [| left; apply Hreport; reflexivity].
  assert (Hprobe : files (snd (isFileLocked filePath w)) = files w
                   /\ document (snd (isFileLocked filePath w)) = document w
                   /\ posted (snd (isFileLocked filePath w)) = posted w
                   /\ renameFault (snd (isFileLocked filePath w)) = renameFault w
                   /\ isDisposed (snd (isFileLocked filePath w)) = isDisposed w).
  { unfold isFileLocked, openForUpdate. destruct (files w !! filePath); simpl.
    - destruct (openFaults w) as [| [e |] later]; simpl;
        [| destruct (lockCode e) |]; repeat split.
    - repeat split. }
  destruct (isFileLocked filePath w) as [[err | [|]] w1]; simpl in Hprobe;
    destruct Hprobe as (Hf & Hd & Hp & Hr & Hdisp).
  - left. unfold postFailure. apply Hreport; assumption.
  - left. apply Hreport; assumption.
  - unfold rename. rewrite Hr, Hf, Htmp.
    destruct (renameFault w) as [err |].
    + left. unfold postFailure. apply Hreport; assumption.
    + right. exists t, bytes. split; [reflexivity |]. split; [exact Htmp |].
      destruct (msgTable msg) as [err | table].
      * unfold postFailure.
        match goal with
        | |- context [post ?p ?w0] =>
            destruct (post_spec p w0) as (Hf' & _ & _ & _ & Hdoc' & Hp'); rewrite Hf', Hdoc', Hp'
        end.
        unfold delivered. cbn [files posted document isDisposed]. rewrite Hdisp, Hp, Hd.
        split; [reflexivity |]. right. exists err. repeat split.
      * cbv zeta.
        match goal with
        | |- context [post ?p ?w0] =>
            destruct (post_spec p w0) as (Hf' & _ & _ & _ & Hdoc' & Hp'); rewrite Hf', Hdoc', Hp'
        end.
        unfold inform, delivered. cbn [files posted document isDisposed].
        rewrite Hdisp, Hp, <- app_assoc.
        split; [reflexivity |]. left. exists table. repeat split.
Qed.

(** X24.  A document that is not on disk cannot be finalized: the probe of
    the destination fails with the error of a missing file, which has no
    lock code; the handler posts the message of that error, which names the
    document, and the temp file stays where it is. *)
Theorem finalizeSave_needs_the_document_on_disk :
  forall filePath msg w t bytes,
    tempFile msg = Some t -> t <> [] ->
    files w !! t = Some bytes -> files w !! filePath = None ->
    let w' := finalizeSave filePath msg w in
    fst (isFileLocked filePath w) = inl (noSuchFile filePath)
    /\ lockCode (noSuchFile filePath) = false
    /\ files w' = files w /\ files w' !! t = Some bytes /\ document w' = document w
    /\ openFaults w' = openFaults w
    /\ posted w'
       = posted w
           ++ delivered w
                [PostError (lit "ENOENT: no such file or directory, open '" ++ filePath
                              ++ lit "'")].
Proof.
  intros filePath msg w t bytes Hmsg Hne Htmp Hdest. cbv zeta. unfold finalizeSave.
  rewrite Hmsg.
  assert (Ht : truthy (JString t) = true).
  { unfold truthy. apply negb_true_iff, eqb_neq, Hne. }
  rewrite Ht. cbn [negb]. rewrite Htmp.
  unfold isFileLocked, openForUpdate. rewrite Hdest.
  assert (Hlock : lockCode (noSuchFile filePath) = false) by reflexivity.
  rewrite Hlock. unfold postFailure.
  assert (Htext : truthy (JString (message (noSuchFile filePath))) = true) by reflexivity.
  rewrite Htext.
  destruct (post_spec (PostError (message (noSuchFile filePath))) w)
    as (Hf & Ho & _ & _ & Hdoc & Hp).
  rewrite Hf, Ho, Hdoc, Hp. repeat split. exact Htmp.
Qed.

Lemma editor_takes_markup_for_comma_text_witness :
  @saveAs Sample.peopleHost (fun _ => inl (Error (lit "no spreadsheet library"))) None
    (lit "/data/people.xml") Fixtures.peopleDocument ∅
  = (None, Fixtures.peopleDocument, <[lit "/data/people.xml" := lit "Bob"]> ∅).
Proof.
  apply (proj2 (@editor_takes_markup_for_comma_text Sample.peopleHost
                  (fun _ => inl (Error (lit "no spreadsheet library"))))
           (lit "/data/people.xml") Fixtures.peopleDocument ∅).
  reflexivity.
Defined.

Lemma prepared_save_is_finalized_by_rename_witness :
  let cols := [lit "name"] in
  let rws := [[Sample.str "Bob"]] in
  let w2 := finalizeSave Sample.peopleCsv
              (mkFinalize (Some Sample.peopleTmp) (inr (cols, rws))) Fixtures.prepared in
  files w2 !! Sample.peopleCsv = Some (lit "Bob")
  /\ files w2 !! Sample.peopleTmp = None
  /\ posted w2 = [Information (lit "File saved successfully."); SaveComplete]
  /\ document w2 = (cols, rws).
Proof.
  destruct (@prepared_save_is_finalized_by_rename Sample.peopleHost Sample.peopleCsv
              [lit "name"] [[Sample.str "Bob"]] Fixtures.onDisk Sample.peopleTmp
              Fixtures.prepared (lit "name"))
    as ([delim [Hdelim Hfile]] & Htmp & _ & _ & Hposted & Hdoc).
  - reflexivity.
  - apply lookup_insert_eq.
  - left. reflexivity.
  - reflexivity.
  - cbv zeta. split; [| split; [exact Htmp | split; [exact (Hposted eq_refl) | exact Hdoc]]].
    rewrite Hfile. destruct Hdelim as [-> | ->]; reflexivity.
Defined.

Lemma finalizeSave_renames_or_reports_witness :
  let msg := mkFinalize (Some Sample.peopleTmp)
               (inl (Error (lit "columns is not iterable"))) in
  let w' := finalizeSave Sample.peopleCsv msg Fixtures.prepared in
  files w' !! Sample.peopleCsv = Some (lit "Bob")
  /\ files w' !! Sample.peopleTmp = None
  /\ document w' = document Fixtures.prepared
  /\ posted w' = [PostError (lit "columns is not iterable")].
Proof.
  intros msg w'.
  destruct (finalizeSave_renames_or_reports Sample.peopleCsv msg Fixtures.prepared)
    as [(Hfiles & _) | (t & bytes & Ht & Hbytes & Hfiles & Hend)].
  - exfalso. apply (f_equal (fun fs => fs !! Sample.peopleTmp)) in Hfiles.
    fold w' in Hfiles. vm_compute in Hfiles. discriminate Hfiles.
  - fold w' in Hfiles, Hend. injection Ht as <-.
    assert (Hb : bytes = lit "Bob").
    { change (files Fixtures.prepared !! Sample.peopleTmp) with
        ((<[Sample.peopleTmp := lit "Bob"]>
            (<[Sample.peopleCsv := lit "name"]> (∅ : gmap jsstring jsstring)))
           !! Sample.peopleTmp) in Hbytes.
      rewrite lookup_insert_eq in Hbytes. injection Hbytes as <-. reflexivity. }
    subst bytes. rewrite Hfiles.
    split; [apply lookup_insert_eq |].
    split; [rewrite lookup_insert_ne by (intros E; symmetry in E; exact (sample_paths_differ E));
            apply lookup_delete_eq |].
    destruct Hend as [(table & Htable & _) | (err & Herr & Hdoc & Hposted)];
      [discriminate Htable |].
    injection Herr as <-. split; [exact Hdoc | exact Hposted].
Defined.

Lemma finalizeSave_needs_the_document_on_disk_witness :
  let w' := finalizeSave Sample.peopleCsv Sample.finalizeMsg Fixtures.orphaned in
  files w' !! Sample.peopleTmp = Some (lit "name,age")
  /\ document w' = document Fixtures.orphaned
  /\ posted w'
     = [PostError (lit "ENOENT: no such file or directory, open '/data/people.csv'")].
Proof.
  destruct (finalizeSave_needs_the_document_on_disk Sample.peopleCsv Sample.finalizeMsg
              Fixtures.orphaned Sample.peopleTmp (lit "name,age"))
    as (_ & _ & _ & Htmp & Hdoc & _ & Hposted).
  - reflexivity.
  - discriminate.
  - apply lookup_insert_eq.
  - simpl. rewrite lookup_insert_ne by exact sample_paths_differ. apply lookup_empty.
  - cbv zeta. split; [exact Htmp |]. split; [exact Hdoc | exact Hposted].
Defined.

(** *** The pages of the table *)

Import Webview.

Lemma slice_nat {A} (l : list A) (a b : Z) :
  (0 <= a)%Z -> (a <= b)%Z ->
  slice a b l = firstn (Z.to_nat b - Z.to_nat a) (skipn (Z.to_nat a) l).
Proof.
  intros Ha Hab. unfold slice, relativeIndex. cbv zeta.
  destruct (Z.ltb_spec a 0) as [Hneg | _]; [lia |].
  destruct (Z.ltb_spec b 0) as [Hneg | _]; [lia |].
  destruct (Z_le_gt_dec a (Z.of_nat (length l))) as [Hin | Hout].
  - rewrite (Z.min_l a) by exact Hin.
    destruct (Z_le_gt_dec b (Z.of_nat (length l))) as [Hb | Hb].
    + rewrite Z.min_l by exact Hb. f_equal. lia.
    + rewrite Z.min_r by lia.
      rewrite !List.firstn_all2; [reflexivity | |]; rewrite List.length_skipn; lia.
  - rewrite (Z.min_r a) by lia. rewrite !List.skipn_all2 by lia.
    rewrite !List.firstn_nil. reflexivity.
Qed.

Lemma firstn_plus {A} (l : list A) : forall a b,
  firstn (a + b) l = firstn a l ++ firstn b (skipn a l).
Proof.
  induction l as [| x l IH]; intros a b.
  - rewrite List.skipn_nil, !List.firstn_nil. reflexivity.
  - destruct a as [| a]; [reflexivity |]. simpl. rewrite IH. reflexivity.
Qed.

Lemma chunks_concat {A} (l : list A) (size : nat) : forall n,
  concat (map (fun i => firstn size (skipn (i * size) l)) (seq 0 n)) = firstn (n * size) l.
Proof.
  induction n as [| n IH]; [reflexivity |].
  rewrite seq_S, map_app, concat_app, IH. simpl. rewrite app_nil_r.
  rewrite <- firstn_plus. f_equal. lia.
Qed.

Lemma currentRows_chunk {A} (rows : list A) pageSize (p : nat) :
  currentRows rows pageSize (Z.of_nat (S p))
  = firstn (Pos.to_nat pageSize) (skipn (p * Pos.to_nat pageSize) rows).
Proof.
  unfold currentRows. cbv zeta. rewrite slice_nat by lia. f_equal; [lia |]. f_equal. lia.
Qed.

Lemma totalPages_covers rowCount pageSize :
  let n := Z.to_nat (totalPages rowCount pageSize) in
  (rowCount <= n * Pos.to_nat pageSize)%nat
  /\ forall p, (S p <= n)%nat -> (p * Pos.to_nat pageSize < rowCount)%nat.
Proof.
  cbv zeta. unfold totalPages.
  set (len := Z.of_nat rowCount). set (size := Z.pos pageSize).
  assert (Hsize : (0 < size)%Z) by (unfold size; lia).
  assert (Hlen : (0 <= len)%Z) by (unfold len; lia).
  pose proof (Z.mul_succ_div_gt (len + size - 1) size Hsize) as Hgt.
  pose proof (Z.mul_div_le (len + size - 1) size Hsize) as Hle.
  assert (Hq : (0 <= (len + size - 1) / size)%Z) by (apply Z.div_pos; lia).
  set (q := ((len + size - 1) / size)%Z) in *.
  split.
  - apply Nat2Z.inj_le. rewrite Nat2Z.inj_mul, Z2Nat.id by exact Hq.
    rewrite positive_nat_Z. fold len size. nia.
  - intros p Hp. apply Nat2Z.inj_lt. rewrite Nat2Z.inj_mul, positive_nat_Z.
    fold len size. assert (Hpq : (Z.of_nat p + 1 <= q)%Z) by lia. nia.
Qed.

(** X25.  The pages of the table, from the first to the last, hold the
    rows once each and in order: their concatenation is the rows.  No page
    is empty and none has more than [pageSize] rows. *)
Theorem pages_partition_the_rows :
  forall (A : Type) (rows : list A) pageSize,
    let pages :=
      map (fun p => currentRows rows pageSize (Z.of_nat p))
        (seq 1 (Z.to_nat (totalPages (length rows) pageSize))) in
    concat pages = rows
    /\ Forall (fun page => page <> [] /\ (length page <= Pos.to_nat pageSize)%nat) pages.
Proof.
  intros A rows pageSize pages.
  destruct (totalPages_covers (length rows) pageSize) as [Hcover Hinside].
  set (n := Z.to_nat (totalPages (length rows) pageSize)) in *.
  assert (Hpages : pages
                   = map (fun i => firstn (Pos.to_nat pageSize)
                                     (skipn (i * Pos.to_nat pageSize) rows)) (seq 0 n)).
  { unfold pages. rewrite <- seq_shift, map_map. apply map_ext. intros p.
    apply currentRows_chunk. }
  rewrite Hpages. split.
  - rewrite chunks_concat. apply List.firstn_all2, Hcover.
  - apply List.Forall_forall. intros page Hpage.
    apply in_map_iff in Hpage as (p & <- & Hp). apply in_seq in Hp.
    assert (Hlt : (p * Pos.to_nat pageSize < length rows)%nat) by (apply Hinside; lia).
    split.
    + intros E. apply (f_equal (@length A)) in E.
      rewrite List.length_firstn, List.length_skipn in E. simpl in E. lia.
    + rewrite List.length_firstn. lia.
Qed.

Lemma pageNum_spec total cur i :
  (1 <= cur <= total)%Z -> (0 <= i < Z.min 5 total)%Z ->
  exists first,
    pageNum total cur i = (first + i)%Z /\ (1 <= first)%Z
    /\ (first + Z.min 5 total - 1 <= total)%Z /\ (first <= cur < first + Z.min 5 total)%Z
    /\ first = pageNum total cur 0.
Proof.
  intros Hcur Hi. unfold pageNum.
  destruct (Z.leb_spec total 5); [exists 1%Z; lia |].
  destruct (Z.leb_spec cur 3); [exists 1%Z; lia |].
  destruct (Z.leb_spec (total - 2) cur); [exists (total - 4)%Z; lia |].
  exists (cur - 2)%Z. lia.
Qed.

(** X26.  With at least one page and the current page among the pages,
    the pager shows consecutive numbers, as many as there are pages up to
    five, all of them pages, the current one among them; pressing a button
    goes to the page of its number, and going back or forth stays on a page. *)
Theorem pager_stays_on_the_pages :
  forall total cur,
    (1 <= total)%Z -> (1 <= cur <= total)%Z ->
    let buttons := pageButtons total cur in
    length buttons = Z.to_nat (Z.min 5 total)
    /\ buttons = map (fun i => pageNum total cur 0 + Z.of_nat i)%Z (seq 0 (length buttons))
    /\ In cur buttons
    /\ (forall b, In b buttons -> (1 <= b <= total)%Z /\ goToPage total b = b)
    /\ (1 <= goToPrevious cur <= total)%Z /\ (1 <= goToNext total cur <= total)%Z
    /\ (forall page, 1 <= goToPage total page <= total)%Z.
Proof.
  intros total cur Htotal Hcur buttons.
  assert (Hlen : length buttons = Z.to_nat (Z.min 5 total)).
  { unfold buttons, pageButtons. rewrite length_map, length_seq. reflexivity. }
  split; [exact Hlen |]. split; [| split; [| split]].
  - rewrite Hlen. unfold buttons, pageButtons. apply map_ext_in. intros i Hin.
    apply in_seq in Hin.
    destruct (pageNum_spec total cur (Z.of_nat i) Hcur) as (first & -> & _ & _ & _ & ->);
      [lia | reflexivity].
  - destruct (pageNum_spec total cur 0 Hcur) as (first & _ & _ & _ & Hin & Hfirst); [lia |].
    unfold buttons, pageButtons. apply in_map_iff. exists (Z.to_nat (cur - first)). split.
    + destruct (pageNum_spec total cur (Z.of_nat (Z.to_nat (cur - first))) Hcur)
        as (first' & -> & _ & _ & _ & ->); [lia |]. lia.
    + apply in_seq. lia.
  - intros b Hb. unfold buttons, pageButtons in Hb.
    apply in_map_iff in Hb as (i & <- & Hi). apply in_seq in Hi.
    destruct (pageNum_spec total cur (Z.of_nat i) Hcur) as (first & -> & H1 & H2 & _);
      [lia |].
    unfold goToPage. lia.
  - unfold goToPrevious, goToNext, goToPage. clear buttons Hlen.
    split; [lia |]. split; [lia |]. intros page. lia.
Qed.

Lemma pager_stays_on_the_pages_witness :
  let buttons := pageButtons 9 5 in
  length buttons = Z.to_nat (Z.min 5 9)
  /\ buttons = map (fun i => pageNum 9 5 0 + Z.of_nat i)%Z (seq 0 (length buttons))
  /\ In 5%Z buttons
  /\ (forall b, In b buttons -> (1 <= b <= 9)%Z /\ goToPage 9 b = b)
  /\ (1 <= goToPrevious 5 <= 9)%Z /\ (1 <= goToNext 9 5 <= 9)%Z
  /\ (forall page, 1 <= goToPage 9 page <= 9)%Z.
Proof.
  apply (pager_stays_on_the_pages 9 5); lia.
Defined.

(** *** The columns chosen for the chart *)

Lemma filter_out_absent column (l : list jsstring) :
  ~ In column l -> List.filter (fun c => negb (eqb c column)) l = l.
Proof.
  induction l as [| x l IH]; intros H; [reflexivity |]. simpl.
  assert (E : eqb x column = false) by (apply eqb_neq; intros ->; apply H; left; reflexivity).
  rewrite E. simpl. f_equal. apply IH. intros Hin. apply H. right. exact Hin.
Qed.

(** X27.  Toggling a column switches it and nothing else: afterwards the
    column is chosen exactly when it was not before, every other column is
    chosen as before, and a choice without repetitions stays so.  Toggling
    twice a column that was not chosen gives the choice back; one that was
    chosen comes back at the end. *)
Theorem handleColumnToggle_switches_one_column :
  forall column prev,
    let next := handleColumnToggle column prev in
    (In column next <-> ~ In column prev)
    /\ (forall other, other <> column -> (In other next <-> In other prev))
    /\ (List.NoDup prev -> List.NoDup next)
    /\ handleColumnToggle column next
       = if existsb (eqb column) prev
         then List.filter (fun c => negb (eqb c column)) prev ++ [column]
         else prev.
Proof.
  intros column prev next. unfold next, handleColumnToggle.
  assert (Hgone : ~ In column (List.filter (fun c => negb (eqb c column)) prev)).
  { intros H. apply filter_In in H as [_ H]. rewrite eqb_refl in H. discriminate H. }
  destruct (existsb (eqb column) prev) eqn:E.
  - apply existsb_eqb_In in E. split; [| split; [| split]].
    + split; [intros H; destruct (Hgone H) | intros H; destruct (H E)].
    + intros other Hother. split; intros H.
      * apply filter_In in H as [H _]. exact H.
      * apply filter_In. split; [exact H |]. apply negb_true_iff, eqb_neq. exact Hother.
    + intros Hnd. apply List.NoDup_filter, Hnd.
    + destruct (existsb (eqb column) (List.filter _ prev)) eqn:E'; [| reflexivity].
      apply existsb_eqb_In in E'. destruct (Hgone E').
  - assert (Hnot : ~ In column prev).
    { intros H. apply existsb_eqb_In in H. congruence. }
    split; [| split; [| split]].
    + split; [intros _; exact Hnot |].
      intros _. apply in_or_app. right. left. reflexivity.
    + intros other Hother. split; intros H.
      * apply in_app_or in H as [H | [H | []]]; [exact H | congruence].
      * apply in_or_app. left. exact H.
    + intros Hnd. apply NoDup_snoc; assumption.
    + assert (E' : existsb (eqb column) (prev ++ [column]) = true).
      { apply existsb_eqb_In, in_or_app. right. left. reflexivity. }
      rewrite E'. rewrite List.filter_app, (filter_out_absent _ _ Hnot). simpl.
      rewrite eqb_refl. simpl. apply app_nil_r.
Qed.

(** *** Marking the search term *)

Lemma slices_rejoin {A} (l : list A) (a n : Z) :
  (0 <= a)%Z -> (0 <= n)%Z ->
  slice 0 a l ++ slice a (a + n) l ++ slice (a + n) (Z.of_nat (length l)) l = l.
Proof.
  intros Ha Hn.
  destruct (Z_le_gt_dec (a + n) (Z.of_nat (length l))) as [Hin | Hout].
  - rewrite !slice_nat by lia. simpl. rewrite Nat.sub_0_r.
    rewrite (List.firstn_all2 (skipn (Z.to_nat (a + n)) l))
      by (rewrite List.length_skipn; lia).
    replace (Z.to_nat (a + n)) with (Z.to_nat a + Z.to_nat n)%nat by lia.
    replace (Z.to_nat a + Z.to_nat n - Z.to_nat a)%nat with (Z.to_nat n) by lia.
    rewrite (Nat.add_comm (Z.to_nat a)), <- List.skipn_skipn.
    rewrite List.firstn_skipn. apply List.firstn_skipn.
  - rewrite (slice_nat l 0 a), (slice_nat l a (a + n)) by lia.
    assert (Hlast : slice (a + n) (Z.of_nat (length l)) l = []).
    { unfold slice, relativeIndex. cbv zeta.
      destruct (Z.ltb_spec (a + n) 0); [lia |].
      destruct (Z.ltb_spec (Z.of_nat (length l)) 0); [lia |].
      rewrite (Z.min_r (a + n)) by lia. rewrite Z.min_id, Z.sub_diag. reflexivity. }
    rewrite Hlast, app_nil_r. simpl. rewrite Nat.sub_0_r.
    rewrite (List.firstn_all2 (skipn (Z.to_nat a) l)) by (rewrite List.length_skipn; lia).
    apply List.firstn_skipn.
Qed.

Lemma indexFrom_least i needle hay : (0 <= i)%Z -> (-1 <= Fixtures.indexFrom i needle hay)%Z.
Proof.
  revert i. induction hay as [| c hay IH]; intros i Hi; simpl.
  - destruct (startsWith needle []); lia.
  - destruct (startsWith needle (c :: hay)); [lia |]. apply IH. lia.
Qed.

(** X28.  Marking the search term never changes what is shown: whatever
    the cell holds, the pieces rendered give back, end to end, the text of
    the cell, the empty text for [null] and [undefined]; nothing is marked
    when the term is empty after trimming. *)
Theorem highlight_keeps_the_text :
  forall (lowerIndex : jsstring -> jsstring -> Z) searchTerm text,
    (forall str s, -1 <= lowerIndex str s)%Z ->
    shown (highlight lowerIndex searchTerm text)
    = match text with JUndefined | JNull => [] | _ => toString text end
    /\ (trim (match searchTerm with Some t => t | None => [] end) = [] ->
        exists str, highlight lowerIndex searchTerm text = Plain str).
Proof.
  intros lowerIndex searchTerm text Hindex. unfold highlight. cbv zeta.
  set (s := trim (match searchTerm with Some t => t | None => [] end)).
  set (str := match text with JUndefined | JNull => [] | _ => toString text end).
  split.
  - destruct (negb (truthy (JString s))); [reflexivity |].
    destruct (Z.eqb_spec (lowerIndex str s) (-1)) as [_ | Hfound]; [reflexivity |].
    simpl. apply slices_rejoin; [| lia]. specialize (Hindex str s). lia.
  - intros Hs. rewrite Hs. simpl. exists str. reflexivity.
Qed.

Lemma highlight_keeps_the_text_witness :
  shown (highlight Fixtures.asciiLowerIndex (Some (lit " bo ")) (Sample.str "Bob"))
  = lit "Bob"
  /\ (trim (lit " bo ") = [] ->
      exists str,
        highlight Fixtures.asciiLowerIndex (Some (lit " bo ")) (Sample.str "Bob") = Plain str).
Proof.
  apply (highlight_keeps_the_text Fixtures.asciiLowerIndex (Some (lit " bo "))
           (Sample.str "Bob")).
  intros str s. apply indexFrom_least. lia.
Defined.

(** *** Documents without rows *)

Section Empty.
Context `{host : Host}.

Lemma stageTable_is_a_table d cols dataRows : stageTable d cols dataRows <> NoTable.
Proof.
  unfold stageTable. destruct (run (connect d) (createTableQuery cols)) as [[err |] s0];
    [discriminate |].
  destruct dataRows as [| row dataRows]; [discriminate |].
  destruct (run s0 (insertQuery (row :: dataRows))) as [[err |] s1]; discriminate.
Qed.

(** X29.  A spreadsheet has no table exactly when its first sheet has no
    row at all; a header alone makes a table.  A file read by the engine
    always has one.  Where there is no table the load resolves with the
    empty page, with total 0, and issues no statement, so that neither the
    search term nor the sql text is looked at. *)
Theorem empty_document_resolves_without_the_engine :
  forall d filePath offset limit search sql,
    (excelTable d filePath = NoTable <-> readWorksheet d filePath = inr [])
    /\ duckdbTable d filePath <> NoTable
    /\ (ingestFile d filePath = NoTable ->
        loadFileData d filePath offset limit search sql
        = (Resolved (mkPage [] [] offset limit (JNumber (NInt 0))), [])).
Proof.
  intros d filePath offset limit search sql. split; [| split].
  - unfold excelTable. destruct (readWorksheet d filePath) as [e | [| rawColumns dataRows]].
    + split; discriminate.
    + split; reflexivity.
    + split; [| discriminate]. destruct (sanitizeSparse rawColumns) as [e | cols];
        [discriminate |].
      intros H. destruct (stageTable_is_a_table _ _ _ H).
  - unfold duckdbTable. destruct (run (connect d) (registerQuery filePath)) as [[err |] s0];
      discriminate.
  - unfold ingestFile, loadFileData, loadWithExcelJS, loadWithXML, loadWithDuckDB.
    destruct (FileLoader.detectFileType filePath); intros H; rewrite H; reflexivity.
Qed.

End Empty.

(** *** The needle of a search *)

Lemma doubleQuotes_others s :
  List.filter (fun c => negb (c =? chr "'")) (doubleQuotes s)
  = List.filter (fun c => negb (c =? chr "'")) s.
Proof.
  induction s as [| c s IH]; [reflexivity |].
  rewrite doubleQuotes_cons. destruct (c =? chr "'") eqn:Hc.
  - cbn [app List.filter]. rewrite N.eqb_refl, Hc. cbn [negb]. exact IH.
  - cbn [app List.filter]. rewrite Hc. cbn [negb]. f_equal. exact IH.
Qed.

Lemma doubleQuotes_In c s : In c (doubleQuotes s) <-> In c s.
Proof.
  induction s as [| x s IH]; [reflexivity |].
  rewrite doubleQuotes_cons. destruct (x =? chr "'") eqn:Hx.
  - apply N.eqb_eq in Hx. subst x. cbn [app]. simpl In. rewrite IH. tauto.
  - cbn [app]. simpl In. rewrite IH. tauto.
Qed.

Lemma doubleQuotes_without_quotes s : ~ In (chr "'") s -> doubleQuotes s = s.
Proof.
  induction s as [| c s IH]; intros H; [reflexivity |].
  rewrite doubleQuotes_cons. destruct (c =? chr "'") eqn:Hc.
  - apply N.eqb_eq in Hc. destruct H. left. exact Hc.
  - cbn [app]. f_equal. apply IH. intros Hin. apply H. right. exact Hin.
Qed.

(** X30.  The needle of a search is the trimmed term with its single
    quotes doubled and nothing else changed: it has the code units of the
    term, the others than quotes in the same order, and it is the trimmed
    term itself when that has no single quote.  The wildcards of [LIKE], the
    percent sign and the underscore, therefore reach the pattern as
    wildcards. *)
Theorem needle_keeps_the_wildcards :
  forall search,
    (forall c, In c (needleOf search) <-> In c (trim search))
    /\ List.filter (fun c => negb (c =? chr "'")) (needleOf search)
       = List.filter (fun c => negb (c =? chr "'")) (trim search)
    /\ (~ In (chr "'") (trim search) -> needleOf search = trim search).
Proof.
  intros search. unfold needleOf. split; [| split].
  - intros c. apply doubleQuotes_In.
  - apply doubleQuotes_others.
  - apply doubleQuotes_without_quotes.
Qed.

(** *** Numbers in a statement *)

(** [String] of the integers from 2^53 on: the shortest digits that read
    back as the same number, then zeros, and an exponent from 1e21 on. *)
Example numberToString_of_wide_integers :
  map (fun z => numberToString (NInt z))
    [2 ^ 53 - 1; 2 ^ 53; 2 ^ 60; - 2 ^ 63; 10 ^ 21; 2 ^ 70; 99999999999999991611392]%Z
  = [lit "9007199254740991"; lit "9007199254740992"; lit "1152921504606847000";
     lit "-9223372036854776000"; lit "1e+21"; lit "1.1805916207174113e+21"; lit "1e+23"].
Proof. vm_compute. reflexivity. Qed.
